(** * BibClean: BibTeX normalisation pipeline

    A shallow embedding of the BibTeX fixer of [src/unnamed/part_000]
    (author normalisation, title materials markup, DOI/URL reconciliation,
    entry parsing and serialisation, batch DOI conversion), together with
    the properties stated about it.

    Text is a [string]: a sequence of 8-bit characters.  The classes
    [\w] and [\d] and the literal characters of the program's expressions
    are 7-bit in the source as well.  Its white space ([\s], [trim]) and
    its case mapping reach beyond that range; here they are rendered on
    the 7-bit range only, where a character above 127 is an ordinary
    character that is neither white space nor a letter.  On 7-bit text
    ([Str.is_ascii]) the embedding and the program agree, and a property
    that depends on what the program takes for white space or for a
    letter in its input is stated for such text.

    Regular expressions are not rewritten by hand into ad-hoc string
    functions: each regular expression literal of the source is transcribed
    as a term of [regex], and run by a backtracking matcher that follows
    the continuation-passing semantics of the ECMAScript specification
    (greedy quantifiers, ordered alternatives, leftmost match). *)

From Stdlib Require Import Ascii String List Arith Bool Lia.
From stdpp Require Import base option list gmap strings sorting pretty.

#[local] Open Scope string_scope.
#[local] Arguments String.append : simpl nomatch.

(** The line feed, as a one-character text. *)
Definition LF : string := String "010" "".

(** ** Characters *)

Module Char.

Definition code (c : ascii) : nat := nat_of_ascii c.

Definition between (lo hi : nat) (c : ascii) : bool :=
  (lo <=? code c)%nat && (code c <=? hi)%nat.

(** [\d] *)
Definition is_digit : ascii -> bool := between 48 57.
(** [[A-Z]] *)
Definition is_upper : ascii -> bool := between 65 90.
(** [[a-z]] *)
Definition is_lower : ascii -> bool := between 97 122.
(** [\w], that is [[A-Za-z0-9_]] *)
Definition is_word (c : ascii) : bool :=
  is_upper c || is_lower c || is_digit c || (code c =? 95)%nat.
(** [\s], and the characters removed by [trim], on the 7-bit range:
    TAB, LF, VT, FF, CR, SP *)
Definition is_space (c : ascii) : bool :=
  between 9 13 c || (code c =? 32)%nat.

(** The double quote character, U+0022. *)
Definition dquote : ascii := ascii_of_nat 34.

(** A character of the 7-bit range. *)
Definition is_ascii (c : ascii) : bool := (code c <? 128)%nat.

Definition just (a : ascii) (c : ascii) : bool := Ascii.eqb a c.
Definition except (a : ascii) (c : ascii) : bool := negb (Ascii.eqb a c).

(** Case mapping, on the 7-bit range. *)
Definition toUpperCase (c : ascii) : ascii :=
  if is_lower c then ascii_of_nat (code c - 32) else c.
Definition toLowerCase (c : ascii) : ascii :=
  if is_upper c then ascii_of_nat (code c + 32) else c.

(** Character comparison under the [i] flag: both sides are
    canonicalised with [toUpperCase]. *)
Definition just_i (a : ascii) (c : ascii) : bool :=
  Ascii.eqb (toUpperCase a) (toUpperCase c).

(** A class under the [i] flag: [c] belongs to it when some member of the
    class has the same canonical form; on the 7-bit range this is
    membership of either case variant of [c]. *)
Definition class_i (p : ascii -> bool) (c : ascii) : bool :=
  p c || p (toUpperCase c) || p (toLowerCase c).

End Char.

(** ** Strings: the methods of [String.prototype] the program uses *)

Module Str.

Fixpoint all (p : ascii -> bool) (s : string) : bool :=
  match s with
  | "" => true
  | String a s' => p a && all p s'
  end.

Fixpoint map (f : ascii -> ascii) (s : string) : string :=
  match s with
  | "" => ""
  | String a s' => String (f a) (map f s')
  end.

Fixpoint take (n : nat) (s : string) : string :=
  match n, s with
  | S n', String a s' => String a (take n' s')
  | _, _ => ""
  end.

Fixpoint drop (n : nat) (s : string) : string :=
  match n, s with
  | S n', String a s' => drop n' s'
  | _, _ => s
  end.

Fixpoint dropWhile (p : ascii -> bool) (s : string) : string :=
  match s with
  | "" => ""
  | String a s' => if p a then dropWhile p s' else s
  end.

Fixpoint last (s : string) : option ascii :=
  match s with
  | "" => None
  | String a "" => Some a
  | String a s' => last s'
  end.

Definition head (s : string) : option ascii :=
  match s with
  | "" => None
  | String a _ => Some a
  end.

Definition toLowerCase : string -> string := map Char.toLowerCase.
Definition toUpperCase : string -> string := map Char.toUpperCase.

(** [s.trim()] *)
Definition trimStart : string -> string := dropWhile Char.is_space.
Definition trimEnd (s : string) : string :=
  String.rev (dropWhile Char.is_space (String.rev s)).
Definition trim (s : string) : string := trimEnd (trimStart s).

(** [s.startsWith(t)] *)
Definition startsWith (t s : string) : bool := String.prefix t s.
(** [s.endsWith(t)] *)
Definition endsWith (t s : string) : bool :=
  String.prefix (String.rev t) (String.rev s).

(** [s.includes(t)] *)
Fixpoint includes (t s : string) : bool :=
  String.prefix t s ||
  match s with
  | "" => false
  | String _ s' => includes t s'
  end.

(** [s.slice(n)], for [0 <= n] *)
Definition slice_from (n : nat) (s : string) : string := drop n s.
(** [s.slice(1, -1)] *)
Definition slice_1_m1 (s : string) : string :=
  take (String.length s - 2) (drop 1 s).

(** [l.join(sep)] *)
Fixpoint join (sep : string) (l : list string) : string :=
  match l with
  | [] => ""
  | [x] => x
  | x :: l' => x +:+ sep +:+ join sep l'
  end.

(** JavaScript truthiness of a string: non-empty. *)
Definition truthy (s : string) : bool :=
  match s with "" => false | _ => true end.

(** [l.filter(Boolean)] on an array of strings *)
Definition filter_Boolean (l : list string) : list string :=
  List.filter truthy l.

(** A text of the 7-bit range. *)
Definition is_ascii (s : string) : bool := all Char.is_ascii s.

End Str.

(** ** Regular expressions *)

Module Regex.

(** The syntax covers what the source's literals use.  Flags are applied
    when a literal is transcribed: under [i] a character is [Char.just_i]
    and a class is [Char.class_i]; [s] only affects [.], which no literal
    with that flag contains. *)
Inductive regex : Type :=
| Eps
| Chr (p : ascii -> bool)
| Seq (r1 r2 : regex)
| Alt (r1 r2 : regex)
| Rep (lo : nat) (hi : option nat) (r : regex)
| Grp (i : nat) (r : regex)
| Bol
| Eol
| WordB.

Definition Star := Rep 0 None.
Definition Plus := Rep 1 None.
Definition Opt := Rep 0 (Some 1).

Declare Scope regex_scope.
Delimit Scope regex_scope with re.
Bind Scope regex_scope with regex.
Infix "⋅" := Seq (at level 41, right associativity) : regex_scope.
Infix "∣" := Alt (at level 42, right associativity) : regex_scope.

(** Matcher state: the character before the current position (for [\b]
    and [^]), the text still to be read, and the captures so far (most
    recent first). *)
Record mstate : Type := MState {
  prev : option ascii;
  rest : string;
  caps : list (nat * string)
}.

Definition advance (a : ascii) (s : string) (x : mstate) : mstate :=
  {| prev := Some a; rest := s; caps := caps x |}.

Definition capture (i : nat) (x y : mstate) : mstate :=
  {| prev := prev y; rest := rest y;
     caps := (i, Str.take (String.length (rest x) - String.length (rest y))
                          (rest x)) :: caps y |}.

Definition is_word_opt (o : option ascii) : bool :=
  match o with Some c => Char.is_word c | None => false end.

Definition at_word_boundary (x : mstate) : bool :=
  xorb (is_word_opt (prev x)) (is_word_opt (Str.head (rest x))).

Definition pred_hi (hi : option nat) : option nat :=
  match hi with Some n => Some (Nat.pred n) | None => None end.

Definition hi_is_zero (hi : option nat) : bool :=
  match hi with Some 0 => true | _ => false end.

Definition same_pos (x y : mstate) : bool :=
  (String.length (rest y) =? String.length (rest x))%nat.

(** [RepeatMatcher] of the ECMAScript specification, greedy case, for
    a body matcher [m] and a continuation [c].  An iteration that
    consumes nothing once the minimum is reached is rejected, so
    [lo + |rest x| + 1] turns always suffice; [fuel] counts them. *)
Fixpoint repeat (m : mstate -> (mstate -> option mstate) -> option mstate)
    (c : mstate -> option mstate) (fuel lo : nat) (hi : option nat)
    (x : mstate) {struct fuel} : option mstate :=
  match fuel with
  | O => None
  | S fuel' =>
      if hi_is_zero hi then c x else
      let d (y : mstate) :=
        if (lo =? 0)%nat && same_pos x y then None
        else repeat m c fuel' (Nat.pred lo) (pred_hi hi) y in
      if (lo =? 0)%nat then
        match m x d with
        | Some z => Some z
        | None => c x
        end
      else m x d
  end.

Definition enough (lo : nat) (x : mstate) : nat :=
  lo + S (String.length (rest x)).

(** The matcher of a regular expression, in continuation-passing style:
    [rmatch r x c] tries the ways [r] can match at [x] in priority
    order and returns the first for which the continuation [c]
    succeeds. *)
Fixpoint rmatch (r : regex) (x : mstate)
    (c : mstate -> option mstate) {struct r} : option mstate :=
  match r with
  | Eps => c x
  | Chr p =>
      match rest x with
      | String a s => if p a then c (advance a s x) else None
      | "" => None
      end
  | Seq r1 r2 => rmatch r1 x (fun y => rmatch r2 y c)
  | Alt r1 r2 =>
      match rmatch r1 x c with
      | Some z => Some z
      | None => rmatch r2 x c
      end
  | Rep lo hi r1 => repeat (rmatch r1) c (enough lo x) lo hi x
  | Grp i r1 => rmatch r1 x (fun y => c (capture i x y))
  | Bol => match prev x with None => c x | Some _ => None end
  | Eol => match rest x with "" => c x | _ => None end
  | WordB => if at_word_boundary x then c x else None
  end.

(** A successful match: the text skipped before it, the matched text
    ([m[0]]), and the matcher state at its end. *)
Record found : Type := Found {
  before : string;
  matched : string;
  final : mstate
}.

Definition group (i : nat) (m : found) : string :=
  match List.find (fun p => (fst p =? i)%nat) (caps (final m)) with
  | Some p => snd p
  | None => ""
  end.

Definition start (pv : option ascii) (s : string) : mstate :=
  {| prev := pv; rest := s; caps := [] |}.

(** Sticky match at the current position. *)
Definition match_here (r : regex) (pv : option ascii) (s : string)
    : option found :=
  match rmatch r (start pv s) Some with
  | Some y =>
      Some {| before := "";
              matched := Str.take (String.length s - String.length (rest y)) s;
              final := y |}
  | None => None
  end.

Definition skip (a : ascii) (m : found) : found :=
  {| before := String a (before m); matched := matched m; final := final m |}.

(** Leftmost match at or after the current position ([RegExpBuiltinExec]
    without the sticky flag). *)
Fixpoint search (r : regex) (pv : option ascii) (s : string)
    : option found :=
  match match_here r pv s with
  | Some m => Some m
  | None =>
      match s with
      | "" => None
      | String a s' => skip a <$> search r (Some a) s'
      end
  end.

(** [s.match(r)] for a non-global [r], and [r.test(s)]. *)
Definition match_first (r : regex) (s : string) : option found :=
  search r None s.
Definition test (r : regex) (s : string) : bool :=
  bool_decide (is_Some (match_first r s)).

(** All successive matches of a global regular expression, as
    [lastIndex] moves through the text: the list of matches (each with the
    text skipped since the previous one) and the text after the last.  An
    empty match advances [lastIndex] by one character, which then
    belongs to the text skipped before the next match. *)
Fixpoint scan_go (fuel : nat) (r : regex) (pv : option ascii) (s : string)
    : list found * string :=
  match fuel with
  | O => ([], s)
  | S fuel' =>
      match search r pv s with
      | None => ([], s)
      | Some m =>
          let y := final m in
          match matched m, rest y with
          | "", String a s' =>
              let '(ms, tl) := scan_go fuel' r (Some a) s' in
              match ms with
              | [] => ([m], String a tl)
              | m' :: ms' => (m :: skip a m' :: ms', tl)
              end
          | "", "" => ([m], "")
          | _, _ =>
              let '(ms, tl) := scan_go fuel' r (prev y) (rest y) in
              (m :: ms, tl)
          end
      end
  end.

Definition scan (r : regex) (s : string) : list found * string :=
  scan_go (S (String.length s)) r None s.

(** [s.replace(r, f)] for a global [r] and a replacer function [f]. *)
Definition replace_all (r : regex) (f : found -> string) (s : string)
    : string :=
  let '(ms, tl) := scan r s in
  List.fold_right (fun m acc => before m +:+ f m +:+ acc) tl ms.

(** [s.replace(r, t)] for a non-global [r] and a constant [t]. *)
Definition replace_first (r : regex) (t : string) (s : string) : string :=
  match match_first r s with
  | Some m => before m +:+ t +:+ rest (final m)
  | None => s
  end.

(** A literal string as a regular expression. *)
Fixpoint lit (s : string) : regex :=
  match s with
  | "" => Eps
  | String a "" => Chr (Char.just a)
  | String a s' => Seq (Chr (Char.just a)) (lit s')
  end.

(** [s.split(r)] without a limit, following [RegExp.prototype[@@split]]:
    [cur] is the text between the last split point [p] and the position
    [q] being tried, and a match that ends at [p] is skipped. *)
Fixpoint split_go (fuel : nat) (r : regex) (cur : string)
    (pv : option ascii) (s : string) : list string :=
  match fuel with
  | O => [cur +:+ s]
  | S fuel' =>
      match s with
      | "" => [cur]
      | String a s' =>
          match rmatch r (start pv s) Some with
          | None => split_go fuel' r (cur +:+ String a "") (Some a) s'
          | Some y =>
              if Str.truthy cur || negb (same_pos (start pv s) y)
              then cur :: split_go fuel' r "" (prev y) (rest y)
              else split_go fuel' r (cur +:+ String a "") (Some a) s'
          end
      end
  end.

Definition split (r : regex) (s : string) : list string :=
  match s with
  | "" => if bool_decide (is_Some (rmatch r (start None "") Some))
          then [] else [""]
  | _ => split_go (S (2 * String.length s)) r "" None s
  end.

(** [s.split(sep)] for a non-empty string separator. *)
Definition split_str (sep : string) (s : string) : list string :=
  split (lit sep) s.

End Regex.

(** ** The option check boxes *)

(** The [checked] state of the three check boxes the core reads. *)
Record options : Type := Options {
  noDots : bool;
  tryExtractDoi : bool;
  enforceDoiUrl : bool
}.

(** ** Author normalisation *)

Section Authors.
Import Regex.
Context (opts : options).

(** [/[.,]/g] *)
Definition re_dot_or_comma : regex :=
  Chr (fun c => Char.just "." c || Char.just "," c).
(** [/\./g] *)
Definition re_dot : regex := Chr (Char.just ".").
(** [/\s+/] and [/\s+/g] *)
Definition re_spaces : regex := Plus (Chr Char.is_space).
(** [/\s+and\s+/i] *)
Definition re_and : regex :=
  (Plus (Chr Char.is_space) ⋅ Chr (Char.just_i "a") ⋅ Chr (Char.just_i "n")
     ⋅ Chr (Char.just_i "d") ⋅ Plus (Chr Char.is_space))%re.

Definition const (t : string) (_ : found) : string := t.

Definition cleanToken (t : string) : string :=
  Str.trim (replace_all re_dot_or_comma (const "") t).

(** [p[0].toUpperCase()], for a token that begins with a 7-bit
    character; every caller has filtered out the empty string, on which
    the source would raise. *)
Definition initial (p : string) : string :=
  match p with
  | String a _ => String (Char.toUpperCase a) ""
  | "" => ""
  end.

Definition makeInitialsFromGiven (given : string) : string :=
  let parts :=
    Str.filter_Boolean
      (List.map cleanToken
         (split re_spaces (replace_all re_dot (const " ") given))) in
  Str.join " " (List.map initial parts).

(** The tail of both branches: [`${initials} ${family}`], trimmed, white
    space collapsed, periods removed when the box is checked. *)
Definition finish (initials family : string) : string :=
  let out :=
    replace_all re_spaces (const " ")
      (Str.trim (initials +:+ " " +:+ family)) in
  if noDots opts then replace_all re_dot (const "") out else out.

(** [tokens[tokens.length - 1]] inside a template literal: reading past
    the array gives [undefined], which the template renders as text. *)
Definition last_or_undefined (l : list string) : string :=
  match List.last (List.map Some l) None with
  | Some t => t
  | None => "undefined"
  end.

Definition normalizeOneAuthorStrict (rawName : string) : string :=
  let n := Str.trim rawName in
  if negb (Str.truthy n) then "" else
  let n := replace_all re_spaces (const " ") n in
  if Str.startsWith "{" n && Str.endsWith "}" n then n else
  if Str.includes "," n then
    let pieces :=
      Str.filter_Boolean (List.map Str.trim (split_str "," n)) in
    let family := cleanToken (List.hd "" pieces) in
    let given := Str.join " " (List.tl pieces) in
    let initials := makeInitialsFromGiven given in
    finish initials family
  else
    let tokens :=
      Str.filter_Boolean
        (List.map cleanToken
           (split re_spaces (replace_all re_dot (const " ") n))) in
    match tokens with
    | [t] => t
    | _ =>
        let family := last_or_undefined tokens in
        let givenTokens := List.removelast tokens in
        let initials :=
          Str.join " "
            (Str.filter_Boolean (List.map initial givenTokens)) in
        finish initials family
    end.

Definition normalizeAuthorsStrict (authorField : string) : string :=
  let authors :=
    Str.filter_Boolean (List.map Str.trim (split re_and authorField)) in
  Str.join " and " (List.map normalizeOneAuthorStrict authors).

End Authors.

(** ** Author normalisation, first version ([src/app.js]) *)

Module Mvp.
Section Authors.
Import Regex.
Context (opts : options).

Definition initialsFromGiven (given : string) : string :=
  let parts := Str.filter_Boolean (split re_spaces (Str.trim given)) in
  Str.join " " (List.map initial parts).

Definition normalizeOneAuthor (name : string) : string :=
  let n := Str.trim name in
  if negb (Str.truthy n) then "" else
  let n := replace_all re_spaces (const " ") n in
  if Str.includes "," n then
    let parts := List.map Str.trim (split_str "," n) in
    let family := List.nth 0 parts "undefined" in
    let given := List.nth 1 parts "" in
    let initials := initialsFromGiven (replace_all re_dot (const " ") given) in
    replace_all re_spaces (const " ")
      (Str.trim (initials +:+ " " +:+ family))
  else
    let parts := Str.filter_Boolean (split_str " " n) in
    match parts with
    | [t] => t
    | _ =>
        let family := last_or_undefined parts in
        let given := Str.join " " (List.removelast parts) in
        let initials :=
          initialsFromGiven (replace_all re_dot (const " ") given) in
        replace_all re_spaces (const " ")
          (Str.trim (initials +:+ " " +:+ family))
    end.

Definition normalizeAuthors (authorField : string) : string :=
  let authors :=
    Str.filter_Boolean (List.map Str.trim (split re_and authorField)) in
  let out := Str.join " and " (List.map normalizeOneAuthor authors) in
  if noDots opts then replace_all re_dot (const "") out else out.

End Authors.
End Mvp.

(** ** Title materials markup *)

Section Title.
Import Regex.

(** The element group [[A-Z][a-z]?\d*] *)
Definition re_element : regex :=
  (Chr Char.is_upper ⋅ Opt (Chr Char.is_lower) ⋅ Star (Chr Char.is_digit))%re.
(** [/\b(E){2,}\b/g], where [E] is the element group above *)
Definition re_formula : regex :=
  (WordB ⋅ Rep 2 None (Grp 1 re_element) ⋅ WordB)%re.
(** [/\d/] *)
Definition re_digit : regex := Chr Char.is_digit.
(** [/([A-Z][a-z]?)(\d+)/g] *)
Definition re_element_count : regex :=
  (Grp 1 (Chr Char.is_upper ⋅ Opt (Chr Char.is_lower))
     ⋅ Grp 2 (Plus (Chr Char.is_digit)))%re.

(** [(_, el, num) => `${el}$_${num}$`] *)
Definition subscript (m : found) : string :=
  group 1 m +:+ "$_" +:+ group 2 m +:+ "$".

(** The replacer of the outer [replace]. *)
Definition markup (m : found) : string :=
  let token := matched m in
  if negb (test re_digit token) then token else
  let withSubs := replace_all re_element_count subscript token in
  "{" +:+ withSubs +:+ "}".

Definition latexifyMaterialsInTitle (title : string) : string :=
  if negb (Str.truthy title) then title else
  if Str.includes "$_" title || Str.includes "\mathrm" title then title else
  replace_all re_formula markup title.

End Title.

(** ** DOI extraction and URL enforcement *)

Section Doi.
Import Regex.

(** The suffix class [[-._;()/:A-Z0-9]] *)
Definition doi_suffix_char (c : ascii) : bool :=
  Char.just "-" c || Char.just "." c || Char.just "_" c || Char.just ";" c
  || Char.just "(" c || Char.just ")" c || Char.just "/" c
  || Char.just ":" c || Char.is_upper c || Char.is_digit c.

(** [/10\.\d{4,9}\/[-._;()/:A-Z0-9]+/i] *)
Definition re_doi : regex :=
  (Chr (Char.just_i "1") ⋅ Chr (Char.just_i "0") ⋅ Chr (Char.just_i ".")
     ⋅ Rep 4 (Some 9) (Chr (Char.class_i Char.is_digit))
     ⋅ Chr (Char.just_i "/")
     ⋅ Plus (Chr (Char.class_i doi_suffix_char)))%re.

Definition extractDoiFromText (text : string) : string :=
  if negb (Str.truthy text) then "" else
  let t := Str.trim text in
  match match_first re_doi t with
  | Some m => matched m
  | None => ""
  end.

Definition doiUrl (doi : string) : string := "https://doi.org/" +:+ doi.

End Doi.

(** ** Entries *)

(** The object [{ type, key, fields }]; [fields] is a plain object used as
    a map from field name to text. *)
Record entry : Type := Entry {
  type : string;
  key : string;
  fields : gmap string string
}.

(** [fields[f]] read for its truthiness: an absent field reads
    [undefined], and both [undefined] and the empty string are falsy. *)
Definition field (f : string) (fields : gmap string string) : string :=
  default "" (fields !! f).

(** ** Parsing *)

Section Parse.
Import Regex.

(** [/^@(\w+)\s*\{\s*([^,]+)\s*,/s] *)
Definition re_head : regex :=
  (Bol ⋅ Chr (Char.just "@") ⋅ Grp 1 (Plus (Chr Char.is_word))
     ⋅ Star (Chr Char.is_space) ⋅ Chr (Char.just "{")
     ⋅ Star (Chr Char.is_space) ⋅ Grp 2 (Plus (Chr (Char.except ",")))
     ⋅ Star (Chr Char.is_space) ⋅ Chr (Char.just ","))%re.

(** [/\}\s*$/s] *)
Definition re_close : regex :=
  (Chr (Char.just "}") ⋅ Star (Chr Char.is_space) ⋅ Eol)%re.

(** [[^{}]] *)
Definition not_brace (c : ascii) : bool :=
  negb (Char.just "{" c || Char.just "}" c).

(** [\{(?:[^{}]|\{[^{}]*\})*\}] *)
Definition re_braced : regex :=
  (Chr (Char.just "{")
     ⋅ Star (Chr not_brace
             ∣ Chr (Char.just "{") ⋅ Star (Chr not_brace) ⋅ Chr (Char.just "}"))
     ⋅ Chr (Char.just "}"))%re.

(** A double quote, [[^Q]*], a double quote ([Q] the quote character) *)
Definition re_quoted : regex :=
  (Chr (Char.just Char.dquote) ⋅ Star (Chr (Char.except Char.dquote))
     ⋅ Chr (Char.just Char.dquote))%re.

(** [/(\w+)\s*=\s*(B|Q|[^,]+)\s*,?/gs], where [B] is the braced value
    and [Q] the quoted value above *)
Definition fieldRegex : regex :=
  (Grp 1 (Plus (Chr Char.is_word)) ⋅ Star (Chr Char.is_space)
     ⋅ Chr (Char.just "=") ⋅ Star (Chr Char.is_space)
     ⋅ Grp 2 (re_braced ∣ re_quoted ∣ Plus (Chr (Char.except ",")))
     ⋅ Star (Chr Char.is_space) ⋅ Opt (Chr (Char.just ",")))%re.

(** The two light unwrapping steps applied to a matched value. *)
Definition strip_braces (value : string) : string :=
  if Str.startsWith "{" value && Str.endsWith "}" value
  then Str.trim (Str.slice_1_m1 value) else value.
Definition strip_quotes (value : string) : string :=
  if Str.startsWith (String Char.dquote "") value
     && Str.endsWith (String Char.dquote "") value
  then Str.trim (Str.slice_1_m1 value) else value.

(** [fields[name] = value] on a plain object: the assignment to
    [__proto__] goes to the inherited setter, which ignores a string. *)
Definition assign (name value : string) (fields : gmap string string)
    : gmap string string :=
  if bool_decide (name = "__proto__") then fields
  else <[name := value]> fields.

(** One turn of the [while] loop over [fieldRegex.exec(body)]. *)
Definition parse_field (fields : gmap string string) (m : found)
    : gmap string string :=
  let name := Str.toLowerCase (group 1 m) in
  let value := Str.trim (group 2 m) in
  let value := strip_braces value in
  let value := strip_quotes value in
  assign name value fields.

Definition parseEntry (entryText : string) : option entry :=
  match match_first re_head entryText with
  | None => None
  | Some headMatch =>
      let type := Str.toLowerCase (group 1 headMatch) in
      let key := Str.trim (group 2 headMatch) in
      let body :=
        Str.trim
          (replace_first re_close ""
             (Str.slice_from (String.length (matched headMatch)) entryText)) in
      let fields := List.fold_left parse_field (fst (scan fieldRegex body)) ∅ in
      Some {| type := type; key := key; fields := fields |}
  end.

End Parse.

(** ** Formatting *)

Section Format.
Context (opts : options).

Definition preferred : list string :=
  ["author"; "title"; "journal"; "booktitle"; "year"; "volume"; "number";
   "pages"; "doi"; "url"].

(** The four in-place mutations of [fields], in source order. *)
Definition normalize_author (fields : gmap string string) :=
  if Str.truthy (field "author" fields)
  then <["author" := normalizeAuthorsStrict opts (field "author" fields)]> fields
  else fields.

Definition normalize_title (fields : gmap string string) :=
  if Str.truthy (field "title" fields)
  then <["title" := latexifyMaterialsInTitle (field "title" fields)]> fields
  else fields.

Definition extract_doi (fields : gmap string string) :=
  if tryExtractDoi opts && negb (Str.truthy (field "doi" fields))
     && Str.truthy (field "url" fields)
  then
    let d := extractDoiFromText (field "url" fields) in
    if Str.truthy d then <["doi" := d]> fields else fields
  else fields.

Definition enforce_url (fields : gmap string string) :=
  if enforceDoiUrl opts && Str.truthy (field "doi" fields)
  then
    let d := Str.trim (field "doi" fields) in
    <["url" := doiUrl d]> (<["doi" := d]> fields)
  else fields.

Definition normalize (fields : gmap string string) : gmap string string :=
  enforce_url (extract_doi (normalize_title (normalize_author fields))).

(** [`  ${f} = {${fields[f]}}`] *)
Definition line (fields : gmap string string) (f : string) : string :=
  "  " +:+ f +:+ " = {" +:+ field f fields +:+ "}".

(** [Object.keys(fields)]; the order of the keys is immaterial, as the
    caller sorts them. *)
Definition keys (fields : gmap string string) : list string :=
  (map_to_list fields).*1.

(** [extra]: the keys outside [preferred], sorted by code units. *)
Definition extra (fields : gmap string string) : list string :=
  merge_sort String.le
    (List.filter (fun f => negb (bool_decide (f ∈ preferred))) (keys fields)).

(** The names of the fields for which a line is pushed, in the order of
    the pushes: the first loop, then the second. *)
Definition emitted (fields : gmap string string) : list string :=
  List.filter (fun f => Str.truthy (field f fields)) preferred
  ++ extra fields.

Definition lines (fields : gmap string string) : list string :=
  List.map (line fields)
    (List.filter (fun f => Str.truthy (field f fields)) preferred)
  ++ List.map (line fields) (extra fields).

(** The text returned by [formatEntry], given the mutated [fields]. *)
Definition serialize (type key : string) (fields : gmap string string)
    : string :=
  "@" +:+ type +:+ "{" +:+ key +:+ ("," +:+ LF) +:+ Str.join ("," +:+ LF) (lines fields) +:+ (LF +:+ "}" +:+ LF).

(** [formatEntry] mutates [e.fields] in place and returns the text;
    [formatted] is the entry as the call leaves it. *)
Definition formatted (e : entry) : entry :=
  {| type := type e; key := key e; fields := normalize (fields e) |}.

Definition formatEntry (e : entry) : string :=
  serialize (type e) (key e) (normalize (fields e)).

End Format.

(** ** Remote metadata and its adapter *)

Module Crossref.

(** One element of [msg.author]. *)
Record author_name : Type := AuthorName {
  given : option string;
  family : option string
}.

(** The attributes of a Crossref work the adapter reads; [None] is an
    attribute that is missing ([undefined] or [null]).  [issued] is the
    number at [msg.issued["date-parts"][0][0]]. *)
Record message : Type := Message {
  issued : option nat;
  title : option (list string);
  container_title : option (list string);
  volume : option string;
  issue : option string;
  page : option string;
  DOI : option string;
  URL : option string;
  author : option (list author_name)
}.

End Crossref.

Section Adapter.
Import Regex.

(** [x ?? ""], and [x ? x : ""] for a text that is also tested for
    truthiness at its use. *)
Definition or_empty (x : option string) : string := default "" x.

(** [(a && a[0]) ? a[0] : ""] *)
Definition first_or_empty (a : option (list string)) : string :=
  match a with
  | Some (x :: _) => x
  | _ => ""
  end.

(** [/[^A-Za-z0-9]/g] *)
Definition re_not_alnum : regex :=
  Chr (fun c => negb (Char.is_upper c || Char.is_lower c || Char.is_digit c)).

(** The callback of [msg.author.map]. *)
Definition author_text (a : Crossref.author_name) : string :=
  let given := Str.trim (or_empty (Crossref.given a)) in
  let family := Str.trim (or_empty (Crossref.family a)) in
  Str.trim (Str.join " " (Str.filter_Boolean [given; family])).

(** [String(year)] and [`${year}`] for [year] a number or the empty
    string. *)
Definition year_text (year : option nat) : string :=
  match year with
  | Some n => pretty n
  | None => ""
  end.

Definition crossrefToBibEntry (msg : Crossref.message) : entry :=
  let type := "article" in
  let year := Crossref.issued msg in
  let title := first_or_empty (Crossref.title msg) in
  let journal := first_or_empty (Crossref.container_title msg) in
  let volume := or_empty (Crossref.volume msg) in
  let number := or_empty (Crossref.issue msg) in
  let pages := or_empty (Crossref.page msg) in
  let doi := or_empty (Crossref.DOI msg) in
  let url :=
    if Str.truthy doi then "https://doi.org/" +:+ doi
    else or_empty (Crossref.URL msg) in
  let authors :=
    Str.join " and "
      (Str.filter_Boolean
         (List.map author_text (default [] (Crossref.author msg)))) in
  let firstFamily :=
    match Crossref.author msg with
    | Some (a :: _) =>
        if Str.truthy (or_empty (Crossref.family a))
        then or_empty (Crossref.family a) else "ref"
    | _ => "ref"
    end in
  let firstWord :=
    if Str.truthy title
    then replace_all re_not_alnum (const "")
           (List.hd "" (split re_spaces title))
    else "paper" in
  let key :=
    replace_all re_spaces (const "")
      (firstFamily +:+ year_text year +:+ firstWord) in
  let fields : gmap string string :=
    <["author" := authors]> (<["title" := title]> (<["journal" := journal]>
    (<["year" := year_text year]> (<["volume" := volume]>
    (<["number" := number]> (<["pages" := pages]> (<["doi" := doi]>
    (<["url" := url]> ∅)))))))) in
  {| type := type; key := key; fields := fields |}.

End Adapter.

(** ** Batch conversion of identifiers *)

Section Batch.
Import Regex.

(** The remote collaborator.  A lookup either throws (the message of the
    exception is kept) or returns a metadata record, and may change the
    state of the outside world, so that two lookups of one identifier
    need not agree. *)
Context {world : Type}.
Context (fetchCrossrefJson :
           string -> world -> (string + Crossref.message) * world).
Context (opts : options).

(** [/\r?\n/] *)
Definition re_newline : regex :=
  (Opt (Chr (Char.just "013")) ⋅ Chr (Char.just "010"))%re.

(** The identifiers read from the text area. *)
Definition identifiers (doiIn : string) : list string :=
  Str.filter_Boolean (List.map Str.trim (split re_newline doiIn)).

(** The local variables of the click handler that the loop updates. *)
Record progress : Type := Progress {
  combined : string;
  ok : nat;
  failed : nat;
  outside : world
}.

(** One turn of the [for] loop: the [try] block and its [catch]. *)
Definition convert_one (st : progress) (doi : string) : progress :=
  match fetchCrossrefJson doi (outside st) with
  | (inr msg, w) =>
      let entry := crossrefToBibEntry msg in
      {| combined := combined st +:+ (formatEntry opts entry +:+ LF);
         ok := S (ok st); failed := failed st; outside := w |}
  | (inl message, w) =>
      {| combined :=
           combined st +:+ ("% Failed DOI: " +:+ doi +:+ " (" +:+ message +:+ (")" +:+ LF));
         ok := ok st; failed := S (failed st); outside := w |}
  end.

(** What the handler leaves behind: the output area, the status line,
    and the outside world. *)
Record outcome : Type := Outcome {
  doiOut : string;
  status : string;
  world_after : world
}.

Definition convertDoi (doiIn : string) (w : world) : outcome :=
  let dois := identifiers doiIn in
  match dois with
  | [] => {| doiOut := ""; status := "Paste at least one DOI.";
             world_after := w |}
  | _ =>
      let st :=
        List.fold_left convert_one dois
          {| combined := ""; ok := 0; failed := 0; outside := w |} in
      {| doiOut := Str.trim (combined st) +:+ LF;
         status := "Converted " +:+ pretty (ok st) +:+ " DOI(s). Failed: "
                    +:+ pretty (failed st) +:+ ".";
         world_after := outside st |}
  end.

End Batch.

(** The batch told as a list of lookups: each identifier with the answer
    of the remote collaborator, in input order, and the block of output
    text an answer stands for. *)
Section Lookups.
Context {world : Type}.
Context (fetchCrossrefJson :
           string -> world -> (string + Crossref.message) * world).
Context (opts : options).

Fixpoint lookups (dois : list string) (w : world)
    : list (string * (string + Crossref.message)) * world :=
  match dois with
  | [] => ([], w)
  | doi :: dois' =>
      let '(r, w1) := fetchCrossrefJson doi w in
      let '(rs, w2) := lookups dois' w1 in
      ((doi, r) :: rs, w2)
  end.

Definition succeeded (dr : string * (string + Crossref.message)) : bool :=
  match snd dr with inr _ => true | inl _ => false end.

Definition block (dr : string * (string + Crossref.message)) : string :=
  match snd dr with
  | inr msg => formatEntry opts (crossrefToBibEntry msg) +:+ LF
  | inl message => "% Failed DOI: " +:+ fst dr +:+ " (" +:+ message +:+ (")" +:+ LF)
  end.

Definition blocks (rs : list (string * (string + Crossref.message)))
    : string :=
  List.fold_right String.append "" (List.map block rs).

End Lookups.

(** ** Splitting a file into entries *)

Section Split.
Import Regex.

(** The positive lookahead [(?=r)]: [r] is tried at the current
    position; when it matches, the continuation is run from that same
    position, with the captures [r] has made. *)
Definition ahead (r : regex) (x : mstate) (c : mstate -> option mstate)
    : option mstate :=
  match rmatch r x Some with
  | Some y => c {| prev := prev x; rest := rest x; caps := caps y |}
  | None => None
  end.

(** [split_go] and [split], for a separator given by its matcher. *)
Fixpoint split_by_go (fuel : nat)
    (m : mstate -> (mstate -> option mstate) -> option mstate)
    (cur : string) (pv : option ascii) (s : string) : list string :=
  match fuel with
  | O => [cur +:+ s]
  | S fuel' =>
      match s with
      | "" => [cur]
      | String a s' =>
          match m (start pv s) Some with
          | None => split_by_go fuel' m (cur +:+ String a "") (Some a) s'
          | Some y =>
              if Str.truthy cur || negb (same_pos (start pv s) y)
              then cur :: split_by_go fuel' m "" (prev y) (rest y)
              else split_by_go fuel' m (cur +:+ String a "") (Some a) s'
          end
      end
  end.

Definition split_by
    (m : mstate -> (mstate -> option mstate) -> option mstate)
    (s : string) : list string :=
  match s with
  | "" => if bool_decide (is_Some (m (start None "") Some))
          then [] else [""]
  | _ => split_by_go (S (2 * String.length s)) m "" None s
  end.

(** The inside of [/(?=@\w+)/g] *)
Definition re_at_word : regex :=
  (Chr (Char.just "@") ⋅ Plus (Chr Char.is_word))%re.

Definition splitEntries (bib : string) : list string :=
  Str.filter_Boolean
    (List.map Str.trim (split_by (ahead re_at_word) bib)).

End Split.

(** ** The format button *)

Module FormatBib.
Section Handler.
Context (opts : options).

(** What the handler leaves behind: the output area and the status
    line. *)
Record outcome : Type := Outcome {
  bibOut : string;
  status : string
}.

(** [entries.map(parseEntry).filter(Boolean)]: [null] is dropped, an
    object is kept. *)
Definition parsed (entries : list string) : list entry :=
  omap parseEntry entries.

(** [`Formatted ${n} entr${n === 1 ? "y" : "ies"}.`] *)
Definition report (n : nat) : string :=
  "Formatted " +:+ pretty n +:+ " entr"
    +:+ (if (n =? 1)%nat then "y" else "ies") +:+ ".".

(** The click handler; [bibIn] is the text of the input area and
    [bibOut0] the text of the output area before the click. *)
Definition click (bibIn bibOut0 : string) : outcome :=
  let input := bibIn in
  if negb (Str.truthy (Str.trim input))
  then {| bibOut := bibOut0; status := "Paste a .bib first." |}
  else
    let entries := splitEntries input in
    let parsed := parsed entries in
    match parsed with
    | [] => {| bibOut := bibOut0;
               status := "Could not detect BibTeX entries." |}
    | _ =>
        let out := Str.join LF (List.map (formatEntry opts) parsed) in
        {| bibOut := out; status := report (List.length parsed) |}
    end.

End Handler.
End FormatBib.

(** ** Author normalisation, second variant of the strict normaliser *)

(** The second copy of the program in [src/unnamed/part_000] reads the
    tokens of a name without comma in another way: the name is split at
    its spaces, and its periods are not turned into spaces first. *)
Module Variant.
Section Authors.
Import Regex.
Context (opts : options).

Definition normalizeOneAuthorStrict (rawName : string) : string :=
  let n := Str.trim rawName in
  if negb (Str.truthy n) then "" else
  let n := replace_all re_spaces (const " ") n in
  if Str.startsWith "{" n && Str.endsWith "}" n then n else
  if Str.includes "," n then
    let pieces :=
      Str.filter_Boolean (List.map Str.trim (split_str "," n)) in
    let family := cleanToken (List.hd "" pieces) in
    let given := Str.join " " (List.tl pieces) in
    let initials := makeInitialsFromGiven given in
    finish opts initials family
  else
    let tokens :=
      Str.filter_Boolean (List.map cleanToken (split_str " " n)) in
    match tokens with
    | [t] => t
    | _ =>
        let family := last_or_undefined tokens in
        let givenTokens := List.removelast tokens in
        let initials :=
          Str.join " "
            (Str.filter_Boolean (List.map initial givenTokens)) in
        finish opts initials family
    end.

End Authors.
End Variant.

(** ** Batch conversion of identifiers, first version ([src/app.js]) *)

(** The first version asks the remote service for the BibTeX text of an
    identifier, parses that text and formats the entry it finds; its
    [formatEntry] has no title step and uses the first author
    normaliser. *)
Module MvpDoi.
Section Batch.
Import Regex.

(** The remote collaborator: a lookup throws (the message of the
    exception is kept) or returns a text, and may change the state of
    the outside world. *)
Context {world : Type}.
Context (fetchBibtexFromCrossref :
           string -> world -> (string + string) * world).
Context (opts : options).

Definition normalize_author (fields : gmap string string) :=
  if Str.truthy (field "author" fields)
  then <["author" := Mvp.normalizeAuthors opts (field "author" fields)]> fields
  else fields.

Definition normalize (fields : gmap string string) : gmap string string :=
  enforce_url opts (extract_doi opts (normalize_author fields)).

Definition formatEntry (e : entry) : string :=
  serialize (type e) (key e) (normalize (fields e)).

(** [if (!parsed.fields.doi) parsed.fields.doi = doi] *)
Definition record_doi (doi : string) (parsed : entry) : entry :=
  if negb (Str.truthy (field "doi" (fields parsed)))
  then {| type := type parsed; key := key parsed;
          fields := <["doi" := doi]> (fields parsed) |}
  else parsed.

(** The [catch] block. *)
Definition failure (st : @progress world) (doi message : string)
    (w : world) : @progress world :=
  {| combined :=
       combined st +:+ ("% Failed DOI: " +:+ doi +:+ " (" +:+ message +:+ (")" +:+ LF));
     ok := ok st; failed := S (failed st); outside := w |}.

(** One turn of the [for] loop: the [try] block and its [catch]. *)
Definition convert_one (st : @progress world) (doi : string)
    : @progress world :=
  match fetchBibtexFromCrossref doi (outside st) with
  | (inr rawBib, w) =>
      match parseEntry rawBib with
      | None => failure st doi "Received unparseable BibTeX." w
      | Some parsed =>
          {| combined :=
               combined st +:+ (formatEntry (record_doi doi parsed) +:+ LF);
             ok := S (ok st); failed := failed st; outside := w |}
      end
  | (inl message, w) => failure st doi message w
  end.

Definition convertDoi (doiIn : string) (w : world) : @outcome world :=
  let dois := identifiers doiIn in
  match dois with
  | [] => {| doiOut := ""; status := "Paste at least one DOI.";
             world_after := w |}
  | _ =>
      let st :=
        List.fold_left convert_one dois
          {| combined := ""; ok := 0; failed := 0; outside := w |} in
      {| doiOut := Str.trim (combined st) +:+ LF;
         status := "Converted " +:+ pretty (ok st) +:+ " DOI(s). Failed: "
                    +:+ pretty (failed st) +:+ ".";
         world_after := outside st |}
  end.

End Batch.
End MvpDoi.

(** ** White space, told without regular expressions *)

(** [squeeze p t s]: the text [s] with every maximal run of characters of
    the class [p] replaced by [t]; [inrun] tells that the previous
    character belonged to a run. *)
Fixpoint squeeze_go (p : ascii -> bool) (t : string) (inrun : bool)
    (s : string) : string :=
  match s with
  | "" => ""
  | String a s' =>
      if p a then (if inrun then "" else t) +:+ squeeze_go p t true s'
      else String a (squeeze_go p t false s')
  end.

Definition squeeze (p : ascii -> bool) (t : string) (s : string) : string :=
  squeeze_go p t false s.

(** A text is tidy when its only white space is single spaces: no other
    white space character, and no two spaces in a row. *)
Fixpoint tidy_go (inrun : bool) (s : string) : bool :=
  match s with
  | "" => true
  | String a s' =>
      if Char.is_space a
      then negb inrun && Ascii.eqb a " " && tidy_go true s'
      else tidy_go false s'
  end.

Definition tidy (s : string) : bool := tidy_go false s.

(** ** The DOI shape, in the words of the specification *)

(** A suffix character, without regard to case. *)
Definition is_doi_suffix (c : ascii) : bool :=
  doi_suffix_char c || Char.is_lower c.

(** [10.<4-9 digits>/<suffix-characters>] *)
Definition doi_shape (w : string) : Prop :=
  ∃ digits suffix : string,
    w = "10." +:+ digits +:+ "/" +:+ suffix
    ∧ Str.all Char.is_digit digits = true
    ∧ (4 ≤ String.length digits ≤ 9)%nat
    ∧ Str.all is_doi_suffix suffix = true
    ∧ suffix ≠ "".

(** [w] is the first part of [t] of a given shape: it occurs in [t], no
    part of that shape starts further left, and none that starts at the
    same place is longer. *)
Definition first_match (shape : string -> Prop) (t w : string) : Prop :=
  ∃ pre post : string,
    t = pre +:+ w +:+ post
    ∧ shape w
    ∧ ∀ pre' w' post' : string,
        t = pre' +:+ w' +:+ post' → shape w' →
        (String.length pre < String.length pre')%nat
        ∨ (String.length pre = String.length pre'
           ∧ String.length w' ≤ String.length w)%nat.

Definition no_match (shape : string -> Prop) (t : string) : Prop :=
  ∀ pre w post : string, t = pre +:+ w +:+ post → ¬ shape w.

(** ** Plain entries *)

(** The entries that the formatter writes in a way the parser reads back:
    their type, key, field names and normalised values are plain. *)

Definition is_space_opt (o : option ascii) : bool :=
  match o with Some c => Char.is_space c | None => false end.

(** No white space at either end. *)
Definition tight (s : string) : bool :=
  negb (is_space_opt (Str.head s)) && negb (is_space_opt (Str.last s)).

(** Braces are balanced and nested at most one deep; [inside] tells that a
    brace is open. *)
Fixpoint depth1_go (inside : bool) (v : string) : bool :=
  match v with
  | "" => negb inside
  | String a v' =>
      if Char.just "{" a then negb inside && depth1_go true v'
      else if Char.just "}" a then inside && depth1_go false v'
      else depth1_go inside v'
  end.

Definition depth1 (v : string) : bool := depth1_go false v.

Definition quoted (v : string) : bool :=
  Str.startsWith (String Char.dquote "") v
  && Str.endsWith (String Char.dquote "") v.

Definition not_upper (c : ascii) : bool := negb (Char.is_upper c).

Definition plain_type (t : string) : bool :=
  Str.truthy t && Str.all Char.is_word t && Str.all not_upper t.

Definition plain_key (k : string) : bool :=
  Str.truthy k && tight k && Str.all (Char.except ",") k.

Definition plain_name (f : string) : bool :=
  Str.truthy f && Str.all Char.is_word f && Str.all not_upper f
  && negb (bool_decide (f = "__proto__")).

Definition plain_value (v : string) : bool :=
  tight v && depth1 v && negb (quoted v).

Definition plain_entry (opts : options) (e : entry) : bool :=
  plain_type (type e) && plain_key (key e)
  && List.forallb
       (fun f => plain_name f
                 && plain_value (field f (normalize opts (fields e))))
       (emitted (normalize opts (fields e))).

(** [layout ty k fs names]: the text of an entry of type [ty] and key
    [k] with one line for each name of [names], in their order, the
    values read from [fs]. *)
Definition layout (ty k : string) (fs : gmap string string)
    (names : list string) : string :=
  "@" +:+ ty +:+ "{" +:+ k +:+ ("," +:+ LF)
  +:+ Str.join ("," +:+ LF)
        (List.map (fun f => "  " +:+ f +:+ " = {" +:+ field f fs +:+ "}")
           names)
  +:+ (LF +:+ "}" +:+ LF).

(** An entry of 7-bit text: its type, its key, and the name and the value
    of each of its fields. *)
Definition ascii_entry (e : entry) : bool :=
  Str.is_ascii (type e) && Str.is_ascii (key e)
  && List.forallb (fun fv => Str.is_ascii fv.1 && Str.is_ascii fv.2)
       (map_to_list (fields e)).

(** ** Characters replaced, entry starts, headers *)

(** [replace_chars p t s]: the text [s] with every character of the
    class [p] replaced by [t]. *)
Fixpoint replace_chars (p : ascii -> bool) (t : string) (s : string)
    : string :=
  match s with
  | "" => ""
  | String a s' =>
      if p a then t +:+ replace_chars p t s'
      else String a (replace_chars p t s')
  end.

(** An entry starts here: an at sign, then a word character. *)
Definition at_entry (s : string) : bool :=
  match s with
  | String a (String b _) => Char.just "@" a && Char.is_word b
  | _ => false
  end.

(** An entry starts somewhere in the text. *)
Fixpoint has_entry (s : string) : bool :=
  at_entry s ||
  match s with
  | String _ s' => has_entry s'
  | "" => false
  end.

(** No entry starts after the first character of the text. *)
Definition one_entry (s : string) : bool :=
  match s with
  | String _ s' => negb (has_entry s')
  | "" => true
  end.

(** [header text ty k]: the text begins with an at sign, the word [ty],
    white space if any, an opening brace, and the text [k], which is not
    empty, up to the first comma. *)
Definition header (text ty k : string) : Prop :=
  ∃ sp tail : string,
    text = "@" +:+ ty +:+ sp +:+ "{" +:+ k +:+ "," +:+ tail
    ∧ ty ≠ "" ∧ Str.all Char.is_word ty = true
    ∧ Str.all Char.is_space sp = true
    ∧ k ≠ "" ∧ Str.all (Char.except ",") k = true.

(** A character of a simple name: of the 7-bit range, not white space,
    not a period, not a comma, not an opening brace. *)
Definition name_char (c : ascii) : bool :=
  Char.is_ascii c
  && negb (Char.is_space c || Char.just "." c || Char.just "," c
           || Char.just "{" c).

(** A simple name: one or more such characters. *)
Definition simple (w : string) : bool :=
  Str.truthy w && Str.all name_char w.

(** ** Sample data *)

Module Sample.

(** A metadata record with a year and a title only. *)
Definition bare : Crossref.message :=
  Crossref.Message (Some 1905) (Some ["On the electrodynamics"])
    None None None None None None None.

(** A remote collaborator that knows one identifier. *)
Definition remote (doi : string) (w : unit)
    : (string + Crossref.message) * unit :=
  if bool_decide (doi = "10.1/a") then (inr bare, w)
  else (inl "Crossref error 404", w).

(** An entry as a BibTeX file may hold it. *)
Definition paper : entry :=
  {| type := "article";
     key := "k1";
     fields :=
       <["author" := "Albert Einstein and Bohr, Niels"]>
         (<["title" := "Growth of Bi2Te3 films"]>
            (<["year" := "1905"]>
               (<["note" := "a, b"]>
                  (<["url" := "https://doi.org/10.1038/s41586-020-1234-5"]>
                     ∅)))) |}.

End Sample.

(** * Properties *)

(** ** Field access *)

Lemma field_insert (f g v : string) (fs : gmap string string) :
  field f (<[g := v]> fs) = if decide (g = f) then v else field f fs.
Proof.
  unfold field. rewrite lookup_insert. by destruct (decide (g = f)).
Qed.

Lemma field_insert_ne (f g v : string) (fs : gmap string string) :
  g ≠ f → field f (<[g := v]> fs) = field f fs.
Proof. intros. rewrite field_insert. by destruct (decide (g = f)). Qed.

Lemma field_lookup (f v : string) (fs : gmap string string) :
  fs !! f = Some v → field f fs = v.
Proof. unfold field. by intros ->. Qed.

Lemma truthy_true (s : string) : Str.truthy s = true ↔ s ≠ "".
Proof. destruct s; simpl; split; congruence. Qed.

Lemma truthy_false (s : string) : Str.truthy s = false ↔ s = "".
Proof. destruct s; simpl; split; congruence. Qed.

(** ** The normalisation steps, field by field *)

Section Steps.
Context (opts : options).

Lemma normalize_author_other (f : string) (fs : gmap string string) :
  f ≠ "author" → field f (normalize_author opts fs) = field f fs.
Proof.
  intros. unfold normalize_author.
  destruct (Str.truthy _); [|done]. by rewrite field_insert_ne.
Qed.

Lemma normalize_title_other (f : string) (fs : gmap string string) :
  f ≠ "title" → field f (normalize_title fs) = field f fs.
Proof.
  intros. unfold normalize_title.
  destruct (Str.truthy _); [|done]. by rewrite field_insert_ne.
Qed.

Lemma extract_doi_other (f : string) (fs : gmap string string) :
  f ≠ "doi" → field f (extract_doi opts fs) = field f fs.
Proof.
  intros. unfold extract_doi.
  destruct (_ && _); [|done].
  destruct (Str.truthy _); [|done]. by rewrite field_insert_ne.
Qed.

Lemma extract_doi_present (fs : gmap string string) :
  Str.truthy (field "doi" fs) = true → extract_doi opts fs = fs.
Proof.
  intros H. unfold extract_doi. rewrite H.
  by rewrite andb_false_r.
Qed.

Lemma enforce_url_other (f : string) (fs : gmap string string) :
  f ≠ "doi" → f ≠ "url" → field f (enforce_url opts fs) = field f fs.
Proof.
  intros. unfold enforce_url.
  destruct (_ && _); [|done]. by rewrite !field_insert_ne.
Qed.

(** The text on which the enforcement step decides: the [doi] field as
    the first three steps leave it. *)
Lemma doi_before_enforcement (fs : gmap string string) :
  Str.truthy (field "doi" fs) = true →
  field "doi" (extract_doi opts (normalize_title (normalize_author opts fs)))
  = field "doi" fs.
Proof.
  intros H. rewrite extract_doi_present.
  - by rewrite normalize_title_other, normalize_author_other.
  - by rewrite normalize_title_other, normalize_author_other.
Qed.

End Steps.

(** ** C3: the two forms of one name *)

(** C3. Normalising the author name "Einstein, Albert" (comma form) and
    normalising "Albert Einstein" (space form) both give exactly
    "A Einstein", whatever the state of the check boxes; this holds of the
    strict normaliser and of the first version alike. *)
Theorem C3_einstein_both_forms (opts : options) :
  normalizeAuthorsStrict opts "Einstein, Albert" = "A Einstein"
  ∧ normalizeAuthorsStrict opts "Albert Einstein" = "A Einstein"
  ∧ Mvp.normalizeAuthors opts "Einstein, Albert" = "A Einstein"
  ∧ Mvp.normalizeAuthors opts "Albert Einstein" = "A Einstein".
Proof.
  destruct opts as [[] ? ?]; repeat split; vm_compute; reflexivity.
Qed.

(** ** C5: materials markup and its guard *)

(** C5. The title formatter maps "Bi2Te3 nanosheets" to
    "{Bi$_2$Te$_3$} nanosheets", maps that result to itself, and returns
    unmodified every title that contains the subscript marker or the
    math-mode marker anywhere. *)
Theorem C5_title_markup :
  latexifyMaterialsInTitle "Bi2Te3 nanosheets" = "{Bi$_2$Te$_3$} nanosheets"
  ∧ latexifyMaterialsInTitle "{Bi$_2$Te$_3$} nanosheets"
    = "{Bi$_2$Te$_3$} nanosheets"
  ∧ ∀ title : string,
      Str.includes "$_" title = true ∨ Str.includes "\mathrm" title = true →
      latexifyMaterialsInTitle title = title.
Proof.
  split; [by vm_compute|]. split; [by vm_compute|].
  intros title H. unfold latexifyMaterialsInTitle.
  destruct (Str.truthy title); [|done]. simpl.
  destruct H as [-> | ->]; [done|]. by rewrite orb_true_r.
Qed.

Lemma C5_title_markup_witness :
  Str.includes "\mathrm" "\mathrm{Bi2Te3} films" = true
  ∧ latexifyMaterialsInTitle "\mathrm{Bi2Te3} films" = "\mathrm{Bi2Te3} films".
Proof.
  split; [reflexivity|].
  apply (proj2 (proj2 C5_title_markup)). right. reflexivity.
Defined.

(** ** C7: URL enforcement *)

(** C7. When URL enforcement is enabled and the entry has a non-empty doi
    field, formatting overwrites the url field with the resolver base
    address prefixed to the DOI (the doi field, which the same step
    stores trimmed), whatever the url field held before; the line for it
    is part of the output; and the DOI "10.1/x" gives the URL
    "https://doi.org/10.1/x". *)
Theorem C7_url_enforced (opts : options) (fs : gmap string string) :
  enforceDoiUrl opts = true →
  Str.truthy (field "doi" fs) = true →
  let fs' := normalize opts fs in
  fs' !! "doi" = Some (Str.trim (field "doi" fs))
  ∧ fs' !! "url" = Some ("https://doi.org/" +:+ field "doi" fs')
  ∧ (∀ u : string, normalize opts (<["url" := u]> fs) !! "url" = fs' !! "url")
  ∧ "  url = {https://doi.org/" +:+ field "doi" fs' +:+ "}" ∈ lines fs'
  ∧ (fs !! "doi" = Some "10.1/x" → fs' !! "url" = Some "https://doi.org/10.1/x").
Proof.
  intros Henf Hdoi fs'.
  assert (Hstep : ∀ gs : gmap string string,
    Str.truthy (field "doi" gs) = true →
    normalize opts gs !! "doi" = Some (Str.trim (field "doi" gs))
    ∧ normalize opts gs !! "url"
      = Some ("https://doi.org/" +:+ Str.trim (field "doi" gs))).
  { intros gs Hgs. unfold normalize, enforce_url.
    rewrite Henf, (doi_before_enforcement opts gs Hgs), Hgs. simpl.
    rewrite lookup_insert_ne by done.
    by rewrite !lookup_insert_eq. }
  subst fs'. destruct (Hstep fs Hdoi) as [Hd Hu].
  assert (Hfd : field "doi" (normalize opts fs) = Str.trim (field "doi" fs))
    by (by apply field_lookup).
  split; [done|]. split; [by rewrite Hfd|]. split; [|split].
  - intros u. rewrite Hu.
    destruct (Hstep (<["url" := u]> fs)) as [_ ->];
      by rewrite ?field_insert_ne.
  - unfold lines. apply elem_of_app. left.
    apply list_elem_of_In, in_map_iff. exists "url". split.
    + unfold line. by rewrite (field_lookup _ _ _ Hu), Hfd.
    + apply filter_In. split; [unfold preferred; simpl; tauto|].
      by rewrite (field_lookup _ _ _ Hu).
  - intros H. rewrite Hu, (field_lookup _ _ _ H). by vm_compute.
Qed.

Lemma C7_url_enforced_witness :
  let fs : gmap string string :=
    <["doi" := "10.1/x"]> (<["url" := "http://example.org/old"]> ∅) in
  normalize (Options false false true) fs !! "url"
  = Some "https://doi.org/10.1/x".
Proof.
  intros fs.
  apply (C7_url_enforced (Options false false true) fs); reflexivity.
Defined.

(** ** C8: the citation key of a parsed entry *)

(** C8 (the code falls short of it). A header whose key text is white
    space only is accepted, and the key of the parsed entry is then the
    empty string. *)
Theorem C8_blank_key_accepted :
  ∃ e : entry, parseEntry "@a{ ,x={1}}" = Some e ∧ key e = "".
Proof. eexists. split; [vm_compute; reflexivity|done]. Qed.

(** ** Strings *)

Lemma append_nil_r (s : string) : s +:+ "" = s.
Proof. induction s; simpl; congruence. Qed.

Lemma append_assoc (s t u : string) : (s +:+ t) +:+ u = s +:+ (t +:+ u).
Proof. induction s; simpl; congruence. Qed.

Lemma length_append (s t : string) :
  String.length (s +:+ t) = String.length s + String.length t.
Proof. induction s; simpl; congruence. Qed.

(** ** C2 and C10: which lines are written, and in which order *)

Section Layout.
Context (opts : options).

Lemma lines_emitted (fs : gmap string string) :
  lines fs = List.map (line fs) (emitted fs).
Proof. unfold lines, emitted. by rewrite List.map_app. Qed.

Lemma elem_of_keys (fs : gmap string string) (f : string) :
  f ∈ keys fs ↔ is_Some (fs !! f).
Proof.
  unfold keys. rewrite list_elem_of_fmap. split.
  - intros [[g v] [-> H]]. apply elem_of_map_to_list in H. by exists v.
  - intros [v H]. exists (f, v). split; [done|].
    by apply elem_of_map_to_list.
Qed.

(** The second loop runs over the field names outside the preferred
    list, each once, in ascending order of code units. *)
Lemma extra_spec (fs : gmap string string) :
  Sorted String.le (extra fs) ∧ NoDup (extra fs)
  ∧ ∀ f : string, f ∈ extra fs ↔ is_Some (fs !! f) ∧ f ∉ preferred.
Proof.
  unfold extra. split; [apply (Sorted_merge_sort String.le)|].
  split.
  - rewrite merge_sort_Permutation.
    apply NoDup_ListNoDup, List.NoDup_filter, NoDup_ListNoDup.
    apply NoDup_fst_map_to_list.
  - intros f. rewrite merge_sort_Permutation, list_elem_of_In.
    rewrite List.filter_In, <- list_elem_of_In, elem_of_keys.
    rewrite negb_true_iff, bool_decide_eq_false. done.
Qed.

(** The names of the lines that are written: each once; a preferred
    field when its value is not empty, any other field when it is
    present. *)
Lemma emitted_spec (fs : gmap string string) :
  NoDup (emitted fs)
  ∧ ∀ f : string,
      f ∈ emitted fs
      ↔ (f ∈ preferred ∧ field f fs ≠ "")
        ∨ (is_Some (fs !! f) ∧ f ∉ preferred).
Proof.
  destruct (extra_spec fs) as (_ & Hnd & Hin).
  assert (Hfilter : ∀ f : string,
            f ∈ List.filter (fun f => Str.truthy (field f fs)) preferred
            ↔ f ∈ preferred ∧ field f fs ≠ "").
  { intros f. rewrite list_elem_of_In, List.filter_In, <- list_elem_of_In.
    by rewrite truthy_true. }
  split.
  - unfold emitted. apply NoDup_app. split; [|split; [|done]].
    + apply NoDup_ListNoDup, List.NoDup_filter, NoDup_ListNoDup.
      apply (bool_decide_unpack _). by vm_compute.
    + intros f [Hp _]%Hfilter [_ Hnp]%Hin. done.
  - intros f. unfold emitted. rewrite elem_of_app, Hfilter, Hin. tauto.
Qed.

Lemma serialize_layout (ty k : string) (fs : gmap string string) :
  serialize ty k fs = layout ty k fs (emitted fs).
Proof. unfold serialize, layout. by rewrite lines_emitted. Qed.

Lemma formatEntry_emitted (e : entry) :
  formatEntry opts e
  = serialize (type e) (key e) (normalize opts (fields e)).
Proof. done. Qed.

End Layout.

(** C2, as the program has it. Serialisation writes the header line
    [@<type>{<key>,], then one line [  <field> = {<value>}] for each
    preferred field whose value is not empty, in the preferred order, then
    one line for every field outside the preferred list, empty or not, in
    ascending order of field name and each once, the lines separated by a
    comma and a line break, then the closing brace line. *)
Theorem C2_serialization_layout (opts : options) (e : entry) :
  ∃ ext : list string,
    Sorted String.le ext ∧ NoDup ext
    ∧ (∀ f : string,
         f ∈ ext ↔ is_Some (normalize opts (fields e) !! f) ∧ f ∉ preferred)
    ∧ formatEntry opts e
      = "@" +:+ type e +:+ "{" +:+ key e +:+ ("," +:+ LF) +:+ Str.join ("," +:+ LF) (List.map
     (fun f => "  " +:+ f +:+ " = {"
                 +:+ field f (normalize opts (fields e)) +:+ "}")
     (List.filter
        (fun f => Str.truthy (field f (normalize opts (fields e))))
        ["author"; "title"; "journal"; "booktitle"; "year"; "volume";
         "number"; "pages"; "doi"; "url"]
      ++ ext)) +:+ (LF +:+ "}" +:+ LF).
Proof.
  exists (extra (normalize opts (fields e))).
  destruct (extra_spec (normalize opts (fields e))) as (Hs & Hn & Hm).
  split; [done|]. split; [done|]. split; [done|].
  unfold formatEntry, serialize. rewrite lines_emitted. done.
Qed.

(** C2 fails as stated: a preferred field that is present with an empty
    value gets no line. *)
Lemma C2_empty_preferred_field_skipped :
  ∃ e : entry,
    parseEntry "@a{k, year = {}}" = Some e
    ∧ fields e !! "year" = Some ""
    ∧ lines (normalize (Options false false false) (fields e)) = []
    ∧ formatEntry (Options false false false) e = ("@a{k," +:+ LF +:+ LF +:+ "}" +:+ LF).
Proof. eexists. split; [vm_compute; reflexivity|]. vm_compute. done. Qed.

(** *** What normalisation leaves empty *)

Section KeepsEmpty.
Context (opts : options).

Lemma normalize_author_keeps_empty (f : string) (fs : gmap string string) :
  field f fs = "" → field f (normalize_author opts fs) = "".
Proof.
  intros H. destruct (decide (f = "author")) as [-> | Hne].
  - unfold normalize_author. by rewrite H.
  - by rewrite normalize_author_other.
Qed.

Lemma normalize_title_keeps_empty (f : string) (fs : gmap string string) :
  field f fs = "" → field f (normalize_title fs) = "".
Proof.
  intros H. destruct (decide (f = "title")) as [-> | Hne].
  - unfold normalize_title. by rewrite H.
  - by rewrite normalize_title_other.
Qed.

Lemma extract_doi_off (fs : gmap string string) :
  tryExtractDoi opts = false ∨ field "url" fs = "" →
  extract_doi opts fs = fs.
Proof.
  unfold extract_doi. intros [-> | ->]; [done|].
  by rewrite andb_false_r.
Qed.

Lemma enforce_url_off (fs : gmap string string) :
  field "doi" fs = "" → enforce_url opts fs = fs.
Proof. unfold enforce_url. intros ->. by rewrite andb_false_r. Qed.

(** A field that is empty before the four steps is empty after them,
    unless it is the doi field and extraction is enabled, or the url
    field of an entry that has a DOI. *)
Lemma normalize_keeps_empty (f : string) (fs : gmap string string) :
  field f fs = "" →
  (f = "doi" → tryExtractDoi opts = false) →
  (f = "url" → field "doi" fs = "") →
  field f (normalize opts fs) = "".
Proof.
  intros H Hdoi Hurl. unfold normalize.
  set (t := normalize_title (normalize_author opts fs)).
  assert (Ht : ∀ g : string, field g fs = "" → field g t = "").
  { intros g Hg. subst t.
    by apply normalize_title_keeps_empty, normalize_author_keeps_empty. }
  destruct (decide (f = "doi")) as [-> | Hnd].
  - rewrite extract_doi_off by (left; auto).
    rewrite enforce_url_off; auto.
  - destruct (decide (f = "url")) as [-> | Hnu].
    + rewrite extract_doi_off by (right; auto).
      rewrite enforce_url_off; auto.
    + rewrite enforce_url_other, extract_doi_other by done. auto.
Qed.

(** The four steps write to four fields only. *)
Lemma normalize_lookup_other (f : string) (fs : gmap string string) :
  f ∉ ["author"; "title"; "doi"; "url"] →
  normalize opts fs !! f = fs !! f.
Proof.
  intros Hf.
  assert (f ≠ "author" ∧ f ≠ "title" ∧ f ≠ "doi" ∧ f ≠ "url")
    as (? & ? & ? & ?).
  { repeat split; intros ->; apply Hf, list_elem_of_In; simpl; tauto. }
  unfold normalize, enforce_url, extract_doi, normalize_title,
    normalize_author.
  repeat match goal with
         | |- context [if ?b then _ else _] => destruct b
         end;
    by rewrite ?lookup_insert_ne.
Qed.

End KeepsEmpty.

(** *** The fields of an adapted record *)

Lemma adapter_fields_preferred (msg : Crossref.message) (f : string) :
  is_Some (fields (crossrefToBibEntry msg) !! f) → f ∈ preferred.
Proof.
  unfold crossrefToBibEntry, preferred. simpl.
  rewrite !lookup_insert_is_Some, lookup_empty.
  intros H. apply list_elem_of_In. simpl.
  destruct H as [<- | [_ H]]; [tauto|].
  destruct H as [<- | [_ H]]; [tauto|].
  destruct H as [<- | [_ H]]; [tauto|].
  destruct H as [<- | [_ H]]; [tauto|].
  destruct H as [<- | [_ H]]; [tauto|].
  destruct H as [<- | [_ H]]; [tauto|].
  destruct H as [<- | [_ H]]; [tauto|].
  destruct H as [<- | [_ H]]; [tauto|].
  destruct H as [<- | [_ H]]; [tauto|].
  by destruct H.
Qed.

Lemma adapter_url_empty (msg : Crossref.message) :
  field "url" (fields (crossrefToBibEntry msg)) = "" →
  field "doi" (fields (crossrefToBibEntry msg)) = "".
Proof.
  unfold crossrefToBibEntry. simpl.
  rewrite !field_insert. simpl.
  destruct (or_empty (Crossref.DOI msg)); simpl; [done|discriminate].
Qed.

(** Every field of an adapted record that has a value after the
    normalisation steps is a preferred field. *)
Lemma adapter_normalized_preferred (opts : options) (msg : Crossref.message)
    (f : string) :
  is_Some (normalize opts (fields (crossrefToBibEntry msg)) !! f) →
  f ∈ preferred.
Proof.
  intros Hsome.
  destruct (decide (f ∈ ["author"; "title"; "doi"; "url"])) as [Hf | Hf].
  - apply list_elem_of_In in Hf. apply list_elem_of_In.
    simpl in *. tauto.
  - rewrite normalize_lookup_other in Hsome by done.
    by apply (adapter_fields_preferred msg).
Qed.

(** C10, as the program has it.  The text [formatEntry] writes has one
    line for each name of a list that holds no name twice, and a name is
    in that list exactly when it is a preferred field whose value after
    the normalisation steps is not empty, or a field outside the
    preferred list that is present, empty or not: so there is no line
    for a preferred field whose value is empty.  This holds of both
    versions of [formatEntry].  For an entry made by the metadata
    adapter the names of the lines are the fields whose value is not
    empty, and a field the adapter left empty has no line, the doi field
    apart when extraction from the URL is enabled. *)
Theorem C10_empty_fields_absent (opts : options) :
  (∀ e : entry, ∃ names : list string,
     formatEntry opts e
     = layout (type e) (key e) (normalize opts (fields e)) names
     ∧ NoDup names
     ∧ ∀ f : string,
         f ∈ names
         ↔ (f ∈ preferred ∧ field f (normalize opts (fields e)) ≠ "")
           ∨ (is_Some (normalize opts (fields e) !! f) ∧ f ∉ preferred))
  ∧ (∀ e : entry, ∃ names : list string,
       MvpDoi.formatEntry opts e
       = layout (type e) (key e) (MvpDoi.normalize opts (fields e)) names
       ∧ NoDup names
       ∧ ∀ f : string,
           f ∈ names
           ↔ (f ∈ preferred
              ∧ field f (MvpDoi.normalize opts (fields e)) ≠ "")
             ∨ (is_Some (MvpDoi.normalize opts (fields e) !! f)
                ∧ f ∉ preferred))
  ∧ (∀ msg : Crossref.message, ∃ names : list string,
       formatEntry opts (crossrefToBibEntry msg)
       = layout (type (crossrefToBibEntry msg)) (key (crossrefToBibEntry msg))
           (normalize opts (fields (crossrefToBibEntry msg))) names
       ∧ NoDup names
       ∧ (∀ f : string,
            f ∈ names
            ↔ field f (normalize opts (fields (crossrefToBibEntry msg)))
              ≠ "")
       ∧ (∀ f : string,
            field f (fields (crossrefToBibEntry msg)) = "" →
            (f = "doi" → tryExtractDoi opts = false) →
            f ∉ names)).
Proof.
  split; [|split].
  - intros e. exists (emitted (normalize opts (fields e))).
    destruct (emitted_spec (normalize opts (fields e))) as [Hnd Hin].
    split; [apply serialize_layout|done].
  - intros e. exists (emitted (MvpDoi.normalize opts (fields e))).
    destruct (emitted_spec (MvpDoi.normalize opts (fields e))) as [Hnd Hin].
    split; [apply serialize_layout|done].
  - intros msg.
    set (N := normalize opts (fields (crossrefToBibEntry msg))).
    exists (emitted N). destruct (emitted_spec N) as [Hnd Hin].
    assert (Hnames : ∀ f : string, f ∈ emitted N ↔ field f N ≠ "").
    { intros f. rewrite Hin. split.
      - intros [[_ H] | [Hsome Hnp]]; [done|].
        exfalso. by apply Hnp, (adapter_normalized_preferred opts msg).
      - intros Hne. left. split; [|done].
        apply (adapter_normalized_preferred opts msg). fold N.
        unfold field in Hne. by destruct (N !! f). }
    split; [apply serialize_layout|]. split; [done|]. split; [done|].
    intros f Hempty Hdoi Hf. apply Hnames in Hf. apply Hf.
    apply normalize_keeps_empty; [done..|].
    intros ->. by apply adapter_url_empty.
Qed.

Lemma C10_empty_fields_absent_witness :
  ∃ names : list string,
    formatEntry (Options true true true) (crossrefToBibEntry Sample.bare)
    = layout "article" "ref1905On"
        (normalize (Options true true true)
           (fields (crossrefToBibEntry Sample.bare))) names
    ∧ "volume" ∉ names.
Proof.
  destruct (proj2 (proj2 (C10_empty_fields_absent (Options true true true)))
              Sample.bare) as (names & Ht & _ & _ & Hno).
  exists names. split; [exact Ht|].
  apply Hno; [reflexivity|discriminate].
Defined.

(** C10 fails as stated: a field outside the preferred list is written
    even when its value is the empty string. *)
Lemma C10_empty_extra_field_written :
  ∃ e : entry,
    parseEntry "@a{k, note = {}}" = Some e
    ∧ fields e !! "note" = Some ""
    ∧ lines (normalize (Options false false false) (fields e))
      = ["  note = {}"]
    ∧ formatEntry (Options false false false) e = ("@a{k," +:+ LF +:+ "  note = {}" +:+ LF +:+ "}" +:+ LF).
Proof. eexists. split; [vm_compute; reflexivity|]. vm_compute. done. Qed.

(** ** C9: one failed lookup does not stop the batch *)

Section BatchProps.
Context {world : Type}.
Context (fetchCrossrefJson :
           string -> world -> (string + Crossref.message) * world).
Context (opts : options).

Lemma count_split {A : Type} (p : A → bool) (l : list A) :
  length (List.filter p l) + length (List.filter (fun a => negb (p a)) l)
  = length l.
Proof.
  induction l as [|a l IH]; simpl; [done|].
  destruct (p a); simpl; lia.
Qed.

Lemma lookups_identifiers (dois : list string) (w : world) :
  List.map fst (fst (lookups fetchCrossrefJson dois w)) = dois.
Proof.
  revert w. induction dois as [|doi dois IH]; intros w; simpl; [done|].
  destruct (fetchCrossrefJson doi w) as [r w1].
  specialize (IH w1). destruct (lookups fetchCrossrefJson dois w1) as [rs w2].
  simpl in *. by rewrite IH.
Qed.

(** The loop invariant: after the identifiers seen so far, the text is
    the blocks of their lookups in order and the counters are the
    numbers of successes and of failures. *)
Lemma loop_invariant (dois : list string) (st : progress) :
  List.fold_left (convert_one fetchCrossrefJson opts) dois st
  = {| combined :=
         combined st +:+ blocks opts (fst (lookups fetchCrossrefJson dois (outside st)));
       ok := ok st
             + length (List.filter succeeded (fst (lookups fetchCrossrefJson dois (outside st))));
       failed := failed st
             + length (List.filter (fun dr => negb (succeeded dr))
                         (fst (lookups fetchCrossrefJson dois (outside st))));
       outside := snd (lookups fetchCrossrefJson dois (outside st)) |}.
Proof.
  revert st. induction dois as [|doi dois IH]; intros st; simpl.
  - destruct st; simpl. unfold blocks. simpl.
    by rewrite append_nil_r, !Nat.add_0_r.
  - rewrite IH. unfold convert_one.
    destruct (fetchCrossrefJson doi (outside st)) as [[message | msg] w1];
      simpl; destruct (lookups fetchCrossrefJson dois w1) as [rs w2]; simpl;
      unfold blocks, block, succeeded; simpl;
      rewrite append_assoc; f_equal; lia.
Qed.

(** C9. In batch conversion every identifier of the input is looked
    up, in input order, whatever the answers to the earlier ones; the
    output is the blocks of the lookups in that order (the formatted
    entry for a success, the failure comment line for a failure), white
    space trimmed at its ends and a line break added; the status line
    reports the number of successes and the number of failures, which
    add up to the number of identifiers.  In particular two identifiers
    of which the first succeeds and the second fails give the entry,
    then the failure comment, and the counts 1 and 1. *)
Theorem C9_batch_isolation (doiIn : string) (w : world) :
  List.map fst (fst (lookups fetchCrossrefJson (identifiers doiIn) w))
  = identifiers doiIn
  ∧ length (List.filter succeeded
              (fst (lookups fetchCrossrefJson (identifiers doiIn) w)))
    + length (List.filter (fun dr => negb (succeeded dr))
                (fst (lookups fetchCrossrefJson (identifiers doiIn) w)))
    = length (identifiers doiIn)
  ∧ convertDoi fetchCrossrefJson opts doiIn w
    = match identifiers doiIn with
      | [] => {| doiOut := ""; status := "Paste at least one DOI.";
                 world_after := w |}
      | _ =>
          {| doiOut :=
               Str.trim
                 (blocks opts
                    (fst (lookups fetchCrossrefJson (identifiers doiIn) w)))
               +:+ LF;
             status :=
               "Converted "
               +:+ pretty
                     (length
                        (List.filter succeeded
                           (fst (lookups fetchCrossrefJson
                                   (identifiers doiIn) w))))
               +:+ " DOI(s). Failed: "
               +:+ pretty
                     (length
                        (List.filter (fun dr => negb (succeeded dr))
                           (fst (lookups fetchCrossrefJson
                                   (identifiers doiIn) w))))
               +:+ ".";
             world_after :=
               snd (lookups fetchCrossrefJson (identifiers doiIn) w) |}
      end
  ∧ ∀ (d1 d2 message : string) (msg : Crossref.message) (w1 w2 : world),
      identifiers doiIn = [d1; d2] →
      fetchCrossrefJson d1 w = (inr msg, w1) →
      fetchCrossrefJson d2 w1 = (inl message, w2) →
      doiOut (convertDoi fetchCrossrefJson opts doiIn w)
      = Str.trim
          ((formatEntry opts (crossrefToBibEntry msg) +:+ LF) +:+ ("% Failed DOI: " +:+ d2 +:+ " (" +:+ message +:+ (")" +:+ LF))) +:+ LF
      ∧ status (convertDoi fetchCrossrefJson opts doiIn w)
        = "Converted 1 DOI(s). Failed: 1.".
Proof.
  assert (Hconv : convertDoi fetchCrossrefJson opts doiIn w
    = match identifiers doiIn with
      | [] => {| doiOut := ""; status := "Paste at least one DOI.";
                 world_after := w |}
      | _ =>
          {| doiOut :=
               Str.trim
                 (blocks opts
                    (fst (lookups fetchCrossrefJson (identifiers doiIn) w)))
               +:+ LF;
             status :=
               "Converted "
               +:+ pretty
                     (length
                        (List.filter succeeded
                           (fst (lookups fetchCrossrefJson
                                   (identifiers doiIn) w))))
               +:+ " DOI(s). Failed: "
               +:+ pretty
                     (length
                        (List.filter (fun dr => negb (succeeded dr))
                           (fst (lookups fetchCrossrefJson
                                   (identifiers doiIn) w))))
               +:+ ".";
             world_after :=
               snd (lookups fetchCrossrefJson (identifiers doiIn) w) |}
      end).
  { unfold convertDoi. destruct (identifiers doiIn) as [|d ds]; [done|].
    by rewrite loop_invariant. }
  split; [apply lookups_identifiers|]. split; [|split; [exact Hconv|]].
  - rewrite count_split, <- (List.length_map fst).
    by rewrite lookups_identifiers.
  - intros d1 d2 message msg w1 w2 Hids H1 H2.
    rewrite Hconv, Hids. simpl. rewrite H1, H2. simpl.
    unfold blocks, block. simpl. rewrite append_nil_r. done.
Qed.

End BatchProps.

Lemma C9_batch_isolation_witness :
  status (convertDoi Sample.remote (Options true true true) ("10.1/a" +:+ LF +:+ "10.1/b") ())
  = "Converted 1 DOI(s). Failed: 1.".
Proof.
  apply (proj2 (proj2 (proj2
           (C9_batch_isolation Sample.remote (Options true true true)
              ("10.1/a" +:+ LF +:+ "10.1/b") ())))
           "10.1/a" "10.1/b" "Crossref error 404" Sample.bare () ());
    reflexivity.
Defined.

(** ** More on strings *)

Lemma take_app_length (w r : string) :
  Str.take (String.length (w +:+ r) - String.length r) (w +:+ r) = w.
Proof.
  rewrite length_append.
  replace (String.length w + String.length r - String.length r)
    with (String.length w) by lia.
  induction w as [|a w IH]; simpl.
  - by destruct r.
  - by rewrite IH.
Qed.

Lemma take_length_minus (w r s : string) :
  s = w +:+ r → Str.take (String.length s - String.length r) s = w.
Proof. intros ->. apply take_app_length. Qed.

Lemma drop_app_length (w r : string) :
  Str.drop (String.length w) (w +:+ r) = r.
Proof. induction w as [|a w IH]; simpl; [by destruct r|done]. Qed.

Lemma rev_app_spec (s acc : string) :
  String.rev_app s acc = String.rev s +:+ acc.
Proof.
  unfold String.rev. revert acc.
  induction s as [|a s IH]; intros acc; simpl; [done|].
  rewrite IH, (IH (String a "")), append_assoc. done.
Qed.

Lemma rev_cons (a : ascii) (s : string) :
  String.rev (String a s) = String.rev s +:+ String a "".
Proof. unfold String.rev at 1. simpl. by rewrite rev_app_spec. Qed.

Lemma rev_append (s t : string) :
  String.rev (s +:+ t) = String.rev t +:+ String.rev s.
Proof.
  induction s as [|a s IH]; simpl.
  - by rewrite append_nil_r.
  - by rewrite !rev_cons, IH, append_assoc.
Qed.

Lemma rev_involutive (s : string) : String.rev (String.rev s) = s.
Proof.
  induction s as [|a s IH]; [done|].
  by rewrite rev_cons, rev_append, IH.
Qed.

Lemma prefix_one (a : ascii) (s : string) :
  String.prefix (String a "") s = true ↔ ∃ s', s = String a s'.
Proof.
  destruct s as [|b s]; simpl; [split; [done|by intros [? ?]]|].
  destruct (ascii_dec a b) as [-> | Hne]; split.
  - intros _. by exists s.
  - intros _. by destruct s.
  - done.
  - intros [s' [= -> ->]]. done.
Qed.

(** A text that begins with [a] and ends with [b]. *)
Lemma startsWith_one (a : ascii) (s : string) :
  Str.startsWith (String a "") s = true ↔ ∃ s', s = String a s'.
Proof. apply prefix_one. Qed.

Lemma endsWith_one (b : ascii) (s : string) :
  Str.endsWith (String b "") s = true ↔ ∃ s', s = s' +:+ String b "".
Proof.
  unfold Str.endsWith. change (String.rev (String b "")) with (String b "").
  rewrite prefix_one. split.
  - intros [s' H]. exists (String.rev s').
    by rewrite <- (rev_involutive s), H, rev_cons.
  - intros [s' ->]. exists (String.rev s'). by rewrite rev_append.
Qed.

Lemma trimStart_nonspace (a : ascii) (s : string) :
  Char.is_space a = false → Str.trimStart (String a s) = String a s.
Proof. intros H. unfold Str.trimStart. simpl. by rewrite H. Qed.

Lemma trimEnd_nonspace (b : ascii) (s : string) :
  Char.is_space b = false →
  Str.trimEnd (s +:+ String b "") = s +:+ String b "".
Proof.
  intros H. unfold Str.trimEnd. rewrite rev_append. simpl.
  rewrite H. by rewrite rev_cons, rev_involutive.
Qed.

(** [trim] leaves alone a text whose first and last characters are not
    white space. *)
Lemma trim_tight (s : string) (a b : ascii) :
  Char.is_space a = false → Char.is_space b = false →
  (∃ s', s = String a s') → (∃ s', s = s' +:+ String b "") →
  Str.trim s = s.
Proof.
  intros Ha Hb [s1 H1] [s2 H2]. unfold Str.trim.
  rewrite H1, trimStart_nonspace by done.
  rewrite <- H1, H2. by apply trimEnd_nonspace.
Qed.

(** ** The matcher on a repeated character class *)

Module RegexFacts.
Import Regex.

(** [last_or pv w]: the character before the position reached by reading
    [w] from a position whose previous character is [pv]. *)
Fixpoint last_or (pv : option ascii) (w : string) : option ascii :=
  match w with
  | "" => pv
  | String a w' => last_or (Some a) w'
  end.

(** The greedy repetition of a character class, by recursion on the
    text: the longest run first, then shorter ones, down to [lo]. *)
Fixpoint greedy (p : ascii -> bool) (c : mstate -> option mstate)
    (lo : nat) (hi : option nat) (pv : option ascii) (s : string)
    (cs : list (nat * string)) : option mstate :=
  if hi_is_zero hi then c (MState pv s cs) else
  match s with
  | String a s' =>
      if p a then
        match greedy p c (Nat.pred lo) (pred_hi hi) (Some a) s' cs with
        | Some z => Some z
        | None => if (lo =? 0)%nat then c (MState pv s cs) else None
        end
      else if (lo =? 0)%nat then c (MState pv s cs) else None
  | "" => if (lo =? 0)%nat then c (MState pv s cs) else None
  end.

Lemma same_pos_advance (a : ascii) (s : string) (x : mstate) :
  rest x = String a s → same_pos x (advance a s x) = false.
Proof.
  intros H. unfold same_pos. rewrite H. simpl.
  apply Nat.eqb_neq. lia.
Qed.

Lemma repeat_chr (p : ascii -> bool) (c : mstate -> option mstate)
    (s : string) :
  ∀ (fuel lo : nat) (hi : option nat) (pv : option ascii)
    (cs : list (nat * string)),
    (lo + S (String.length s) ≤ fuel)%nat →
    repeat (rmatch (Chr p)) c fuel lo hi (MState pv s cs)
    = greedy p c lo hi pv s cs.
Proof.
  induction s as [|a s IH]; intros fuel lo hi pv cs Hfuel;
    (destruct fuel as [|fuel]; [simpl in Hfuel; lia|]); simpl.
  - destruct (hi_is_zero hi); [done|]. by destruct (lo =? 0)%nat.
  - destruct (hi_is_zero hi); [done|].
    destruct (p a) eqn:Hp; [|by destruct (lo =? 0)%nat].
    unfold same_pos, advance. simpl.
    replace (String.length s =? S (String.length s))%nat with false
      by (symmetry; apply Nat.eqb_neq; lia).
    rewrite andb_false_r.
    rewrite IH by (simpl in Hfuel; lia).
    by destruct (lo =? 0)%nat, (greedy p c _ _ _ s cs).
Qed.

Lemma rmatch_rep_chr (p : ascii -> bool) (c : mstate -> option mstate)
    (lo : nat) (hi : option nat) (x : mstate) :
  rmatch (Rep lo hi (Chr p)) x c = greedy p c lo hi (prev x) (rest x) (caps x).
Proof.
  simpl. destruct x as [pv s cs]. by apply repeat_chr.
Qed.

(** The longest run is tried first: if the continuation accepts the
    position after a run [w] of the class that cannot be extended, that
    is the result. *)
Lemma greedy_longest (p : ascii -> bool) (c : mstate -> option mstate)
    (w r : string) (z : mstate) :
  ∀ (lo : nat) (pv : option ascii) (cs : list (nat * string)),
    Str.all p w = true →
    (∀ a r', r = String a r' → p a = false) →
    (lo ≤ String.length w)%nat →
    c (MState (last_or pv w) r cs) = Some z →
    greedy p c lo None pv (w +:+ r) cs = Some z.
Proof.
  induction w as [|a w IH]; intros lo pv cs Hall Hr Hlo Hc; simpl in *.
  - assert (lo = 0) as -> by lia.
    destruct r as [|b r']; simpl; [done|]. by rewrite (Hr b r' eq_refl).
  - apply andb_prop in Hall as [Ha Hw]. rewrite Ha.
    rewrite (IH (Nat.pred lo) (Some a) cs) by (done || lia). done.
Qed.

(** No run is accepted when the continuation rejects every position the
    repetition can stop at. *)
Lemma greedy_none (p : ascii -> bool) (c : mstate -> option mstate)
    (s : string) :
  ∀ (lo : nat) (hi : option nat) (pv : option ascii)
    (cs : list (nat * string)),
    (∀ w r, s = w +:+ r → Str.all p w = true →
            c (MState (last_or pv w) r cs) = None) →
    greedy p c lo hi pv s cs = None.
Proof.
  induction s as [|a s IH]; intros lo hi pv cs Hc;
    pose proof (Hc "" _ eq_refl eq_refl) as H0; simpl in H0; simpl;
    rewrite H0.
  - by destruct (hi_is_zero hi), (lo =? 0)%nat.
  - destruct (hi_is_zero hi); [done|].
    destruct (p a) eqn:Hp; [|by destruct (lo =? 0)%nat].
    rewrite IH; [by destruct (lo =? 0)%nat|].
    intros w r -> Hw. apply (Hc (String a w) r); [done|].
    simpl. by rewrite Hp.
Qed.

(** *** Leftmost match of a run of a class *)

(** When the continuation rejects every position followed by a
    character of the class, the repetition can only stop at the end of
    the run, and does so when the length of the run is within bounds. *)
Definition le_hi (n : nat) (hi : option nat) : bool :=
  match hi with
  | Some h => (n <=? h)%nat
  | None => true
  end.

Fixpoint takeWhile (p : ascii -> bool) (s : string) : string :=
  match s with
  | "" => ""
  | String a s' => if p a then String a (takeWhile p s') else ""
  end.

Definition non (p : ascii -> bool) (a : ascii) : bool := negb (p a).

Lemma takeWhile_dropWhile (p : ascii -> bool) (s : string) :
  takeWhile p s +:+ Str.dropWhile p s = s.
Proof.
  induction s as [|a s IH]; simpl; [done|].
  destruct (p a); simpl; [by rewrite IH|done].
Qed.

Lemma all_takeWhile (p : ascii -> bool) (s : string) :
  Str.all p (takeWhile p s) = true.
Proof.
  induction s as [|a s IH]; simpl; [done|].
  destruct (p a) eqn:Hp; simpl; [by rewrite Hp|done].
Qed.

Lemma dropWhile_head (p : ascii -> bool) (s : string) (a : ascii)
    (r : string) :
  Str.dropWhile p s = String a r → p a = false.
Proof.
  induction s as [|b s IH]; simpl; [done|].
  destruct (p b) eqn:Hp; [done|]. by intros [= <- _].
Qed.

Lemma length_dropWhile (p : ascii -> bool) (s : string) :
  (String.length (Str.dropWhile p s) ≤ String.length s)%nat.
Proof.
  induction s as [|b s IH]; simpl; [done|].
  destruct (p b); simpl; lia.
Qed.

Lemma non_cons_true (p : ascii -> bool) (a : ascii) (s : string) :
  p a = true → Str.dropWhile (non p) (String a s) = String a s.
Proof. intros H. simpl. unfold non. by rewrite H. Qed.

Lemma non_cons_true' (p : ascii -> bool) (a : ascii) (s : string) :
  p a = true → takeWhile (non p) (String a s) = "".
Proof. intros H. simpl. unfold non. by rewrite H. Qed.

Lemma non_cons_false (p : ascii -> bool) (a : ascii) (s : string) :
  p a = false →
  Str.dropWhile (non p) (String a s) = Str.dropWhile (non p) s.
Proof. intros H. simpl. unfold non at 1. by rewrite H. Qed.

Lemma non_cons_false' (p : ascii -> bool) (a : ascii) (s : string) :
  p a = false →
  takeWhile (non p) (String a s) = String a (takeWhile (non p) s).
Proof. intros H. simpl. unfold non at 1. by rewrite H. Qed.

Lemma match_here_plus (p : ascii -> bool) (pv : option ascii) (s : string) :
  match_here (Plus (Chr p)) pv s
  = match s with
    | String a _ =>
        if p a
        then Some {| before := ""; matched := takeWhile p s;
                     final := MState (last_or pv (takeWhile p s))
                                (Str.dropWhile p s) [] |}
        else None
    | "" => None
    end.
Proof.
  unfold match_here, Plus. rewrite rmatch_rep_chr. simpl.
  destruct s as [|a s]; [done|].
  destruct (p a) eqn:Hp; [|by simpl; rewrite Hp].
  pose proof (takeWhile_dropWhile p (String a s)) as Hs.
  pose proof (all_takeWhile p (String a s)) as Hall.
  pose proof (dropWhile_head p (String a s)) as Hhead.
  assert (Hlen : (1 ≤ String.length (takeWhile p (String a s)))%nat)
    by (simpl; rewrite Hp; simpl; lia).
  remember (takeWhile p (String a s)) as w eqn:Hw.
  remember (Str.dropWhile p (String a s)) as r eqn:Hr.
  rewrite <- Hs.
  rewrite (greedy_longest p Some w r (MState (last_or pv w) r []));
    [|done|by intros b r' ->; eapply Hhead|done|done].
  cbn [rest]. by rewrite take_app_length.
Qed.

Lemma search_plus (p : ascii -> bool) (s : string) :
  ∀ pv : option ascii,
    search (Plus (Chr p)) pv s
    = match Str.dropWhile (non p) s with
      | "" => None
      | String a s' =>
          Some {| before := takeWhile (non p) s;
                  matched := takeWhile p (String a s');
                  final :=
                    MState (last_or (last_or pv (takeWhile (non p) s))
                              (takeWhile p (String a s')))
                      (Str.dropWhile p (String a s')) [] |}
      end.
Proof.
  induction s as [|a s IH]; intros pv.
  - done.
  - unfold search; fold search. rewrite match_here_plus.
    destruct (p a) eqn:Hp.
    + by rewrite (non_cons_true p a s Hp), (non_cons_true' p a s Hp).
    + rewrite (non_cons_false p a s Hp), (non_cons_false' p a s Hp), IH.
      by destruct (Str.dropWhile (non p) s).
Qed.

Lemma greedy_exact (p : ascii -> bool) (c : mstate -> option mstate)
    (s : string) :
  (∀ pv' a r cs', p a = true → c (MState pv' (String a r) cs') = None) →
  ∀ (lo : nat) (hi : option nat) (pv : option ascii)
    (cs : list (nat * string)),
    le_hi lo hi = true →
    greedy p c lo hi pv s cs
    = if (lo <=? String.length (takeWhile p s))%nat
         && le_hi (String.length (takeWhile p s)) hi
      then c (MState (last_or pv (takeWhile p s)) (Str.dropWhile p s) cs)
      else None.
Proof.
  intros Hc. induction s as [|a s IH]; intros lo hi pv cs Hle.
  - simpl. destruct hi as [[|h]|]; simpl in *.
    + apply Nat.leb_le in Hle. by replace lo with 0 by lia.
    + by destruct lo.
    + by destruct lo.
  - simpl. destruct (p a) eqn:Hp.
    + destruct (hi_is_zero hi) eqn:Hz.
      * destruct hi as [[|h]|]; try done. simpl.
        rewrite andb_false_r. by apply Hc.
      * rewrite IH.
        2:{ destruct hi as [[|h]|]; try done; simpl in *.
            apply Nat.leb_le in Hle. apply Nat.leb_le. lia. }
        simpl String.length.
        replace (Nat.pred lo <=? String.length (takeWhile p s))%nat
          with (lo <=? S (String.length (takeWhile p s)))%nat.
        2:{ destruct lo; [done|]. simpl. done. }
        replace (le_hi (String.length (takeWhile p s)) (pred_hi hi))
          with (le_hi (S (String.length (takeWhile p s))) hi).
        2:{ destruct hi as [[|h]|]; try done. }
        destruct (_ && _).
        -- destruct (c _) eqn:Hcz; [done|].
           rewrite (Hc pv a s cs Hp). by destruct (lo =? 0)%nat.
        -- rewrite (Hc pv a s cs Hp). by destruct (lo =? 0)%nat.
    + simpl. destruct (hi_is_zero hi) eqn:Hz.
      * destruct hi as [[|h]|]; try done. simpl in *.
        apply Nat.leb_le in Hle. by replace lo with 0 by lia.
      * replace (le_hi 0 hi) with true by (by destruct hi).
        by destruct lo.
Qed.

Lemma takeWhile_app_stop (p : ascii -> bool) (w r : string) :
  Str.all p w = true → (∀ a r', r = String a r' → p a = false) →
  takeWhile p (w +:+ r) = w ∧ Str.dropWhile p (w +:+ r) = r.
Proof.
  intros Hall Hr. induction w as [|a w IH]; simpl in *.
  - destruct r as [|b r']; simpl; [done|]. by rewrite (Hr b r' eq_refl).
  - apply andb_prop in Hall as [-> Hw]. destruct (IH Hw) as [-> ->]. done.
Qed.

Lemma takeWhile_app_all (p : ascii -> bool) (w r : string) :
  Str.all p w = true → takeWhile p (w +:+ r) = w +:+ takeWhile p r.
Proof.
  intros Hall. induction w as [|a w IH]; simpl in *; [done|].
  apply andb_prop in Hall as [-> Hw]. by rewrite (IH Hw).
Qed.

Lemma all_ext (p q : ascii -> bool) (s : string) :
  (∀ a, p a = q a) → Str.all p s = Str.all q s.
Proof. intros H. induction s as [|a s IH]; simpl; [done|]. by rewrite H, IH. Qed.

(** *** Leftmost match, in general *)

Lemma match_here_before (r : regex) (pv : option ascii) (s : string)
    (m : found) :
  match_here r pv s = Some m → before m = "".
Proof.
  unfold match_here. destruct (rmatch r _ Some); [|done].
  by intros [= <-].
Qed.

Lemma search_some (r : regex) (s : string) :
  ∀ (pv : option ascii) (m : found),
    search r pv s = Some m →
    ∃ (v : string) (m0 : found),
      s = before m +:+ v
      ∧ match_here r (last_or pv (before m)) v = Some m0
      ∧ matched m = matched m0 ∧ final m = final m0
      ∧ ∀ u v' : string,
          s = u +:+ v' →
          (String.length u < String.length (before m))%nat →
          match_here r (last_or pv u) v' = None.
Proof.
  induction s as [|a s IH]; intros pv m H.
  - simpl in H. destruct (match_here r pv "") as [m0|] eqn:Hm; [|done].
    injection H as <-. exists "", m0.
    rewrite (match_here_before _ _ _ _ Hm). repeat split; try done.
    intros u v' _ Hlt. simpl in Hlt. lia.
  - simpl in H. destruct (match_here r pv (String a s)) as [m0|] eqn:Hm.
    + injection H as <-. exists (String a s), m0.
      rewrite (match_here_before _ _ _ _ Hm). repeat split; try done.
      intros u v' _ Hlt. simpl in Hlt. lia.
    + destruct (search r (Some a) s) as [m'|] eqn:Hs; [|done].
      injection H as <-.
      destruct (IH _ _ Hs) as (v & m0 & Hv & Hm0 & Hmat & Hfin & Hleft).
      exists v, m0. simpl. repeat split; try done.
      * by rewrite Hv at 1.
      * intros u v' Huv Hlt. destruct u as [|b u]; simpl in *.
        -- by rewrite <- Huv.
        -- injection Huv as <- Huv. apply Hleft; [done|lia].
Qed.

Lemma search_none (r : regex) (s : string) :
  ∀ pv : option ascii,
    search r pv s = None →
    ∀ u v : string, s = u +:+ v → match_here r (last_or pv u) v = None.
Proof.
  induction s as [|a s IH]; intros pv H u v Huv.
  - destruct u; [|done]. simpl in *. subst v.
    by destruct (match_here r pv "").
  - simpl in H. destruct (match_here r pv (String a s)) eqn:Hm; [done|].
    destruct (search r (Some a) s) eqn:Hs; [done|].
    destruct u as [|b u]; simpl in *.
    + by rewrite <- Huv.
    + injection Huv as <- Huv. by apply (IH (Some a)).
Qed.

(** *** Replacing every match by a constant *)

Definition replace_go (fuel : nat) (r : regex) (f : found -> string)
    (pv : option ascii) (s : string) : string :=
  let '(ms, tl) := scan_go fuel r pv s in
  List.fold_right (fun m acc => before m +:+ f m +:+ acc) tl ms.

Lemma replace_all_go (r : regex) (f : found -> string) (s : string) :
  replace_all r f s = replace_go (S (String.length s)) r f None s.
Proof. done. Qed.

Lemma squeeze_go_true (p : ascii -> bool) (t : string) (s : string) :
  squeeze_go p t true s = squeeze p t (Str.dropWhile p s).
Proof.
  unfold squeeze. induction s as [|a s IH]; simpl; [done|].
  destruct (p a) eqn:Hp; simpl; [done|]. by rewrite Hp.
Qed.

Lemma squeeze_unfold (p : ascii -> bool) (t : string) (s : string) :
  squeeze p t s
  = match Str.dropWhile (non p) s with
    | "" => s
    | String a s' =>
        takeWhile (non p) s +:+ t
          +:+ squeeze p t (Str.dropWhile p (String a s'))
    end.
Proof.
  induction s as [|a s IH]; [done|].
  destruct (p a) eqn:Hp.
  - rewrite (non_cons_true p a s Hp), (non_cons_true' p a s Hp).
    unfold squeeze at 1. simpl. rewrite Hp. simpl.
    by rewrite squeeze_go_true.
  - rewrite (non_cons_false p a s Hp), (non_cons_false' p a s Hp).
    unfold squeeze at 1. simpl. rewrite Hp.
    fold (squeeze p t s). rewrite IH.
    by destruct (Str.dropWhile (non p) s).
Qed.

Lemma replace_go_plus (p : ascii -> bool) (t : string) (fuel : nat) :
  ∀ (s : string) (pv : option ascii),
    (String.length s < fuel)%nat →
    replace_go fuel (Plus (Chr p)) (const t) pv s = squeeze p t s.
Proof.
  induction fuel as [|fuel IH]; intros s pv Hlen; [lia|].
  unfold replace_go. simpl scan_go. rewrite search_plus, squeeze_unfold.
  pose proof (takeWhile_dropWhile (non p) s) as Hsplit.
  pose proof (length_dropWhile (non p) s) as Hle.
  destruct (Str.dropWhile (non p) s) as [|a s'] eqn:Hd; [done|].
  cbn [final matched rest prev].
  pose proof (dropWhile_head _ _ _ _ Hd) as Ha. unfold non in Ha.
  apply negb_false_iff in Ha.
  assert (Hle' : (String.length (Str.dropWhile p (String a s'))
                  < String.length (String a s'))%nat).
  { simpl. rewrite Ha. pose proof (length_dropWhile p s'). lia. }
  assert (Hnonempty : takeWhile p (String a s') ≠ "")
    by (simpl; by rewrite Ha).
  destruct (takeWhile p (String a s')) as [|b w] eqn:Hw; [done|].
  specialize (IH (Str.dropWhile p (String a s'))
                (last_or (last_or pv (takeWhile (non p) s)) (String b w))).
  unfold replace_go in IH.
  destruct (scan_go fuel (Plus (Chr p)) _ (Str.dropWhile p (String a s')))
    as [ms tl].
  rewrite <- IH by lia. done.
Qed.

Lemma replace_all_plus (p : ascii -> bool) (t s : string) :
  replace_all (Plus (Chr p)) (const t) s = squeeze p t s.
Proof. rewrite replace_all_go. apply replace_go_plus. lia. Qed.

End RegexFacts.

(** ** C4: names wrapped in braces *)

Section Corporate.
Import Regex RegexFacts.

Lemma squeeze_go_snoc (p : ascii -> bool) (t : string) (b : ascii)
    (s : string) :
  p b = false →
  ∀ inrun : bool,
    ∃ u : string, squeeze_go p t inrun (s +:+ String b "") = u +:+ String b "".
Proof.
  intros Hb. induction s as [|a s IH]; intros inrun; simpl.
  - rewrite Hb. by exists "".
  - destruct (IH true) as [u1 H1], (IH false) as [u2 H2].
    destruct (p a).
    + exists ((if inrun then "" else t) +:+ u1).
      by rewrite H1, append_assoc.
    + exists (String a u2). by rewrite H2.
Qed.

Lemma squeeze_tidy (s : string) :
  ∀ inrun : bool,
    tidy_go inrun s = true → squeeze_go Char.is_space " " inrun s = s.
Proof.
  induction s as [|a s IH]; intros inrun H; simpl in *; [done|].
  destruct (Char.is_space a).
  - apply andb_prop in H as [H Hs]. apply andb_prop in H as [Hin Ha].
    apply negb_true_iff in Hin as ->. apply Ascii.eqb_eq in Ha as ->.
    simpl. by rewrite (IH true Hs).
  - by rewrite (IH false H).
Qed.

Lemma search_none_here (r : regex) (pv : option ascii) (s : string) :
  search r pv s = None → rmatch r (start pv s) Some = None.
Proof.
  destruct s as [|a s]; simpl; unfold match_here;
    by destruct (rmatch r _ Some).
Qed.

Lemma search_none_next (r : regex) (pv : option ascii) (a : ascii)
    (s : string) :
  search r pv (String a s) = None → search r (Some a) s = None.
Proof.
  simpl. destruct (match_here r pv (String a s)); [done|].
  by destruct (search r (Some a) s).
Qed.

(** Splitting a text in which the separator does not occur gives the
    text itself. *)
Lemma split_go_no_match (r : regex) (s : string) :
  ∀ (fuel : nat) (cur : string) (pv : option ascii),
    search r pv s = None → split_go fuel r cur pv s = [cur +:+ s].
Proof.
  induction s as [|a s IH]; intros fuel cur pv H;
    destruct fuel as [|fuel]; simpl; try done.
  - by rewrite append_nil_r.
  - rewrite (search_none_here _ _ _ H).
    rewrite IH by (by eapply search_none_next).
    by rewrite append_assoc.
Qed.

Lemma split_no_match (r : regex) (s : string) :
  s ≠ "" → match_first r s = None → split r s = [s].
Proof.
  intros Hs H. destruct s as [|a s]; [done|].
  unfold split. by rewrite split_go_no_match.
Qed.

End Corporate.

(** C4. The program does not keep every wrapped name.  The per-name
    normaliser of [src/unnamed/part_000] tests for the braces and returns
    the wrapped name, as its comment says; but the author-list
    normaliser, its only caller, cuts the field at the word [and] before
    that test, so a wrapped name that holds the word is cut in two and
    its first part is initialed, also when the name is read from an
    entry and formatted.  The first version ([src/app.js]) has no test
    for braces, and initials [{{ATLAS Collaboration}}] itself. *)
Theorem C4_wrapped_name_cut (opts : options) :
  normalizeOneAuthorStrict opts
    "{{National Institute of Standards and Technology}}"
  = "{{National Institute of Standards and Technology}}"
  ∧ normalizeAuthorsStrict opts
      "{{National Institute of Standards and Technology}}"
    = "{ I O Standards and Technology}}"
  ∧ (∃ e : entry,
       parseEntry
         "@misc{nist, author = {{National Institute of Standards and Technology}}}"
       = Some e
       ∧ fields e !! "author"
         = Some "{National Institute of Standards and Technology}"
       ∧ formatEntry opts e
         = "@misc{nist," +:+ LF
           +:+ "  author = {{ I O Standards and Technology}}" +:+ LF
           +:+ "}" +:+ LF)
  ∧ Mvp.normalizeAuthors opts "{{ATLAS Collaboration}}"
    = "{ Collaboration}}".
Proof.
  destruct opts as [[] [] []];
    (split; [by vm_compute|]; split; [by vm_compute|]; split;
     [eexists; split; [by vm_compute|]; split; by vm_compute
     |by vm_compute]).
Qed.

(** ** C6: the DOI found in a URL *)

Module DoiFacts.
Import Regex RegexFacts.

(** *** The character tests of the expression, flag [i] resolved *)

Lemma digit_i (c : ascii) : Char.class_i Char.is_digit c = Char.is_digit c.
Proof. destruct c as [[] [] [] [] [] [] [] []]; reflexivity. Qed.

Lemma suffix_i (c : ascii) : Char.class_i doi_suffix_char c = is_doi_suffix c.
Proof. destruct c as [[] [] [] [] [] [] [] []]; reflexivity. Qed.

Ltac by_cases_on c :=
  destruct c as [[] [] [] [] [] [] [] []]; reflexivity.

Lemma just_i_one (c : ascii) : Char.just_i "1" c = Char.just "1" c.
Proof. by_cases_on c. Qed.

Lemma just_i_zero (c : ascii) : Char.just_i "0" c = Char.just "0" c.
Proof. by_cases_on c. Qed.

Lemma just_i_dot (c : ascii) : Char.just_i "." c = Char.just "." c.
Proof. by_cases_on c. Qed.

Lemma just_i_slash (c : ascii) : Char.just_i "/" c = Char.just "/" c.
Proof. by_cases_on c. Qed.

Lemma digit_not_slash (c : ascii) :
  Char.is_digit c = true → Char.just "/" c = false.
Proof. destruct c as [[] [] [] [] [] [] [] []]; done. Qed.

Lemma suffix_not_space (c : ascii) :
  is_doi_suffix c = true → Char.is_space c = false.
Proof. destruct c as [[] [] [] [] [] [] [] []]; done. Qed.

(** *** The expression at one position *)

Definition pd : ascii -> bool := Char.class_i Char.is_digit.
Definition ps : ascii -> bool := Char.class_i doi_suffix_char.

(** What the expression matches at the start of [s], if anything: the
    matched text and the text after it. *)
Definition doi_here (s : string) : option (string * string) :=
  match s with
  | String c1 (String c2 (String c3 s1)) =>
      if Char.just_i "1" c1 && Char.just_i "0" c2 && Char.just_i "." c3 then
        if (4 <=? String.length (takeWhile pd s1))%nat
           && (String.length (takeWhile pd s1) <=? 9)%nat then
          match Str.dropWhile pd s1 with
          | String c4 s2 =>
              if Char.just_i "/" c4 then
                match takeWhile ps s2 with
                | "" => None
                | suf =>
                    Some (String c1 (String c2 (String c3
                            (takeWhile pd s1 +:+ String c4 suf))),
                          Str.dropWhile ps s2)
                end
              else None
          | "" => None
          end
        else None
      else None
  | _ => None
  end.

Definition outline (m : found) : string * string * string :=
  (before m, matched m, rest (final m)).

Lemma slash_then_suffix (pv : option ascii) (s : string)
    (cs : list (nat * string)) :
  rmatch (Chr (Char.just_i "/") ⋅ Plus (Chr ps)) (MState pv s cs) Some
  = match s with
    | String c4 s2 =>
        if Char.just_i "/" c4 then
          match takeWhile ps s2 with
          | "" => None
          | suf => Some (MState (last_or (Some c4) suf) (Str.dropWhile ps s2) cs)
          end
        else None
    | "" => None
    end.
Proof.
  destruct s as [|c4 s2]; [done|].
  change (rmatch (Chr (Char.just_i "/") ⋅ Plus (Chr ps))
            (MState pv (String c4 s2) cs) Some)
    with (if Char.just_i "/" c4
          then rmatch (Plus (Chr ps)) (MState (Some c4) s2 cs) Some
          else None).
  destruct (Char.just_i "/" c4); [|done].
  unfold Plus. rewrite rmatch_rep_chr. cbn [prev rest caps].
  destruct s2 as [|a s2]; [done|].
  destruct (ps a) eqn:Ha; [|by simpl; rewrite Ha].
  pose proof (takeWhile_dropWhile ps (String a s2)) as Hs.
  pose proof (all_takeWhile ps (String a s2)) as Hall.
  pose proof (dropWhile_head ps (String a s2)) as Hhead.
  assert (Hlen : (1 ≤ String.length (takeWhile ps (String a s2)))%nat)
    by (simpl; rewrite Ha; simpl; lia).
  remember (takeWhile ps (String a s2)) as w eqn:Hw.
  remember (Str.dropWhile ps (String a s2)) as r eqn:Hr.
  rewrite <- Hs.
  rewrite (greedy_longest ps Some w r (MState (last_or (Some c4) w) r cs));
    [|done|by intros b r' ->; eapply Hhead|done|done].
  destruct w; [simpl in Hlen; lia|done].
Qed.

Lemma match_here_doi (pv : option ascii) (s : string) :
  outline <$> match_here re_doi pv s
  = (fun wr => ("", fst wr, snd wr)) <$> doi_here s.
Proof.
  unfold match_here.
  destruct s as [|c1 [|c2 [|c3 s1]]]; try done.
  - simpl. by destruct (Char.just_i "1" c1).
  - simpl. by destruct (Char.just_i "1" c1), (Char.just_i "0" c2).
  - change (rmatch re_doi (start pv (String c1 (String c2 (String c3 s1)))) Some)
      with (if Char.just_i "1" c1 then
              if Char.just_i "0" c2 then
                if Char.just_i "." c3 then
                  rmatch (Rep 4 (Some 9) (Chr pd))
                    (MState (Some c3) s1 [])
                    (fun y => rmatch (Chr (Char.just_i "/") ⋅ Plus (Chr ps))
                                y Some)
                else None
              else None
            else None).
    unfold doi_here.
    destruct (Char.just_i "1" c1); [|done].
    destruct (Char.just_i "0" c2); [|done].
    destruct (Char.just_i "." c3); [|done].
    cbn [andb]. rewrite rmatch_rep_chr. cbn [prev rest caps].
    rewrite greedy_exact; [| |done].
    2:{ intros pv' a r cs' Ha. rewrite slash_then_suffix.
        unfold pd in Ha. rewrite digit_i in Ha.
        by rewrite just_i_slash, (digit_not_slash a Ha). }
    cbn [le_hi].
    pose proof (takeWhile_dropWhile pd s1) as Hs1.
    remember (takeWhile pd s1) as ds eqn:Eds.
    remember (Str.dropWhile pd s1) as r1 eqn:Er1.
    clear Eds Er1. subst s1.
    destruct (_ && _); [|done].
    rewrite slash_then_suffix.
    destruct r1 as [|c4 s2]; [done|].
    destruct (Char.just_i "/" c4); [|done].
    pose proof (takeWhile_dropWhile ps s2) as Hs2.
    remember (takeWhile ps s2) as suf0 eqn:Esuf.
    remember (Str.dropWhile ps s2) as r2 eqn:Er2.
    clear Esuf Er2. subst s2.
    destruct suf0 as [|b suf]; [done|].
    unfold outline.
    cbn [fmap option_fmap option_map before matched final rest fst snd].
    f_equal. f_equal. f_equal.
    apply take_length_minus. simpl. by rewrite append_assoc.
Qed.

(** *** The expression and the shape *)

Lemma pd_digit (s : string) : Str.all pd s = Str.all Char.is_digit s.
Proof. apply all_ext, digit_i. Qed.

Lemma ps_suffix (s : string) : Str.all ps s = Str.all is_doi_suffix s.
Proof. apply all_ext, suffix_i. Qed.

Lemma doi_here_sound (s w r : string) :
  doi_here s = Some (w, r) → s = w +:+ r ∧ doi_shape w.
Proof.
  unfold doi_here.
  destruct s as [|c1 [|c2 [|c3 s1]]]; try done.
  destruct (Char.just_i "1" c1) eqn:H1; [|done].
  destruct (Char.just_i "0" c2) eqn:H0; [|done].
  destruct (Char.just_i "." c3) eqn:Hdot; [|done].
  cbn [andb].
  destruct (_ && _) eqn:Hlen; [|done].
  pose proof (takeWhile_dropWhile pd s1) as Hs1.
  pose proof (all_takeWhile pd s1) as Hd1.
  destruct (Str.dropWhile pd s1) as [|c4 s2] eqn:Hd; [done|].
  destruct (Char.just_i "/" c4) eqn:Hsl; [|done].
  pose proof (takeWhile_dropWhile ps s2) as Hs2.
  pose proof (all_takeWhile ps s2) as Hd2.
  destruct (takeWhile ps s2) as [|b suf] eqn:Hsuf; [done|].
  intros [= <- <-].
  rewrite just_i_one in H1. rewrite just_i_zero in H0.
  rewrite just_i_dot in Hdot. rewrite just_i_slash in Hsl.
  apply Ascii.eqb_eq in H1 as <-, H0 as <-, Hdot as <-, Hsl as <-.
  apply andb_prop in Hlen as [Hlo Hhi].
  apply Nat.leb_le in Hlo, Hhi.
  split.
  - rewrite <- Hs1 at 1. rewrite <- Hs2 at 1. simpl.
    by rewrite !append_assoc.
  - exists (takeWhile pd s1), (String b suf).
    rewrite <- pd_digit, <- ps_suffix. done.
Qed.

Lemma doi_here_complete (w post : string) :
  doi_shape w →
  ∃ w' r : string,
    doi_here (w +:+ post) = Some (w', r)
    ∧ (String.length w ≤ String.length w')%nat.
Proof.
  intros (ds & suf & -> & Hds & Hlen & Hsuf & Hne).
  rewrite <- pd_digit in Hds. rewrite <- ps_suffix in Hsuf.
  destruct suf as [|b suf]; [done|].
  assert (Hstop : takeWhile pd ((ds +:+ "/" +:+ String b suf) +:+ post) = ds
            ∧ Str.dropWhile pd ((ds +:+ "/" +:+ String b suf) +:+ post)
              = "/" +:+ String b suf +:+ post).
  { rewrite append_assoc. apply takeWhile_app_stop; [done|].
    by intros a r' [= <- _]. }
  destruct Hstop as [Htake Hdrop].
  assert (Hrun : takeWhile ps (String b suf +:+ post)
                 = String b suf +:+ takeWhile ps post)
    by (by apply takeWhile_app_all).
  exists ("10." +:+ ds +:+ "/" +:+ String b suf +:+ takeWhile ps post),
         (Str.dropWhile ps (String b suf +:+ post)).
  split.
  - unfold doi_here.
    change (("10." +:+ ds +:+ "/" +:+ String b suf) +:+ post)
      with (String "1" (String "0" (String "."
              ((ds +:+ "/" +:+ String b suf) +:+ post)))).
    cbn [andb]. change (Char.just_i "1" "1") with true.
    change (Char.just_i "0" "0") with true.
    change (Char.just_i "." ".") with true. cbn [andb].
    rewrite Htake, Hdrop.
    replace ((4 <=? String.length ds)%nat && (String.length ds <=? 9)%nat)
      with true
      by (symmetry; apply andb_true_intro; split; apply Nat.leb_le; lia).
    change ("/" +:+ String b suf +:+ post)
      with (String "/" (String b suf +:+ post)).
    cbv iota beta. change (Char.just_i "/" "/") with true. cbv iota.
    rewrite Hrun. reflexivity.
  - simpl. rewrite !length_append. simpl. rewrite !length_append. lia.
Qed.

(** *** The first match and the shape *)

Lemma app_inv_length (u v u' v' : string) :
  u +:+ v = u' +:+ v' → String.length u = String.length u' →
  u = u' ∧ v = v'.
Proof.
  revert u'. induction u as [|a u IH]; intros [|a' u'] H Hlen;
    simpl in *; try done.
  injection H as -> H. injection Hlen as Hlen.
  by destruct (IH _ H Hlen) as [-> ->].
Qed.

Lemma doi_here_match_here (pv : option ascii) (s : string) :
  match match_here re_doi pv s with
  | Some m => doi_here s = Some (matched m, rest (final m))
  | None => doi_here s = None
  end.
Proof.
  pose proof (match_here_doi pv s) as H.
  destruct (match_here re_doi pv s) as [m|], (doi_here s) as [[w r]|];
    simpl in H; try done.
  unfold outline in H. by injection H as _ -> ->.
Qed.

(** What [match] finds is the first part of the text that has the DOI
    shape, and it finds nothing only when no part has the shape. *)
Lemma match_first_doi (t : string) :
  match match_first re_doi t with
  | Some m => first_match doi_shape t (matched m)
  | None => no_match doi_shape t
  end.
Proof.
  unfold match_first.
  destruct (search re_doi None t) as [m|] eqn:Hs.
  - destruct (search_some _ _ _ _ Hs) as (v & m0 & Ht & Hm0 & Hmat & _ & Hleft).
    pose proof (doi_here_match_here (last_or None (before m)) v) as Hv.
    rewrite Hm0 in Hv. rewrite <- Hmat in Hv.
    destruct (doi_here_sound _ _ _ Hv) as [Hv' Hshape].
    exists (before m), (rest (final m0)). split; [by rewrite <- Hv'|].
    split; [done|].
    intros pre' w' post' Ht' Hshape'.
    destruct (doi_here_complete w' post' Hshape') as (w'' & r'' & Hw'' & Hlen).
    destruct (Nat.lt_trichotomy (String.length pre')
                (String.length (before m))) as [Hlt | [Heq | Hgt]].
    + pose proof (Hleft pre' (w' +:+ post') Ht' Hlt) as Hnone.
      pose proof (doi_here_match_here (last_or None pre') (w' +:+ post')) as H.
      rewrite Hnone, Hw'' in H. done.
    + right. split; [done|].
      rewrite Ht in Ht'.
      destruct (app_inv_length _ _ _ _ Ht' (eq_sym Heq)) as [_ Hvv].
      rewrite Hvv, Hw'' in Hv. by injection Hv as -> _.
    + left. done.
  - intros pre w post Ht Hshape.
    destruct (doi_here_complete w post Hshape) as (w'' & r'' & Hw'' & _).
    pose proof (search_none _ _ _ Hs pre (w +:+ post) Ht) as Hnone.
    pose proof (doi_here_match_here (last_or None pre) (w +:+ post)) as H.
    rewrite Hnone, Hw'' in H. done.
Qed.

Lemma take_app (u v : string) : Str.take (String.length u) (u +:+ v) = u.
Proof. induction u as [|a u IH]; simpl; [by destruct v|by rewrite IH]. Qed.

Lemma first_match_unique (shape : string -> Prop) (t w1 w2 : string) :
  first_match shape t w1 → first_match shape t w2 → w1 = w2.
Proof.
  intros (pre1 & post1 & Ht1 & Hs1 & Hf1) (pre2 & post2 & Ht2 & Hs2 & Hf2).
  destruct (Hf1 _ _ _ Ht2 Hs2) as [H12 | [Hp12 Hl12]];
    destruct (Hf2 _ _ _ Ht1 Hs1) as [H21 | [Hp21 Hl21]]; try lia.
  rewrite Ht1 in Ht2.
  destruct (app_inv_length _ _ _ _ Ht2 Hp12) as [_ Hrest].
  assert (Hlen : String.length w1 = String.length w2) by lia.
  by destruct (app_inv_length _ _ _ _ Hrest Hlen).
Qed.

Lemma first_match_not_no_match (shape : string -> Prop) (t w : string) :
  first_match shape t w → ¬ no_match shape t.
Proof. intros (pre & post & Ht & Hs & _) Hno. by apply (Hno pre w post). Qed.

(** *** Trimming does not move the match *)

Lemma all_app (p : ascii -> bool) (u v : string) :
  Str.all p (u +:+ v) = Str.all p u && Str.all p v.
Proof.
  induction u as [|a u IH]; simpl; [done|]. by rewrite IH, andb_assoc.
Qed.

Lemma all_rev (p : ascii -> bool) (s : string) :
  Str.all p (String.rev s) = Str.all p s.
Proof.
  induction s as [|a s IH]; [done|].
  rewrite rev_cons, all_app, IH. simpl.
  by rewrite andb_true_r, andb_comm.
Qed.

Lemma trim_decompose (u : string) :
  ∃ l r : string,
    u = l +:+ Str.trim u +:+ r
    ∧ Str.all Char.is_space l = true ∧ Str.all Char.is_space r = true.
Proof.
  exists (takeWhile Char.is_space u),
         (String.rev (takeWhile Char.is_space
                        (String.rev (Str.trimStart u)))).
  split; [|split].
  - unfold Str.trim, Str.trimEnd.
    rewrite <- rev_append, takeWhile_dropWhile, rev_involutive.
    unfold Str.trimStart. by rewrite takeWhile_dropWhile.
  - apply all_takeWhile.
  - rewrite all_rev. apply all_takeWhile.
Qed.

Lemma app_eq_split (a b c d : string) :
  a +:+ b = c +:+ d →
  (∃ k, c = a +:+ k ∧ b = k +:+ d) ∨ (∃ k, a = c +:+ k ∧ d = k +:+ b).
Proof.
  revert c. induction a as [|x a IH]; intros c H.
  - left. by exists c.
  - destruct c as [|y c].
    + right. by exists (String x a).
    + injection H as -> H. destruct (IH c H) as [[k [-> ->]] | [k [-> ->]]].
      * left. by exists k.
      * right. by exists k.
Qed.

(** A part without white space of a text lies inside the trimmed text. *)
Lemma inside_trim (l m r pre w post : string) :
  Str.all Char.is_space l = true → Str.all Char.is_space r = true →
  w ≠ "" → Str.all (non Char.is_space) w = true →
  l +:+ m +:+ r = pre +:+ w +:+ post →
  ∃ k j : string, pre = l +:+ k ∧ post = j +:+ r ∧ m = k +:+ w +:+ j.
Proof.
  intros Hl Hr Hne Hw H.
  assert (Hleft : ∃ k, pre = l +:+ k ∧ m +:+ r = k +:+ w +:+ post).
  { destruct (app_eq_split _ _ _ _ H) as [[k [-> Hk]] | [k [-> Hk]]].
    - by exists k.
    - destruct k as [|a k].
      + exists "". rewrite !append_nil_r. simpl in Hk. by rewrite Hk.
      + exfalso. destruct w as [|b w]; [done|].
        injection Hk as -> _.
        rewrite all_app in Hl. simpl in *. unfold non in Hw.
        destruct (Char.is_space a); simpl in *; [done|].
        by rewrite andb_false_r in Hl. }
  destruct Hleft as (k & -> & Hk). exists k.
  rewrite <- append_assoc in Hk.
  destruct (app_eq_split _ _ _ _ Hk) as [[j [Hj ->]] | [j [-> ->]]].
  - destruct j as [|a j].
    + exists "". rewrite append_nil_r in Hj. simpl.
      by rewrite <- Hj, append_nil_r.
    + exfalso. apply (f_equal String.rev) in Hj.
      rewrite !rev_append in Hj.
      rewrite all_app in Hr. apply andb_prop in Hr as [Hr _].
      rewrite <- all_rev in Hr, Hw.
      destruct (String.rev w) as [|b w'] eqn:Hrev.
      { apply (f_equal String.rev) in Hrev.
        by rewrite rev_involutive in Hrev. }
      destruct (String.rev (String a j)) as [|c x] eqn:Hrj.
      { apply (f_equal String.rev) in Hrj.
        by rewrite rev_involutive in Hrj. }
      simpl in Hj. injection Hj as -> _. simpl in Hr, Hw.
      unfold non in Hw. by destruct (Char.is_space c).
  - exists j. by rewrite append_assoc.
Qed.

Lemma digit_not_space (c : ascii) :
  Char.is_digit c = true → Char.is_space c = false.
Proof. destruct c as [[] [] [] [] [] [] [] []]; done. Qed.

Lemma all_impl (p q : ascii -> bool) (s : string) :
  (∀ a, p a = true → q a = true) → Str.all p s = true → Str.all q s = true.
Proof.
  intros H. induction s as [|a s IH]; simpl; [done|].
  intros [Ha Hs]%andb_prop. by rewrite (H a Ha), IH.
Qed.

Lemma doi_shape_tight (w : string) :
  doi_shape w → w ≠ "" ∧ Str.all (non Char.is_space) w = true.
Proof.
  intros (ds & suf & -> & Hds & _ & Hsuf & _). split; [done|].
  assert (Hd : Str.all (non Char.is_space) ds = true).
  { apply (all_impl Char.is_digit); [|done].
    intros a H. unfold non. by rewrite digit_not_space. }
  assert (Hs : Str.all (non Char.is_space) suf = true).
  { apply (all_impl is_doi_suffix); [|done].
    intros a H. unfold non. by rewrite suffix_not_space. }
  change ("10." +:+ ds +:+ "/" +:+ suf)
    with (String "1" (String "0" (String "." (ds +:+ String "/" suf)))).
  cbn [Str.all]. rewrite all_app. cbn [Str.all]. by rewrite Hd, Hs.
Qed.

Lemma first_match_trim (u w : string) :
  first_match doi_shape (Str.trim u) w → first_match doi_shape u w.
Proof.
  intros (pre & post & Ht & Hs & Hfirst).
  destruct (trim_decompose u) as (l & r & Hu & Hl & Hr).
  exists (l +:+ pre), (post +:+ r). split; [|split; [done|]].
  - rewrite Hu at 1. rewrite Ht. by rewrite !append_assoc.
  - intros pre' w' post' Hu' Hs'.
    destruct (doi_shape_tight w' Hs') as [Hne Htight].
    rewrite Hu in Hu'.
    destruct (inside_trim _ _ _ _ _ _ Hl Hr Hne Htight Hu')
      as (k & j & -> & -> & Hm).
    rewrite !length_append.
    destruct (Hfirst k w' j Hm Hs') as [? | [? ?]]; [left|right]; lia.
Qed.

Lemma no_match_trim (u : string) :
  no_match doi_shape (Str.trim u) → no_match doi_shape u.
Proof.
  intros Hno pre w post Hu Hs.
  destruct (trim_decompose u) as (l & r & Hu' & Hl & Hr).
  destruct (doi_shape_tight w Hs) as [Hne Htight].
  rewrite Hu' in Hu.
  destruct (inside_trim _ _ _ _ _ _ Hl Hr Hne Htight Hu)
    as (k & j & _ & _ & Hm).
  by apply (Hno k w j).
Qed.

(** [extractDoiFromText] finds the first part of its argument that has
    the DOI shape, and returns the empty text only when there is none. *)
Lemma extractDoiFromText_spec (u : string) :
  u ≠ "" →
  (first_match doi_shape u (extractDoiFromText u)
   ∧ extractDoiFromText u ≠ "")
  ∨ (no_match doi_shape u ∧ extractDoiFromText u = "").
Proof.
  intros Hu. unfold extractDoiFromText.
  apply truthy_true in Hu. rewrite Hu. simpl.
  pose proof (match_first_doi (Str.trim u)) as H.
  destruct (match_first re_doi (Str.trim u)) as [m|].
  - left. split; [by apply first_match_trim|].
    destruct H as (_ & _ & _ & Hs & _).
    by apply doi_shape_tight in Hs as [? _].
  - right. split; [by apply no_match_trim|done].
Qed.

End DoiFacts.

(** C6. When extraction is enabled and the entry has no DOI but has a
    URL, the extraction step sets the doi field to the first part of the
    URL that has the DOI shape (the leftmost, and the longest there), and
    leaves the fields unchanged when no part of the URL has that shape;
    one of the two always applies.  The URL
    "https://doi.org/10.1038/s41586-020-1234-5" gives the DOI
    "10.1038/s41586-020-1234-5". *)
Theorem C6_doi_extraction (opts : options) (fs : gmap string string) :
  tryExtractDoi opts = true →
  field "doi" fs = "" →
  field "url" fs ≠ "" →
  (∀ w : string,
     first_match doi_shape (field "url" fs) w →
     extract_doi opts fs = <["doi" := w]> fs)
  ∧ (no_match doi_shape (field "url" fs) → extract_doi opts fs = fs)
  ∧ ((∃ w : string, first_match doi_shape (field "url" fs) w)
     ∨ no_match doi_shape (field "url" fs))
  ∧ (field "url" fs = "https://doi.org/10.1038/s41586-020-1234-5" →
     extract_doi opts fs = <["doi" := "10.1038/s41586-020-1234-5"]> fs).
Proof.
  intros Hon Hdoi Hurl.
  assert (Hstep : extract_doi opts fs
                  = if Str.truthy (extractDoiFromText (field "url" fs))
                    then <["doi" := extractDoiFromText (field "url" fs)]> fs
                    else fs).
  { unfold extract_doi. rewrite Hon, Hdoi.
    apply truthy_true in Hurl. by rewrite Hurl. }
  destruct (DoiFacts.extractDoiFromText_spec _ Hurl)
    as [[Hfirst Hne] | [Hnone Hempty]].
  - apply truthy_true in Hne. rewrite Hne in Hstep.
    split; [|split; [|split]].
    + intros w Hw.
      by rewrite (DoiFacts.first_match_unique _ _ _ _ Hw Hfirst).
    + intros Hno. by apply DoiFacts.first_match_not_no_match in Hfirst.
    + left. by eexists.
    + intros Hu. rewrite Hstep, Hu. by vm_compute.
  - rewrite Hempty in Hstep. simpl in Hstep.
    split; [|split; [|split]].
    + intros w Hw. by apply DoiFacts.first_match_not_no_match in Hw.
    + done.
    + by right.
    + intros Hu. rewrite Hu in Hempty. by vm_compute in Hempty.
Qed.

Lemma C6_doi_extraction_witness :
  extract_doi (Options false true false)
    (<["url" := "https://doi.org/10.1038/s41586-020-1234-5"]> ∅)
  = <["doi" := "10.1038/s41586-020-1234-5"]>
      (<["url" := "https://doi.org/10.1038/s41586-020-1234-5"]> ∅).
Proof.
  apply (C6_doi_extraction (Options false true false)
           (<["url" := "https://doi.org/10.1038/s41586-020-1234-5"]> ∅));
    done.
Defined.

(** ** C1: formatting, parsing back, formatting again *)

(** *** Field maps that the formatter cannot tell apart *)

(** Two field maps are alike when every field reads the same in both (an
    absent field reading as empty) and they have the same fields outside
    the preferred list. *)
Definition alike (F G : gmap string string) : Prop :=
  (∀ f : string, field f F = field f G)
  ∧ (∀ f : string, f ∉ preferred → F !! f = G !! f).

Section Alike.
Context (opts : options).

Lemma alike_refl (F : gmap string string) : alike F F.
Proof. by split. Qed.

Lemma alike_trans (F G H : gmap string string) :
  alike F G → alike G H → alike F H.
Proof.
  intros [H1 H2] [H3 H4]. split; intros f.
  - by rewrite H1.
  - intros Hf. by rewrite H2, H4.
Qed.

Lemma alike_insert (k v : string) (F G : gmap string string) :
  alike F G → alike (<[k := v]> F) (<[k := v]> G).
Proof.
  intros [H1 H2]. split; intros f.
  - rewrite !field_insert. by destruct (decide (k = f)).
  - intros Hf. rewrite !lookup_insert. destruct (decide (k = f)); auto.
Qed.

Lemma normalize_alike (F G : gmap string string) :
  alike F G → alike (normalize opts F) (normalize opts G).
Proof.
  intros H. unfold normalize.
  assert (HA : alike (normalize_author opts F) (normalize_author opts G)).
  { unfold normalize_author. rewrite (proj1 H "author").
    destruct (Str.truthy _); [by apply alike_insert|done]. }
  assert (HT : alike (normalize_title (normalize_author opts F))
                 (normalize_title (normalize_author opts G))).
  { unfold normalize_title. rewrite (proj1 HA "title").
    destruct (Str.truthy _); [by apply alike_insert|done]. }
  assert (HX : alike (extract_doi opts (normalize_title (normalize_author opts F)))
                 (extract_doi opts (normalize_title (normalize_author opts G)))).
  { unfold extract_doi. rewrite (proj1 HT "doi"), (proj1 HT "url").
    destruct (_ && _); [|done].
    destruct (Str.truthy _); [by apply alike_insert|done]. }
  unfold enforce_url. rewrite (proj1 HX "doi").
  destruct (_ && _); [|done]. by do 2 apply alike_insert.
Qed.

Lemma extra_alike (F G : gmap string string) :
  alike F G → extra F = extra G.
Proof.
  intros [_ H].
  destruct (extra_spec F) as (HsF & HnF & HmF).
  destruct (extra_spec G) as (HsG & HnG & HmG).
  apply (Sorted_unique String.le); [done..|].
  apply NoDup_Permutation; [done..|].
  intros f. rewrite HmF, HmG. split; intros [Hs Hp]; split; try done.
  - by rewrite <- H.
  - by rewrite H.
Qed.

Lemma emitted_alike (F G : gmap string string) :
  alike F G → emitted F = emitted G.
Proof.
  intros H. unfold emitted. rewrite (extra_alike F G H). f_equal.
  apply List.filter_ext. intros f. by rewrite (proj1 H f).
Qed.

Lemma serialize_alike (t k : string) (F G : gmap string string) :
  alike F G → serialize t k F = serialize t k G.
Proof.
  intros H. unfold serialize. rewrite !lines_emitted.
  rewrite (emitted_alike F G H).
  assert (List.map (line F) (emitted G) = List.map (line G) (emitted G))
    as ->; [|done].
  apply List.map_ext. intros f. unfold line. by rewrite (proj1 H f).
Qed.

End Alike.

(** *** Normalising what is already normalised *)

Section Again.
Context (opts : options).

Lemma field_truthy_lookup (f : string) (F : gmap string string) :
  Str.truthy (field f F) = true → F !! f = Some (field f F).
Proof. unfold field. by destruct (F !! f). Qed.

Lemma extract_doi_enforced (W : gmap string string) (d : string) :
  extract_doi opts (<["url" := doiUrl d]> (<["doi" := d]> W))
  = <["url" := doiUrl d]> (<["doi" := d]> W).
Proof.
  unfold extract_doi. rewrite !field_insert. simpl.
  destruct d as [|a d]; [|by rewrite andb_false_r].
  destruct (tryExtractDoi opts); [|done]. by vm_compute.
Qed.

Lemma enforce_url_shape (Y : gmap string string) :
  enforce_url opts Y = Y
  ∨ ∃ d, enforce_url opts Y = <["url" := doiUrl d]> (<["doi" := d]> Y).
Proof.
  unfold enforce_url. destruct (_ && _); [right; by eexists|by left].
Qed.

Lemma extract_doi_idem (Z : gmap string string) :
  extract_doi opts (extract_doi opts Z) = extract_doi opts Z.
Proof.
  assert (H : extract_doi opts Z = Z
              ∨ Str.truthy (field "doi" (extract_doi opts Z)) = true).
  { unfold extract_doi. destruct (_ && _); [|by left].
    destruct (Str.truthy (extractDoiFromText _)) eqn:Hd; [right|by left].
    by rewrite field_insert. }
  destruct H as [H | H]; [by rewrite !H|].
  by apply extract_doi_present.
Qed.

(** After the four steps, the extraction step has nothing left to do. *)
Lemma extract_doi_after (Z : gmap string string) :
  extract_doi opts (enforce_url opts (extract_doi opts Z))
  = enforce_url opts (extract_doi opts Z).
Proof.
  destruct (enforce_url_shape (extract_doi opts Z)) as [-> | [d ->]].
  - apply extract_doi_idem.
  - apply extract_doi_enforced.
Qed.

(** After the four steps, the enforcement step changes nothing, provided
    the DOI it wrote has no white space around it. *)
Lemma enforce_url_after (Y : gmap string string) :
  Str.trim (field "doi" (enforce_url opts Y)) = field "doi" (enforce_url opts Y) →
  enforce_url opts (enforce_url opts Y) = enforce_url opts Y.
Proof.
  unfold enforce_url at 1 2 4.
  destruct (enforceDoiUrl opts && Str.truthy (field "doi" Y)) eqn:Hc.
  - rewrite !field_insert. simpl. intros Htrim.
    unfold enforce_url. rewrite !field_insert. simpl.
    rewrite Htrim.
    rewrite (insert_id _ "doi")
      by (by rewrite lookup_insert_ne, lookup_insert_eq).
    rewrite Hc, insert_insert_eq.
    by destruct (enforceDoiUrl opts && Str.truthy (Str.trim _)).
  - intros _. unfold enforce_url. by rewrite Hc.
Qed.

Lemma normalize_again (F : gmap string string) :
  normalizeAuthorsStrict opts (field "author" (normalize opts F))
  = field "author" (normalize opts F) →
  latexifyMaterialsInTitle (field "title" (normalize opts F))
  = field "title" (normalize opts F) →
  Str.trim (field "doi" (normalize opts F)) = field "doi" (normalize opts F) →
  normalize opts (normalize opts F) = normalize opts F.
Proof.
  intros HA HT HD. set (N := normalize opts F) in *.
  assert (EA : normalize_author opts N = N).
  { unfold normalize_author. destruct (Str.truthy _) eqn:Ht; [|done].
    rewrite HA. by apply insert_id, field_truthy_lookup. }
  assert (ET : normalize_title N = N).
  { unfold normalize_title. destruct (Str.truthy _) eqn:Ht; [|done].
    rewrite HT. by apply insert_id, field_truthy_lookup. }
  unfold normalize at 1. rewrite EA, ET.
  assert (EX : extract_doi opts N = N) by apply extract_doi_after.
  rewrite EX. by apply enforce_url_after.
Qed.

End Again.

(** *** Running the matcher along a known text *)

Module Eval.
Import Regex RegexFacts DoiFacts.

(** [r] does not begin with a character of the class [p], or is empty. *)
Definition stops (p : ascii -> bool) (r : string) : bool :=
  match r with
  | String a _ => negb (p a)
  | "" => true
  end.

Lemma stops_head (p : ascii -> bool) (r : string) :
  stops p r = true → ∀ a r', r = String a r' → p a = false.
Proof. intros H a r' ->. simpl in H. by apply negb_true_iff. Qed.

Lemma eval_seq (r1 r2 : regex) (x : mstate) (c : mstate -> option mstate)
    (z : mstate) :
  rmatch r1 x (fun y => rmatch r2 y c) = Some z →
  rmatch (Seq r1 r2) x c = Some z.
Proof. done. Qed.

Lemma eval_chr (p : ascii -> bool) (a : ascii) (s : string)
    (pv : option ascii) (cs : list (nat * string))
    (c : mstate -> option mstate) (z : mstate) :
  p a = true →
  c (MState (Some a) s cs) = Some z →
  rmatch (Chr p) (MState pv (String a s) cs) c = Some z.
Proof. intros Hp Hc. simpl. by rewrite Hp. Qed.

Lemma eval_run (p : ascii -> bool) (lo : nat) (w r : string)
    (pv : option ascii) (cs : list (nat * string))
    (c : mstate -> option mstate) (z : mstate) :
  Str.all p w = true → stops p r = true → (lo ≤ String.length w)%nat →
  c (MState (last_or pv w) r cs) = Some z →
  rmatch (Rep lo None (Chr p)) (MState pv (w +:+ r) cs) c = Some z.
Proof.
  intros Hall Hstop Hlo Hc. rewrite rmatch_rep_chr. cbn [prev rest caps].
  apply greedy_longest; try done. by apply stops_head.
Qed.

Lemma eval_skip (p : ascii -> bool) (r : string)
    (pv : option ascii) (cs : list (nat * string))
    (c : mstate -> option mstate) (z : mstate) :
  stops p r = true →
  c (MState pv r cs) = Some z →
  rmatch (Rep 0 None (Chr p)) (MState pv r cs) c = Some z.
Proof. intros Hstop Hc. by apply (eval_run p 0 "" r). Qed.

Lemma eval_grp (i : nat) (r : regex) (x : mstate)
    (c : mstate -> option mstate) (z : mstate) :
  rmatch r x (fun y => c (capture i x y)) = Some z →
  rmatch (Grp i r) x c = Some z.
Proof. done. Qed.

Lemma eval_grp_run (i : nat) (p : ascii -> bool) (lo : nat) (w r : string)
    (pv : option ascii) (cs : list (nat * string))
    (c : mstate -> option mstate) (z : mstate) :
  Str.all p w = true → stops p r = true → (lo ≤ String.length w)%nat →
  c (MState (last_or pv w) r ((i, w) :: cs)) = Some z →
  rmatch (Grp i (Rep lo None (Chr p))) (MState pv (w +:+ r) cs) c = Some z.
Proof.
  intros Hall Hstop Hlo Hc. apply eval_grp, eval_run; try done.
  unfold capture. cbn [prev rest caps]. by rewrite take_app_length.
Qed.

Lemma eval_alt_l (r1 r2 : regex) (x : mstate) (c : mstate -> option mstate)
    (z : mstate) :
  rmatch r1 x c = Some z → rmatch (Alt r1 r2) x c = Some z.
Proof. intros H. simpl. by rewrite H. Qed.

Lemma eval_bol (s : string) (cs : list (nat * string))
    (c : mstate -> option mstate) (z : mstate) :
  c (MState None s cs) = Some z → rmatch Bol (MState None s cs) c = Some z.
Proof. done. Qed.

Lemma eval_opt_take (p : ascii -> bool) (a : ascii) (s : string)
    (pv : option ascii) (cs : list (nat * string))
    (c : mstate -> option mstate) (z : mstate) :
  p a = true →
  c (MState (Some a) s cs) = Some z →
  rmatch (Opt (Chr p)) (MState pv (String a s) cs) c = Some z.
Proof.
  intros Hp Hc. unfold Opt. rewrite rmatch_rep_chr. cbn [prev rest caps].
  assert (Hz : greedy p c 0 (Some 0) (Some a) s cs = Some z)
    by (by destruct s).
  simpl. by rewrite Hp, Hz.
Qed.

Lemma eval_opt_end (p : ascii -> bool)
    (pv : option ascii) (cs : list (nat * string))
    (c : mstate -> option mstate) (z : mstate) :
  c (MState pv "" cs) = Some z →
  rmatch (Opt (Chr p)) (MState pv "" cs) c = Some z.
Proof. intros Hc. unfold Opt. by rewrite rmatch_rep_chr. Qed.

(** The match found at the start of the text. *)
Lemma match_first_here (r : regex) (s w : string) (y : mstate) :
  rmatch r (start None s) Some = Some y →
  s = w +:+ rest y →
  match_first r s = Some {| before := ""; matched := w; final := y |}.
Proof.
  intros Hr Hs. unfold match_first.
  assert (Hm : match_here r None s
               = Some {| before := ""; matched := w; final := y |}).
  { unfold match_here. rewrite Hr. do 2 f_equal.
    by apply take_length_minus. }
  destruct s; simpl; by rewrite Hm.
Qed.

(** *** The header *)

Lemma tight_head (s : string) :
  tight s = true → Str.truthy s = true →
  ∃ a s', s = String a s' ∧ Char.is_space a = false.
Proof.
  destruct s as [|a s']; [done|]. unfold tight. simpl.
  intros [H _]%andb_prop _. exists a, s'. split; [done|].
  by apply negb_true_iff.
Qed.

Lemma truthy_length (s : string) :
  Str.truthy s = true → (1 ≤ String.length s)%nat.
Proof. destruct s; simpl; [done|lia]. Qed.

Lemma head_match (ty key tail : string) :
  plain_type ty = true → plain_key key = true →
  ∃ pvf : option ascii,
    match_first re_head ("@" +:+ ty +:+ "{" +:+ key +:+ "," +:+ tail)
    = Some {| before := "";
              matched := "@" +:+ ty +:+ "{" +:+ key +:+ ",";
              final := MState pvf tail [(2, key); (1, ty)] |}.
Proof.
  unfold plain_type, plain_key.
  intros [[Hty1 Hty2]%andb_prop _]%andb_prop
         [[Hk1 Hk2]%andb_prop Hk3]%andb_prop.
  destruct (tight_head key Hk2 Hk1) as (k0 & key' & -> & Hk0).
  eexists. apply match_first_here.
  - unfold re_head, start.
    change ("@" +:+ ty +:+ "{" +:+ String k0 key' +:+ "," +:+ tail)
      with (String "@" (ty +:+ String "{" (String k0 key' +:+ String "," tail))).
    apply eval_seq, eval_bol.
    apply eval_seq, eval_chr; [done|].
    apply eval_seq, eval_grp_run; [done|done|by apply truthy_length|].
    apply eval_seq, eval_skip; [done|].
    apply eval_seq, eval_chr; [done|].
    apply eval_seq, eval_skip; [simpl; by rewrite Hk0|].
    change (String k0 (key' +:+ String "," tail))
      with (String k0 key' +:+ String "," tail).
    apply eval_seq, eval_grp_run; [done|done|simpl; lia|].
    apply eval_seq, eval_skip; [done|].
    apply eval_chr; [done|]. reflexivity.
  - cbn [rest]. by rewrite !append_assoc.
Qed.

(** *** The closing brace *)

Lemma close_here_none (pv : option ascii) (a : ascii) (u : string) :
  Str.all Char.is_space u = false →
  match_here re_close pv (String a u) = None.
Proof.
  intros Hu. unfold match_here, re_close, start.
  change (rmatch (Chr (Char.just "}") ⋅ Star (Chr Char.is_space) ⋅ Eol)
            (MState pv (String a u) []) Some)
    with (if Char.just "}" a
          then rmatch (Star (Chr Char.is_space))
                 (MState (Some a) u [])
                 (fun y => rmatch Eol y Some)
          else None).
  destruct (Char.just "}" a); [|done].
  unfold Star. rewrite rmatch_rep_chr. cbn [prev rest caps].
  rewrite greedy_none; [done|].
  intros w r -> Hw. destruct r as [|b r]; [|done].
  by rewrite append_nil_r, Hw in Hu.
Qed.

Lemma close_last (s : string) :
  ∀ pv : option ascii,
    search re_close pv (s +:+ "}" +:+ LF)
    = Some {| before := s; matched := "}" +:+ LF;
              final := MState (Some "010"%char) "" [] |}.
Proof.
  induction s as [|a s IH]; intros pv.
  - reflexivity.
  - change (String a s +:+ "}" +:+ LF) with (String a (s +:+ "}" +:+ LF)).
    unfold search; fold search.
    rewrite close_here_none, IH; [done|].
    rewrite all_app. simpl. by rewrite andb_false_r.
Qed.

Lemma replace_close (s : string) :
  replace_first re_close "" (s +:+ "}" +:+ LF) = s.
Proof.
  unfold replace_first, match_first. rewrite close_last.
  cbn [before final rest]. simpl. by rewrite append_nil_r.
Qed.

(** *** The body, trimmed *)

Lemma trimEnd_LF (x : string) :
  Str.trimEnd ((x +:+ "}") +:+ LF) = x +:+ "}".
Proof.
  unfold Str.trimEnd. rewrite !rev_append. simpl.
  change (String.rev LF) with LF. simpl.
  by rewrite rev_cons, rev_involutive.
Qed.

Lemma trim_body (b0 : ascii) (x : string) :
  Char.is_space b0 = false →
  Str.trim (LF +:+ "  " +:+ (String b0 x +:+ "}") +:+ LF)
  = String b0 x +:+ "}".
Proof.
  intros Hb. unfold Str.trim.
  assert (Str.trimStart (LF +:+ "  " +:+ (String b0 x +:+ "}") +:+ LF)
          = (String b0 x +:+ "}") +:+ LF) as ->.
  { unfold Str.trimStart. simpl. by rewrite Hb. }
  apply trimEnd_LF.
Qed.

(** *** A braced value *)

(** The texts the body of [re_braced] reads in full: characters other
    than braces, and groups of such characters in one pair of braces. *)
Inductive items : string -> Prop :=
| items_nil : items ""
| items_char (a : ascii) (v : string) :
    not_brace a = true → items v → items (String a v)
| items_group (w v : string) :
    Str.all not_brace w = true → items v →
    items (String "{" (w +:+ String "}" v)).

Lemma depth1_items (v : string) :
  (depth1_go false v = true → items v)
  ∧ (depth1_go true v = true →
     ∃ w v', v = w +:+ String "}" v' ∧ Str.all not_brace w = true ∧ items v').
Proof.
  induction v as [|a v [IH1 IH2]].
  - split; [constructor|done].
  - cbn [depth1_go]. destruct (Char.just "{" a) eqn:Ho.
    + apply Ascii.eqb_eq in Ho as <-. cbn [negb andb]. split; [|done].
      intros H. destruct (IH2 H) as (w & v' & -> & Hw & Hv').
      by constructor.
    + destruct (Char.just "}" a) eqn:Hc.
      * apply Ascii.eqb_eq in Hc as <-. cbn [negb andb]. split; [done|].
        intros H. exists "", v. split; [done|]. split; [done|]. auto.
      * assert (Hnb : not_brace a = true)
          by (unfold not_brace; by rewrite Ho, Hc).
        split.
        -- intros H. constructor; auto.
        -- intros H. destruct (IH2 H) as (w & v' & -> & Hw & Hv').
           exists (String a w), v'. split; [done|]. split; [|done].
           cbn [Str.all]. by rewrite Hnb, Hw.
Qed.

Definition re_item : regex :=
  (Chr not_brace
   ∣ Chr (Char.just "{") ⋅ Star (Chr not_brace) ⋅ Chr (Char.just "}"))%re.

Lemma last_or_app (pv : option ascii) (u v : string) :
  last_or pv (u +:+ v) = last_or (last_or pv u) v.
Proof. revert pv. induction u as [|a u IH]; intros pv; simpl; [done|apply IH]. Qed.

(** The repetition reads the whole of an [items] text that is followed
    by a closing brace, when the continuation accepts the position after
    it. *)
Lemma star_items (v : string) :
  items v →
  ∀ (fuel : nat) (pv : option ascii) (cs : list (nat * string))
    (r : string) (c : mstate -> option mstate) (z : mstate),
    (String.length (v +:+ String "}" r) < fuel)%nat →
    c (MState (last_or pv v) (String "}" r) cs) = Some z →
    repeat (rmatch re_item) c fuel 0 None (MState pv (v +:+ String "}" r) cs)
    = Some z.
Proof.
  induction 1 as [|a v Ha Hv IH|w v Hw Hv IH];
    intros fuel pv cs r c z Hfuel Hc;
    (destruct fuel as [|fuel]; [lia|]).
  - simpl in *. by rewrite Hc.
  - change (String a v +:+ String "}" r) with (String a (v +:+ String "}" r))
      in *.
    cbn [repeat hi_is_zero Nat.eqb andb].
    assert (Hstep : rmatch re_item
              (MState pv (String a (v +:+ String "}" r)) cs)
              (fun y =>
                 if same_pos
                      (MState pv (String a (v +:+ String "}" r)) cs) y
                 then None
                 else repeat (rmatch re_item) c fuel (Nat.pred 0)
                        (pred_hi None) y)
            = Some z).
    { apply eval_alt_l, eval_chr; [done|].
      unfold same_pos. cbn [rest andb].
      replace (String.length (v +:+ String "}" r)
               =? String.length (String a (v +:+ String "}" r)))%nat
        with false by (symmetry; apply Nat.eqb_neq; simpl; lia).
      apply IH; [simpl in Hfuel; lia|done]. }
    by rewrite Hstep.
  - change (String "{" (w +:+ String "}" v) +:+ String "}" r)
      with (String "{" ((w +:+ String "}" v) +:+ String "}" r)) in *.
    rewrite append_assoc in *.
    change (String "}" v +:+ String "}" r)
      with (String "}" (v +:+ String "}" r)) in *.
    cbn [repeat hi_is_zero Nat.eqb andb].
    assert (Hstep : rmatch re_item
              (MState pv (String "{" (w +:+ String "}" (v +:+ String "}" r))) cs)
              (fun y =>
                 if same_pos
                      (MState pv
                         (String "{" (w +:+ String "}" (v +:+ String "}" r)))
                         cs) y
                 then None
                 else repeat (rmatch re_item) c fuel (Nat.pred 0)
                        (pred_hi None) y)
            = Some z).
    { unfold re_item.
      change (rmatch (Chr not_brace ∣ ?r2) ?x ?k)
        with (match rmatch (Chr not_brace) x k with
              | Some z' => Some z'
              | None => rmatch r2 x k
              end).
      change (rmatch (Chr not_brace)
                (MState pv (String "{" (w +:+ String "}" (v +:+ String "}" r))) cs)
                ?k)
        with (@None mstate).
      cbv iota.
      apply eval_seq, eval_chr; [done|].
      apply eval_seq, eval_run; [done|done|lia|].
      apply eval_chr; [done|].
      unfold same_pos. cbn [rest andb].
      assert (Hneq : String.length (v +:+ String "}" r)
                     ≠ String.length
                         (String "{" (w +:+ String "}" (v +:+ String "}" r)))).
      { cbn [String.length]. rewrite (length_append w).
        cbn [String.length]. lia. }
      rewrite (proj2 (Nat.eqb_neq _ _) Hneq).
      apply IH.
      - cbn [String.length] in Hfuel. rewrite (length_append w) in Hfuel.
        cbn [String.length] in Hfuel. lia.
      - cbn [last_or] in Hc. rewrite last_or_app in Hc. done. }
    by rewrite Hstep.
Qed.

(** *** One field *)

Lemma plain_name_inv (f : string) :
  plain_name f = true →
  Str.truthy f = true ∧ Str.all Char.is_word f = true
  ∧ Str.all not_upper f = true ∧ f ≠ "__proto__".
Proof.
  unfold plain_name.
  intros [[[H1 H2]%andb_prop H3]%andb_prop H4]%andb_prop.
  repeat split; try done.
  by apply negb_true_iff, bool_decide_eq_false in H4.
Qed.

Lemma plain_value_inv (v : string) :
  plain_value v = true →
  tight v = true ∧ items v ∧ quoted v = false.
Proof.
  unfold plain_value. intros [[H1 H2]%andb_prop H3]%andb_prop.
  repeat split; try done.
  - by apply depth1_items.
  - by apply negb_true_iff.
Qed.

(** The text after a field: nothing for the last field, and otherwise a
    comma and the rest of the body. *)
Definition after_field (last : bool) (more : string) : string :=
  if last then "" else String "," more.

Definition left_over (last : bool) (more : string) : string :=
  if last then "" else more.

Lemma item_match (f v more : string) (last : bool) (pv : option ascii) :
  plain_name f = true → plain_value v = true →
  ∃ pvf : option ascii,
    rmatch fieldRegex
      (MState pv (f +:+ " = {" +:+ v +:+ String "}" (after_field last more)) [])
      Some
    = Some (MState pvf (left_over last more)
              [(2, "{" +:+ v +:+ "}"); (1, f)]).
Proof.
  intros (Hf1 & Hf2 & _ & _)%plain_name_inv (_ & Hv & _)%plain_value_inv.
  destruct last; eexists; unfold fieldRegex;
    change (f +:+ " = {" +:+ v +:+ String "}" (after_field ?l more))
      with (f +:+ String " " (String "=" (String " "
              (String "{" (v +:+ String "}" (after_field l more))))));
    (apply eval_seq, eval_grp_run; [done|done|by apply truthy_length|]);
    (apply eval_seq, (eval_run _ _ " "); [done|done|simpl; lia|]);
    (apply eval_seq, eval_chr; [done|]);
    (apply eval_seq, (eval_run _ _ " "); [done|done|simpl; lia|]);
    apply eval_seq, eval_grp, eval_alt_l; unfold re_braced;
    (apply eval_seq, eval_chr; [done|]);
    apply eval_seq; fold re_item;
    change (rmatch (Star re_item) ?x ?c)
      with (repeat (rmatch re_item) c (enough 0 x) 0 None x);
    (apply star_items; [done|unfold enough; cbn [rest]; lia|]);
    (apply eval_chr; [done|]);
    unfold capture; cbn [prev rest caps];
    rewrite (take_length_minus ("{" +:+ v +:+ "}") (after_field _ more))
      by (simpl; by rewrite append_assoc);
    cbn [after_field left_over].
  - apply eval_seq, eval_skip; [done|].
    apply eval_opt_end. reflexivity.
  - apply eval_seq, eval_skip; [done|].
    apply eval_opt_take; [done|]. reflexivity.
Qed.

(** *** Finding the next field *)

Lemma search_here (r : regex) (pv : option ascii) (s : string) (m : found) :
  match_here r pv s = Some m → search r pv s = Some m.
Proof. intros H. destruct s; simpl; by rewrite H. Qed.

Definition prepend (u : string) (m : found) : found :=
  {| before := u +:+ before m; matched := matched m; final := final m |}.

Lemma field_needs_word (pv : option ascii) (s : string) :
  stops Char.is_word s = true → match_here fieldRegex pv s = None.
Proof.
  intros Hs. unfold match_here, fieldRegex, start.
  change (rmatch (Grp 1 (Plus (Chr Char.is_word)) ⋅ ?r) ?x ?c)
    with (rmatch (Rep 1 None (Chr Char.is_word)) x
            (fun y => rmatch r (capture 1 x y) c)).
  rewrite rmatch_rep_chr. cbn [prev rest caps].
  destruct s as [|a s]; [done|]. simpl in Hs.
  apply negb_true_iff in Hs. simpl. by rewrite Hs.
Qed.

Lemma search_skip (u s : string) :
  ∀ pv : option ascii,
    Str.all (non Char.is_word) u = true →
    search fieldRegex pv (u +:+ s)
    = prepend u <$> search fieldRegex (last_or pv u) s.
Proof.
  induction u as [|a u IH]; intros pv Hu.
  - simpl. by destruct (search fieldRegex pv s) as [[? ? ?]|].
  - cbn [Str.all] in Hu. apply andb_prop in Hu as [Ha Hu].
    change (String a u +:+ s) with (String a (u +:+ s)).
    unfold search; fold search.
    rewrite field_needs_word by (simpl; apply Ha).
    rewrite IH by done. cbn [last_or].
    by destruct (search fieldRegex (last_or (Some a) u) s).
Qed.

Lemma field_found (f v more : string) (last : bool) (pv : option ascii) :
  plain_name f = true → plain_value v = true →
  ∃ pvf : option ascii,
    search fieldRegex pv
      (f +:+ " = {" +:+ v +:+ String "}" (after_field last more))
    = Some {| before := "";
              matched := f +:+ " = {" +:+ v +:+ String "}"
                           (if last then "" else ",");
              final := MState pvf (left_over last more)
                         [(2, "{" +:+ v +:+ "}"); (1, f)] |}.
Proof.
  intros Hf Hv.
  destruct (item_match f v more last pv Hf Hv) as [pvf Hm].
  exists pvf.
  assert (Hh : match_here fieldRegex pv
                 (f +:+ " = {" +:+ v +:+ String "}" (after_field last more))
               = Some {| before := "";
                         matched := f +:+ " = {" +:+ v +:+ String "}"
                                      (if last then "" else ",");
                         final := MState pvf (left_over last more)
                                    [(2, "{" +:+ v +:+ "}"); (1, f)] |}).
  { unfold match_here, start. rewrite Hm. do 2 f_equal.
    apply take_length_minus. cbn [rest].
    destruct last; cbn [after_field left_over].
    - by rewrite append_nil_r.
    - symmetry. rewrite append_assoc. f_equal. simpl.
      by rewrite append_assoc. }
  by apply search_here.
Qed.

(** *** What one turn of the loop stores *)

Lemma map_not_upper (s : string) :
  Str.all not_upper s = true → Str.toLowerCase s = s.
Proof.
  unfold Str.toLowerCase. induction s as [|a s IH]; simpl; [done|].
  intros [Ha Hs]%andb_prop. rewrite (IH Hs). f_equal.
  unfold Char.toLowerCase. unfold not_upper in Ha.
  by apply negb_true_iff in Ha as ->.
Qed.

Lemma last_snoc (s : string) (b : ascii) :
  Str.last s = Some b → ∃ s', s = s' +:+ String b "".
Proof.
  induction s as [|a s IH]; [done|]. simpl.
  destruct s as [|a' s]; [intros [= ->]; by exists ""|].
  intros H. destruct (IH H) as [s' Hs]. exists (String a s').
  simpl. by rewrite <- Hs.
Qed.

Lemma word_not_space (c : ascii) :
  Char.is_word c = true → Char.is_space c = false.
Proof. destruct c as [[] [] [] [] [] [] [] []]; done. Qed.

Lemma last_nonempty (a : ascii) (s : string) : Str.last (String a s) ≠ None.
Proof. revert a. induction s as [|b s IH]; intros a; [done|apply (IH b)]. Qed.

Lemma trim_of_tight (s : string) : tight s = true → Str.trim s = s.
Proof.
  unfold tight. intros [H1 H2]%andb_prop.
  destruct s as [|a s]; [done|].
  destruct (Str.last (String a s)) as [b|] eqn:Hl.
  - apply (trim_tight _ a b).
    + by apply negb_true_iff in H1.
    + by apply negb_true_iff in H2.
    + by eexists.
    + by apply last_snoc.
  - by apply last_nonempty in Hl.
Qed.

Lemma slice_braces (v : string) :
  Str.slice_1_m1 ("{" +:+ v +:+ "}") = v.
Proof.
  unfold Str.slice_1_m1. simpl. rewrite length_append. simpl.
  replace (String.length v + 1 - 1) with (String.length v) by lia.
  apply take_app.
Qed.

Lemma parse_field_plain (acc : gmap string string) (m : found)
    (f v : string) :
  plain_name f = true → plain_value v = true →
  caps (final m) = [(2, "{" +:+ v +:+ "}"); (1, f)] →
  parse_field acc m = <[f := v]> acc.
Proof.
  intros (_ & _ & Hlow & Hproto)%plain_name_inv
         (Htight & _ & Hq)%plain_value_inv Hcaps.
  unfold parse_field, group. rewrite Hcaps. cbn [List.find fst snd Nat.eqb].
  rewrite (map_not_upper f Hlow).
  assert (Htrim : Str.trim ("{" +:+ v +:+ "}") = "{" +:+ v +:+ "}").
  { apply (trim_tight _ "{" "}"); try done.
    - by eexists.
    - exists ("{" +:+ v). by rewrite append_assoc. }
  rewrite Htrim. unfold strip_braces.
  assert (Str.startsWith "{" ("{" +:+ v +:+ "}") = true) as ->
    by (apply startsWith_one; by eexists).
  assert (Str.endsWith "}" ("{" +:+ v +:+ "}") = true) as ->.
  { apply endsWith_one. exists ("{" +:+ v). by rewrite append_assoc. }
  cbn [andb]. rewrite slice_braces, (trim_of_tight v Htight).
  unfold strip_quotes. fold (quoted v). rewrite Hq.
  unfold assign. by rewrite bool_decide_eq_false_2.
Qed.

(** *** All the fields *)

Section Body.
Context (val : string -> string).

Definition is_nil (l : list string) : bool :=
  match l with [] => true | _ => false end.

(** The body as the parser sees it: the lines joined, without the two
    spaces of the first. *)
Fixpoint body (names : list string) : string :=
  match names with
  | [] => ""
  | f :: names' =>
      f +:+ " = {" +:+ val f
        +:+ String "}" (after_field (is_nil names')
                          (LF +:+ "  " +:+ body names'))
  end.

Definition written (f : string) : string :=
  "  " +:+ f +:+ " = {" +:+ val f +:+ "}".

Lemma join_written (f : string) (names : list string) :
  Str.join ("," +:+ LF) (List.map written (f :: names))
  = "  " +:+ body (f :: names).
Proof.
  revert f. induction names as [|g names IH]; intros f.
  - done.
  - change (Str.join ("," +:+ LF) (List.map written (f :: g :: names)))
      with (written f +:+ ("," +:+ LF)
              +:+ Str.join ("," +:+ LF) (List.map written (g :: names))).
    rewrite IH. unfold written. cbn [body is_nil after_field].
    simpl. rewrite !append_assoc. simpl. by rewrite !append_assoc.
Qed.

Definition plain_field (f : string) : Prop :=
  plain_name f = true ∧ plain_value (val f) = true.

Definition gap (last : bool) : string :=
  if last then "" else LF +:+ "  ".

Lemma body_longer (f : string) (names : list string) :
  (String.length (gap (is_nil names) +:+ body names)
   < String.length (body (f :: names)))%nat.
Proof.
  cbn [body]. rewrite !length_append.
  destruct names as [|g names]; cbn [is_nil gap after_field].
  - simpl. lia.
  - cbn [String.length]. rewrite !length_append. simpl. lia.
Qed.

Lemma scan_fields (names : list string) :
  Forall plain_field names →
  ∀ (fuel : nat) (pv : option ascii) (u : string)
    (acc : gmap string string),
    Str.all (non Char.is_word) u = true →
    (String.length (u +:+ body names) < fuel)%nat →
    List.fold_left parse_field
      (fst (scan_go fuel fieldRegex pv (u +:+ body names))) acc
    = List.fold_left (fun F f => <[f := val f]> F) names acc.
Proof.
  induction 1 as [|f names [Hf Hv] Hnames IH];
    intros fuel pv u acc Hu Hfuel;
    (destruct fuel as [|fuel]; [lia|]).
  - cbn [body scan_go]. rewrite search_skip by done.
    change (search fieldRegex (last_or pv u) "") with (@None found).
    done.
  - cbn [body scan_go]. rewrite search_skip by done.
    destruct (field_found f (val f) (LF +:+ "  " +:+ body names)
                (is_nil names) (last_or pv u) Hf Hv) as [pvf ->].
    cbn [fmap option_fmap option_map prepend final matched before rest prev].
    destruct (plain_name_inv f Hf) as (Hne & _).
    destruct f as [|f0 f]; [done|].
    change (String f0 f +:+ ?x) with (String f0 (f +:+ x)).
    cbv iota.
    assert (Hrest : left_over (is_nil names) (LF +:+ "  " +:+ body names)
                    = gap (is_nil names) +:+ body names).
    { destruct names; [done|]. unfold gap, left_over. cbn [is_nil].
      by rewrite append_assoc. }
    rewrite Hrest.
    specialize (IH fuel pvf (gap (is_nil names))
                  (<[String f0 f := val (String f0 f)]> acc)).
    destruct (scan_go fuel fieldRegex pvf (gap (is_nil names) +:+ body names))
      as [ms tl].
    cbn [fst List.fold_left].
    rewrite (parse_field_plain acc _ (String f0 f) (val (String f0 f)))
      by done.
    apply IH.
    + by destruct (is_nil names).
    + rewrite length_append in Hfuel.
      pose proof (body_longer (String f0 f) names). lia.
Qed.

Lemma body_shape (f : string) (names : list string) :
  Forall plain_field (f :: names) →
  ∃ (b0 : ascii) (x : string),
    body (f :: names) = String b0 x +:+ "}" ∧ Char.is_space b0 = false.
Proof.
  revert f. induction names as [|g names IH]; intros f Hall.
  - apply Forall_inv in Hall as [Hf _].
    destruct (plain_name_inv f Hf) as (Hne & Hw & _).
    destruct f as [|f0 f]; [done|].
    exists f0, (f +:+ " = {" +:+ val (String f0 f)). split.
    + cbn [body is_nil after_field]. simpl. by rewrite !append_assoc.
    + cbn [Str.all] in Hw. apply andb_prop in Hw as [Hw _].
      by apply word_not_space.
  - pose proof (Forall_inv Hall) as [Hf _].
    apply Forall_inv_tail in Hall.
    destruct (IH g Hall) as (b0 & x & Hb & _).
    destruct (plain_name_inv f Hf) as (Hne & Hw & _).
    destruct f as [|f0 f]; [done|].
    exists f0, (f +:+ " = {" +:+ val (String f0 f)
                +:+ String "}" (String "," (LF +:+ "  " +:+ String b0 x))).
    split.
    + cbn [body is_nil after_field] in *. rewrite Hb.
      simpl. rewrite !append_assoc. simpl. by rewrite !append_assoc.
    + cbn [Str.all] in Hw. apply andb_prop in Hw as [Hw _].
      by apply word_not_space.
Qed.

End Body.

(** *** Reading back what was written *)

Lemma slice_from_app (w r s : string) :
  s = w +:+ r → Str.slice_from (String.length w) s = r.
Proof. intros ->. apply drop_app_length. Qed.

Lemma parse_serialize (val : string -> string) (ty key : string)
    (names : list string) :
  plain_type ty = true → plain_key key = true →
  Forall (plain_field val) names →
  parseEntry
    ("@" +:+ ty +:+ "{" +:+ key +:+ ("," +:+ LF)
       +:+ Str.join ("," +:+ LF) (List.map (written val) names)
       +:+ (LF +:+ "}" +:+ LF))
  = Some {| type := ty; key := key;
            fields := List.fold_left (fun F f => <[f := val f]> F) names ∅ |}.
Proof.
  intros Hty Hkey Hall. unfold parseEntry.
  set (J := Str.join ("," +:+ LF) (List.map (written val) names)).
  change ("@" +:+ ty +:+ "{" +:+ key +:+ ("," +:+ LF) +:+ J
            +:+ (LF +:+ "}" +:+ LF))
    with ("@" +:+ ty +:+ "{" +:+ key +:+ "," +:+ (LF +:+ J +:+ LF +:+ "}" +:+ LF)).
  destruct (head_match ty key (LF +:+ J +:+ LF +:+ "}" +:+ LF) Hty Hkey)
    as [pvf ->].
  unfold group. cbn [final caps matched List.find fst snd Nat.eqb].
  assert (Hlow : Str.toLowerCase ty = ty).
  { apply map_not_upper. unfold plain_type in Hty.
    by apply andb_prop in Hty as [_ ?]. }
  assert (Htrim : Str.trim key = key).
  { apply trim_of_tight. unfold plain_key in Hkey.
    by apply andb_prop in Hkey as [[_ ?]%andb_prop _]. }
  rewrite Hlow, Htrim.
  rewrite (slice_from_app _ (LF +:+ J +:+ LF +:+ "}" +:+ LF))
    by (by rewrite !append_assoc).
  replace (LF +:+ J +:+ LF +:+ "}" +:+ LF)
    with ((LF +:+ J +:+ LF) +:+ "}" +:+ LF)
    by (by rewrite !append_assoc).
  rewrite replace_close.
  do 2 f_equal.
  destruct names as [|f names].
  - reflexivity.
  - subst J. rewrite join_written.
    destruct (body_shape val f names Hall) as (b0 & x & Hb & Hb0).
    assert (Str.trim (LF +:+ ("  " +:+ body val (f :: names)) +:+ LF)
            = body val (f :: names)) as ->.
    { rewrite Hb. apply (trim_body b0 x Hb0). }
    unfold scan.
    apply (scan_fields val (f :: names) Hall _ None "" ∅); [done|].
    simpl. lia.
Qed.

Lemma fold_insert_lookup (val : string -> string) (names : list string) :
  ∀ (acc : gmap string string) (f : string),
    List.fold_left (fun F g => <[g := val g]> F) names acc !! f
    = if decide (f ∈ names) then Some (val f) else acc !! f.
Proof.
  induction names as [|g names IH]; intros acc f; simpl.
  - destruct (decide (f ∈ [])) as [H|]; [|done]. by apply elem_of_nil in H.
  - rewrite IH.
    destruct (decide (f ∈ names)) as [Hin | Hout].
    + destruct (decide (f ∈ g :: names)) as [|Hn]; [done|].
      exfalso. apply Hn. by right.
    + destruct (decide (f = g)) as [-> | Hne].
      * rewrite lookup_insert_eq.
        destruct (decide (g ∈ g :: names)) as [|Hn]; [done|].
        exfalso. apply Hn. by left.
      * rewrite lookup_insert_ne by done.
        destruct (decide (f ∈ g :: names)) as [Hin|]; [|done].
        apply elem_of_cons in Hin as [? | ?]; done.
Qed.

(** The fields read back are like the fields written. *)
Lemma read_back_alike (N : gmap string string) :
  alike
    (List.fold_left (fun F f => <[f := field f N]> F) (emitted N) ∅) N.
Proof.
  assert (Hem : ∀ f, f ∈ emitted N ↔
                     (f ∈ preferred ∧ field f N ≠ "")
                     ∨ (is_Some (N !! f) ∧ f ∉ preferred)).
  { intros f. unfold emitted. rewrite elem_of_app.
    destruct (extra_spec N) as (_ & _ & ->).
    rewrite list_elem_of_In, List.filter_In, <- list_elem_of_In.
    by rewrite truthy_true. }
  split; intros f.
  - unfold field at 1. rewrite fold_insert_lookup.
    destruct (decide (f ∈ emitted N)) as [Hin | Hout]; [done|].
    rewrite lookup_empty. simpl.
    destruct (decide (f ∈ preferred)) as [Hp | Hp].
    + destruct (decide (field f N = "")) as [-> | Hne]; [done|].
      exfalso. apply Hout, Hem. by left.
    + unfold field. destruct (N !! f) as [v|] eqn:Hv; [|done].
      exfalso. apply Hout, Hem. right. by split.
  - intros Hp. rewrite fold_insert_lookup.
    destruct (decide (f ∈ emitted N)) as [Hin | Hout].
    + apply Hem in Hin as [[? _] | [[v Hv] _]]; [done|].
      by rewrite Hv, (field_lookup _ _ _ Hv).
    + rewrite lookup_empty.
      destruct (N !! f) as [v|] eqn:Hv; [|done].
      exfalso. apply Hout, Hem. right. by split.
Qed.

End Eval.

(** C1, as the program has it. Let the entry [e] be of 7-bit text, where
    the white space and the letters of this development are those of the
    program, and plain: its type is a
    non-empty run of lower-case word characters, its key is non-empty,
    without a comma and without white space at its ends, and every field
    that formatting writes has a lower-case word name other than
    [__proto__] and a value, after normalisation, without white space at
    its ends, with braces balanced and nested at most one deep, and not
    wrapped in double quotes.  Let, further, the author normaliser and the
    title formatter leave the normalised author list and title of [e] as
    they are.  Then the text written for [e] is parsed back, and
    formatting the parsed entry gives that text again; so does
    formatting [e] a second time. *)
Theorem C1_format_reparse (opts : options) (e : entry) :
  ascii_entry e = true →
  plain_entry opts e = true →
  normalizeAuthorsStrict opts (field "author" (normalize opts (fields e)))
  = field "author" (normalize opts (fields e)) →
  latexifyMaterialsInTitle (field "title" (normalize opts (fields e)))
  = field "title" (normalize opts (fields e)) →
  ∃ e' : entry,
    parseEntry (formatEntry opts e) = Some e'
    ∧ formatEntry opts e' = formatEntry opts e
    ∧ formatEntry opts (formatted opts e) = formatEntry opts e.
Proof.
  intros _ Hplain HA HT.
  set (N := normalize opts (fields e)) in *.
  unfold plain_entry in Hplain. fold N in Hplain.
  apply andb_prop in Hplain as [[Hty Hkey]%andb_prop Hall].
  assert (Hfields : Forall (Eval.plain_field (fun f => field f N)) (emitted N)).
  { apply Forall_forall. intros f Hf.
    rewrite List.forallb_forall in Hall.
    apply list_elem_of_In, Hall, andb_prop in Hf. done. }
  assert (Hdoi : Str.trim (field "doi" N) = field "doi" N).
  { destruct (field "doi" N) as [|a d] eqn:Hd; [done|].
    rewrite <- Hd. apply Eval.trim_of_tight.
    assert (Hin : "doi" ∈ emitted N).
    { unfold emitted. apply elem_of_app. left.
      apply list_elem_of_In, List.filter_In. split.
      - unfold preferred. simpl. tauto.
      - by rewrite Hd. }
    rewrite Forall_forall in Hfields.
    destruct (Hfields _ Hin) as [_ Hv].
    by apply Eval.plain_value_inv in Hv as [? _]. }
  assert (Hagain : normalize opts N = N) by (by apply normalize_again).
  eexists. split; [|split].
  - unfold formatEntry, serialize. fold N. rewrite lines_emitted.
    apply (Eval.parse_serialize (fun f => field f N)); done.
  - unfold formatEntry at 1. cbn [type key fields].
    unfold formatEntry. fold N.
    apply serialize_alike.
    rewrite <- Hagain at 2.
    apply normalize_alike, Eval.read_back_alike.
  - unfold formatEntry, formatted. cbn [type key fields]. fold N.
    by rewrite Hagain.
Qed.

Lemma C1_format_reparse_witness :
  ∃ e' : entry,
    parseEntry (formatEntry (Options true true true) Sample.paper) = Some e'
    ∧ formatEntry (Options true true true) e'
      = formatEntry (Options true true true) Sample.paper
    ∧ formatEntry (Options true true true)
        (formatted (Options true true true) Sample.paper)
      = formatEntry (Options true true true) Sample.paper.
Proof.
  apply (C1_format_reparse (Options true true true) Sample.paper);
    vm_compute; reflexivity.
Defined.

(** C1 fails as stated: an entry that [parseEntry] accepts, whose value
    holds a closing brace, is written as a text that is read back as
    another entry, and formatting that entry gives another text. *)
Lemma C1_reparse_changes_text :
  ∃ e e' : entry,
    parseEntry ("@a{k, x = " +:+ String Char.dquote "a}"
                  +:+ String Char.dquote "}") = Some e
    ∧ formatEntry (Options false false false) e
      = "@a{k," +:+ LF +:+ "  x = {a}}" +:+ LF +:+ "}" +:+ LF
    ∧ parseEntry (formatEntry (Options false false false) e) = Some e'
    ∧ formatEntry (Options false false false) e'
      = "@a{k," +:+ LF +:+ "  x = {a}" +:+ LF +:+ "}" +:+ LF
    ∧ formatEntry (Options false false false) e'
      ≠ formatEntry (Options false false false) e
    ∧ formatEntry (Options false false false) e'
      ≠ formatEntry (Options false false false)
          (formatted (Options false false false) e).
Proof.
  eexists. eexists.
  split; [vm_compute; reflexivity|]. split; [vm_compute; reflexivity|].
  split; [vm_compute; reflexivity|]. split; [vm_compute; reflexivity|].
  split; vm_compute; discriminate.
Qed.

(** Another way C1 fails: a family name of several words is kept by the
    comma form and initialed by the space form, so the normalised author
    list is not stable. *)
Lemma C1_family_name_of_several_words :
  ∃ e e' : entry,
    parseEntry "@a{k, author = {van der Waals, Johannes}}" = Some e
    ∧ formatEntry (Options false false false) e
      = "@a{k," +:+ LF +:+ "  author = {J van der Waals}" +:+ LF +:+ "}" +:+ LF
    ∧ parseEntry (formatEntry (Options false false false) e) = Some e'
    ∧ formatEntry (Options false false false) e'
      = "@a{k," +:+ LF +:+ "  author = {J V D Waals}" +:+ LF +:+ "}" +:+ LF.
Proof.
  eexists. eexists.
  split; [vm_compute; reflexivity|]. split; [vm_compute; reflexivity|].
  split; [vm_compute; reflexivity|]. vm_compute. reflexivity.
Qed.

(** And a third: the text written for an entry with an empty key is not
    parsed back at all. *)
Lemma C1_empty_key_not_read_back :
  ∃ e : entry,
    parseEntry "@a{ ,x={1}}" = Some e
    ∧ parseEntry (formatEntry (Options false false false) e) = None.
Proof.
  eexists. split; [vm_compute; reflexivity|]. vm_compute. reflexivity.
Qed.

(** * More of the program *)

(** ** What [trim] returns *)

Section Trimmed.
Import Regex RegexFacts.

Lemma last_app_one (s : string) (b : ascii) :
  Str.last (s +:+ String b "") = Some b.
Proof.
  induction s as [|a s IH]; [done|].
  change (String a s +:+ String b "") with (String a (s +:+ String b "")).
  cbn [Str.last]. rewrite IH. by destruct s.
Qed.

Lemma last_rev (s : string) : Str.last (String.rev s) = Str.head s.
Proof.
  destruct s as [|a s]; [done|]. by rewrite rev_cons, last_app_one.
Qed.

Lemma head_rev (s : string) : Str.head (String.rev s) = Str.last s.
Proof. by rewrite <- last_rev, rev_involutive. Qed.

Lemma last_dropWhile (p : ascii -> bool) (s : string) :
  Str.dropWhile p s ≠ "" → Str.last (Str.dropWhile p s) = Str.last s.
Proof.
  induction s as [|a s IH]; [done|]. simpl.
  destruct (p a); [|done]. intros H. rewrite (IH H).
  destruct s; [done|done].
Qed.

Lemma head_dropWhile (p : ascii -> bool) (s : string) (a : ascii) :
  Str.head (Str.dropWhile p s) = Some a → p a = false.
Proof.
  destruct (Str.dropWhile p s) as [|b r] eqn:H; [done|].
  intros [= ->]. by eapply dropWhile_head.
Qed.

(** The text [trim] returns has no white space at either end. *)
Lemma tight_trim (s : string) : tight (Str.trim s) = true.
Proof.
  unfold tight, Str.trim, Str.trimEnd, Str.trimStart.
  remember (Str.dropWhile Char.is_space s) as x eqn:Ex.
  remember (Str.dropWhile Char.is_space (String.rev x)) as z eqn:Ez0.
  rewrite head_rev, last_rev.
  assert (Hz : is_space_opt (Str.head z) = false).
  { destruct (Str.head z) as [a|] eqn:H; [|done].
    simpl. rewrite Ez0 in H. by eapply head_dropWhile. }
  rewrite Hz, andb_true_r.
  destruct z as [|b z']; [done|].
  assert (Hl : Str.last (String b z') = Str.last (String.rev x)).
  { rewrite Ez0. apply last_dropWhile. by rewrite <- Ez0. }
  rewrite Hl, last_rev.
  destruct (Str.head x) as [a|] eqn:H; [|done].
  simpl. apply negb_true_iff. rewrite Ex in H. by eapply head_dropWhile.
Qed.

Lemma trim_idem (s : string) : Str.trim (Str.trim s) = Str.trim s.
Proof. apply Eval.trim_of_tight, tight_trim. Qed.

Lemma dropWhile_all (p : ascii -> bool) (s : string) :
  Str.all p s = true → Str.dropWhile p s = "".
Proof.
  induction s as [|a s IH]; [done|]. simpl.
  intros [-> Hs]%andb_prop. by apply IH.
Qed.

Lemma trim_blank (s : string) :
  Str.all Char.is_space s = true → Str.trim s = "".
Proof.
  intros H. unfold Str.trim, Str.trimStart. by rewrite dropWhile_all.
Qed.

(** A part of a text keeps what holds of all its characters. *)
Lemma all_trim (q : ascii -> bool) (s : string) :
  Str.all q s = true → Str.all q (Str.trim s) = true.
Proof.
  intros H. destruct (DoiFacts.trim_decompose s) as (l & r & Hs & _ & _).
  rewrite Hs, !DoiFacts.all_app in H.
  apply andb_prop in H as [_ H]. by apply andb_prop in H as [H _].
Qed.

End Trimmed.

(** ** Case *)

Lemma lower_lower (c : ascii) :
  Char.toLowerCase (Char.toLowerCase c) = Char.toLowerCase c.
Proof. destruct c as [[] [] [] [] [] [] [] []]; reflexivity. Qed.

Lemma toLowerCase_idem (s : string) :
  Str.toLowerCase (Str.toLowerCase s) = Str.toLowerCase s.
Proof.
  unfold Str.toLowerCase. induction s as [|a s IH]; simpl; [done|].
  by rewrite lower_lower, IH.
Qed.

(** ** The DOI and URL steps, run again *)

Section DoiSteps.
Context (opts : options).

Lemma enforce_url_idem (Y : gmap string string) :
  enforce_url opts (enforce_url opts Y) = enforce_url opts Y.
Proof.
  destruct (enforceDoiUrl opts && Str.truthy (field "doi" Y)) eqn:Hc.
  - apply enforce_url_after. unfold enforce_url. rewrite Hc.
    rewrite !field_insert. simpl. apply trim_idem.
  - assert (E : enforce_url opts Y = Y)
      by (unfold enforce_url; by rewrite Hc).
    by rewrite !E.
Qed.

End DoiSteps.

(** X8. Each of the two DOI steps of [formatEntry] is idempotent, and so is
    their sequence: on fields that have gone through extraction and
    enforcement, extraction and enforcement change nothing. *)
Theorem doi_steps_idempotent (opts : options) (F : gmap string string) :
  extract_doi opts (extract_doi opts F) = extract_doi opts F
  ∧ enforce_url opts (enforce_url opts F) = enforce_url opts F
  ∧ enforce_url opts
      (extract_doi opts (enforce_url opts (extract_doi opts F)))
    = enforce_url opts (extract_doi opts F).
Proof.
  split; [apply extract_doi_idem|]. split; [apply enforce_url_idem|].
  rewrite extract_doi_after. apply enforce_url_idem.
Qed.

(** ** An author field of white space *)

Section Blank.
Import Regex RegexFacts.

Lemma space_not_a (b : ascii) :
  Char.is_space b = true → Char.just_i "a" b = false.
Proof. destruct b as [[] [] [] [] [] [] [] []]; done. Qed.

Lemma and_here_blank (pv : option ascii) (s : string) :
  Str.all Char.is_space s = true → match_here re_and pv s = None.
Proof.
  intros Hs. unfold match_here, re_and, start, Plus.
  match goal with
  | |- context [rmatch (Rep 1 None ?r ⋅ ?R)%re ?x ?c] =>
      change (rmatch (Rep 1 None r ⋅ R)%re x c)
        with (rmatch (Rep 1 None r) x (fun y => rmatch R y c))
  end.
  rewrite rmatch_rep_chr. cbn [prev rest caps].
  rewrite greedy_none; [done|].
  intros w r -> Hw. rewrite DoiFacts.all_app in Hs.
  apply andb_prop in Hs as [_ Hr].
  destruct r as [|b r]; [done|]. simpl in Hr.
  apply andb_prop in Hr as [Hb _].
  cbn [rmatch rest]. by rewrite (space_not_a b Hb).
Qed.

Lemma and_search_blank (s : string) :
  ∀ pv : option ascii,
    Str.all Char.is_space s = true → search re_and pv s = None.
Proof.
  induction s as [|a s IH]; intros pv Hs.
  - reflexivity.
  - unfold search; fold search. rewrite (and_here_blank pv _ Hs).
    simpl in Hs. apply andb_prop in Hs as [_ Hs]. by rewrite IH.
Qed.

Lemma authors_of_blank (s : string) :
  Str.all Char.is_space s = true →
  Str.filter_Boolean (List.map Str.trim (split re_and s)) = [].
Proof.
  intros Hs. destruct s as [|a s]; [reflexivity|].
  rewrite split_no_match; [|done|by apply and_search_blank].
  cbn [List.map]. by rewrite trim_blank.
Qed.

End Blank.

(** X5. An author field that holds nothing but white space is normalised to
    the empty text, by the strict normaliser and by the first version
    alike. *)
Theorem blank_author_field (opts : options) (s : string) :
  Str.all Char.is_space s = true →
  normalizeAuthorsStrict opts s = ""
  ∧ Mvp.normalizeAuthors opts s = "".
Proof.
  intros Hs. unfold normalizeAuthorsStrict, Mvp.normalizeAuthors.
  rewrite (authors_of_blank s Hs). split; [done|].
  cbn [List.map Str.join]. by destruct (noDots opts).
Qed.

Lemma blank_author_field_witness :
  normalizeAuthorsStrict (Options true true true) (String " " LF) = ""
  ∧ Mvp.normalizeAuthors (Options true true true) (String " " LF) = "".
Proof.
  apply (blank_author_field (Options true true true) (String " " LF)).
  reflexivity.
Defined.

(** ** The citation key of an adapted record *)

Section AdapterKey.
Import Regex RegexFacts.

Lemma squeeze_go_removed (p : ascii -> bool) (s : string) :
  ∀ inrun : bool, Str.all (non p) (squeeze_go p "" inrun s) = true.
Proof.
  induction s as [|a s IH]; intros inrun; simpl; [done|].
  destruct (p a) eqn:Hp.
  - destruct inrun; apply IH.
  - simpl. unfold non at 1. rewrite Hp. apply IH.
Qed.

End AdapterKey.

(** X16. The citation key that [crossrefToBibEntry] makes up holds no white
    space, whatever the family name, the year and the title it is built
    from. *)
Theorem adapter_key_without_space (msg : Crossref.message) :
  Str.all (fun c => negb (Char.is_space c)) (key (crossrefToBibEntry msg))
  = true.
Proof.
  unfold crossrefToBibEntry. cbn [key]. unfold re_spaces.
  rewrite RegexFacts.replace_all_plus. apply squeeze_go_removed.
Qed.

(** ** Replacing every character of a class *)

Section Subst.
Import Regex RegexFacts.

Lemma match_here_chr (p : ascii -> bool) (pv : option ascii) (s : string) :
  match_here (Chr p) pv s
  = match s with
    | String a s' =>
        if p a
        then Some {| before := ""; matched := String a "";
                     final := MState (Some a) s' [] |}
        else None
    | "" => None
    end.
Proof.
  unfold match_here, start. destruct s as [|a s]; [done|].
  cbn [rmatch rest]. destruct (p a); [|done].
  unfold advance. cbn [rest caps]. do 2 f_equal.
  by apply take_length_minus.
Qed.

Lemma search_chr (p : ascii -> bool) (s : string) :
  ∀ pv : option ascii,
    search (Chr p) pv s
    = match Str.dropWhile (non p) s with
      | "" => None
      | String a s' =>
          Some {| before := takeWhile (non p) s; matched := String a "";
                  final := MState (Some a) s' [] |}
      end.
Proof.
  induction s as [|a s IH]; intros pv.
  - done.
  - unfold search; fold search. rewrite match_here_chr.
    destruct (p a) eqn:Hp.
    + by rewrite (non_cons_true p a s Hp), (non_cons_true' p a s Hp).
    + rewrite (non_cons_false p a s Hp), (non_cons_false' p a s Hp), IH.
      by destruct (Str.dropWhile (non p) s).
Qed.

Lemma replace_chars_unfold (p : ascii -> bool) (t s : string) :
  replace_chars p t s
  = match Str.dropWhile (non p) s with
    | "" => s
    | String a s' => takeWhile (non p) s +:+ t +:+ replace_chars p t s'
    end.
Proof.
  induction s as [|a s IH]; [done|].
  destruct (p a) eqn:Hp.
  - rewrite (non_cons_true p a s Hp), (non_cons_true' p a s Hp).
    simpl. by rewrite Hp.
  - rewrite (non_cons_false p a s Hp), (non_cons_false' p a s Hp).
    simpl. rewrite Hp, IH.
    by destruct (Str.dropWhile (non p) s).
Qed.

Lemma length_after_dropWhile (p : ascii -> bool) (s : string) (a : ascii)
    (s' : string) :
  Str.dropWhile p s = String a s' →
  (String.length s' < String.length s)%nat.
Proof.
  intros H. pose proof (length_dropWhile p s) as Hle.
  rewrite H in Hle. simpl in Hle. lia.
Qed.

Lemma replace_go_chr (p : ascii -> bool) (t : string) (fuel : nat) :
  ∀ (s : string) (pv : option ascii),
    (String.length s < fuel)%nat →
    replace_go fuel (Chr p) (const t) pv s = replace_chars p t s.
Proof.
  induction fuel as [|fuel IH]; intros s pv Hlen; [lia|].
  unfold replace_go. simpl scan_go. rewrite search_chr, replace_chars_unfold.
  destruct (Str.dropWhile (non p) s) as [|a s'] eqn:Hd; [done|].
  cbn [final matched rest prev].
  pose proof (length_after_dropWhile _ _ _ _ Hd) as Hlt.
  specialize (IH s' (Some a)). unfold replace_go in IH.
  destruct (scan_go fuel (Chr p) (Some a) s') as [ms tl].
  rewrite <- IH by lia. done.
Qed.

(** Replacing every match of a one-character class by a constant. *)
Lemma replace_all_chr (p : ascii -> bool) (t s : string) :
  replace_all (Chr p) (const t) s = replace_chars p t s.
Proof. rewrite replace_all_go. apply replace_go_chr. lia. Qed.

Lemma replace_chars_removed (p : ascii -> bool) (s : string) :
  Str.all (non p) (replace_chars p "" s) = true.
Proof.
  induction s as [|a s IH]; simpl; [done|].
  destruct (p a) eqn:Hp; [done|]. simpl. unfold non at 1. by rewrite Hp.
Qed.

Lemma replace_chars_absent (p : ascii -> bool) (t s : string) :
  Str.all (non p) s = true → replace_chars p t s = s.
Proof.
  induction s as [|a s IH]; simpl; [done|].
  intros [Ha Hs]%andb_prop. unfold non in Ha.
  apply negb_true_iff in Ha as ->. by rewrite IH.
Qed.

Lemma all_squeeze_go (q p : ascii -> bool) (t s : string) :
  Str.all q t = true → Str.all q s = true →
  ∀ inrun : bool, Str.all q (squeeze_go p t inrun s) = true.
Proof.
  intros Ht. induction s as [|a s IH]; intros Hs inrun; simpl; [done|].
  simpl in Hs. apply andb_prop in Hs as [Ha Hs].
  destruct (p a).
  - rewrite DoiFacts.all_app, (IH Hs), andb_true_r. by destruct inrun.
  - simpl. by rewrite Ha, (IH Hs).
Qed.

Lemma all_join (q : ascii -> bool) (sep : string) (l : list string) :
  Str.all q sep = true → Forall (fun x => Str.all q x = true) l →
  Str.all q (Str.join sep l) = true.
Proof.
  intros Hsep. induction 1 as [|x l Hx Hl IH]; [done|].
  destruct l as [|y l]; [done|].
  change (Str.join sep (x :: y :: l))
    with (x +:+ sep +:+ Str.join sep (y :: l)).
  by rewrite !DoiFacts.all_app, Hx, Hsep, IH.
Qed.

End Subst.

(** ** Periods and commas in a normalised name *)

Lemma startsWith_head (b a : ascii) (s s' : string) :
  Str.startsWith (String b "") (String a s)
  = Str.startsWith (String b "") (String a s').
Proof.
  unfold Str.startsWith. cbn [String.prefix].
  destruct (ascii_dec b a); [by destruct s, s'|done].
Qed.

Section Periods.
Import Regex RegexFacts.

(** Neither a period nor a comma. *)
Definition plain_char (c : ascii) : bool :=
  negb (Char.just "." c || Char.just "," c).

Definition plain_text (s : string) : Prop := Str.all plain_char s = true.

Lemma cleanToken_plain (t : string) : plain_text (cleanToken t).
Proof.
  unfold plain_text, cleanToken, re_dot_or_comma.
  rewrite replace_all_chr. apply all_trim.
  apply (replace_chars_removed (fun c => Char.just "." c || Char.just "," c)).
Qed.

Lemma upper_plain (a : ascii) :
  plain_char a = true → plain_char (Char.toUpperCase a) = true.
Proof. destruct a as [[] [] [] [] [] [] [] []]; done. Qed.

Lemma initial_plain (p : string) : plain_text p → plain_text (initial p).
Proof.
  unfold plain_text. destruct p as [|a p]; [done|]. simpl.
  intros [Ha _]%andb_prop. by rewrite upper_plain.
Qed.

Lemma tokens_plain (l : list string) :
  Forall plain_text (Str.filter_Boolean (List.map cleanToken l)).
Proof.
  apply Forall_forall. intros t Ht.
  apply list_elem_of_In, filter_In in Ht as [Ht _].
  apply in_map_iff in Ht as (x & <- & _). apply cleanToken_plain.
Qed.

Lemma initials_plain (l : list string) :
  Forall plain_text l → Forall plain_text (List.map initial l).
Proof.
  induction 1 as [|x l Hx Hl IH]; simpl; constructor; [|done].
  by apply initial_plain.
Qed.

Lemma filter_plain (l : list string) :
  Forall plain_text l → Forall plain_text (Str.filter_Boolean l).
Proof.
  intros H. apply Forall_forall. intros t Ht.
  apply list_elem_of_In, filter_In in Ht as [Ht _].
  rewrite Forall_forall in H. by apply H, list_elem_of_In.
Qed.

Lemma makeInitials_plain (given : string) :
  plain_text (makeInitialsFromGiven given).
Proof.
  unfold makeInitialsFromGiven. apply all_join; [done|].
  apply initials_plain, tokens_plain.
Qed.

Lemma removelast_plain (l : list string) :
  Forall plain_text l → Forall plain_text (List.removelast l).
Proof.
  induction 1 as [|x l Hx Hl IH]; simpl; [done|].
  destruct l; [done|]. by constructor.
Qed.

Lemma last_or_undefined_plain (l : list string) :
  Forall plain_text l → plain_text (last_or_undefined l).
Proof.
  unfold last_or_undefined.
  induction 1 as [|x l Hx Hl IH]; [done|].
  destruct l as [|y l]; [done|]. exact IH.
Qed.

Lemma plain_no_period (s : string) :
  plain_text s → Str.all (non (Char.just ".")) s = true.
Proof.
  apply DoiFacts.all_impl. intros a. unfold plain_char, non.
  by destruct (Char.just "." a).
Qed.

(** The tail of both branches, on initials and a family name without
    periods: the removal of periods finds none. *)
Lemma finish_plain (opts : options) (initials family : string) :
  plain_text initials → plain_text family →
  finish opts initials family
  = replace_all re_spaces (const " ")
      (Str.trim (initials +:+ " " +:+ family))
  ∧ plain_text (finish opts initials family).
Proof.
  intros Hi Hf.
  assert (Hout : plain_text
                   (replace_all re_spaces (const " ")
                      (Str.trim (initials +:+ " " +:+ family)))).
  { unfold re_spaces. rewrite replace_all_plus.
    apply all_squeeze_go; [done|]. apply all_trim.
    unfold plain_text in *. by rewrite !DoiFacts.all_app, Hi, Hf. }
  assert (E : finish opts initials family
              = replace_all re_spaces (const " ")
                  (Str.trim (initials +:+ " " +:+ family))).
  { unfold finish. destruct (noDots opts); [|done].
    unfold re_dot. rewrite replace_all_chr.
    by apply replace_chars_absent, plain_no_period. }
  split; [done|]. by rewrite E.
Qed.

(** What a name that is not returned as it stands is normalised to. *)
Definition initialed (opts : options) (n : string) : string :=
  if Str.includes "," n then
    let pieces :=
      Str.filter_Boolean (List.map Str.trim (split_str "," n)) in
    finish opts (makeInitialsFromGiven (Str.join " " (List.tl pieces)))
      (cleanToken (List.hd "" pieces))
  else
    let tokens :=
      Str.filter_Boolean
        (List.map cleanToken
           (split re_spaces (replace_all re_dot (const " ") n))) in
    match tokens with
    | [t] => t
    | _ =>
        finish opts
          (Str.join " "
             (Str.filter_Boolean (List.map initial (List.removelast tokens))))
          (last_or_undefined tokens)
    end.

Lemma initialed_plain (opts : options) (n : string) :
  plain_text (initialed opts n)
  ∧ ∀ opts' : options, initialed opts n = initialed opts' n.
Proof.
  unfold initialed. destruct (Str.includes "," n).
  - pose proof (makeInitials_plain
                  (Str.join " "
                     (List.tl (Str.filter_Boolean
                                 (List.map Str.trim (split_str "," n))))))
      as Hi.
    pose proof (cleanToken_plain
                  (List.hd "" (Str.filter_Boolean
                                 (List.map Str.trim (split_str "," n)))))
      as Hf.
    split; [by apply finish_plain|].
    intros opts'.
    destruct (finish_plain opts _ _ Hi Hf) as [-> _].
    by destruct (finish_plain opts' _ _ Hi Hf) as [-> _].
  - pose proof (tokens_plain
                  (split re_spaces (replace_all re_dot (const " ") n)))
      as Ht.
    remember (Str.filter_Boolean
                (List.map cleanToken
                   (split re_spaces (replace_all re_dot (const " ") n))))
      as tokens eqn:E. clear E.
    assert (Hi : plain_text
                   (Str.join " "
                      (Str.filter_Boolean
                         (List.map initial (List.removelast tokens))))).
    { apply all_join; [done|].
      by apply filter_plain, initials_plain, removelast_plain. }
    pose proof (last_or_undefined_plain tokens Ht) as Hf.
    assert (Hfin : plain_text
                     (finish opts
                        (Str.join " "
                           (Str.filter_Boolean
                              (List.map initial (List.removelast tokens))))
                        (last_or_undefined tokens))
                   ∧ ∀ opts' : options,
                       finish opts
                         (Str.join " "
                            (Str.filter_Boolean
                               (List.map initial (List.removelast tokens))))
                         (last_or_undefined tokens)
                       = finish opts'
                           (Str.join " "
                              (Str.filter_Boolean
                                 (List.map initial (List.removelast tokens))))
                           (last_or_undefined tokens)).
    { split; [by apply finish_plain|]. intros opts'.
      destruct (finish_plain opts _ _ Hi Hf) as [-> _].
      by destruct (finish_plain opts' _ _ Hi Hf) as [-> _]. }
    destruct tokens as [|t [|t' tokens]]; [done| |done].
    split; [|done]. by apply Forall_inv in Ht.
Qed.

Lemma normalizeOneAuthorStrict_cases (opts : options) (rawName : string) :
  normalizeOneAuthorStrict opts rawName
  = let n := Str.trim rawName in
    if negb (Str.truthy n) then "" else
    let n := replace_all re_spaces (const " ") n in
    if Str.startsWith "{" n && Str.endsWith "}" n then n
    else initialed opts n.
Proof. reflexivity. Qed.

Lemma one_author_any_option (o1 o2 : options) (n : string) :
  normalizeOneAuthorStrict o1 n = normalizeOneAuthorStrict o2 n.
Proof.
  rewrite !normalizeOneAuthorStrict_cases. cbv zeta.
  destruct (negb _); [done|]. destruct (_ && _); [done|].
  apply initialed_plain.
Qed.

End Periods.

(** X4. The check box for periods has no effect on the strict author
    normaliser: with the box checked or not, an author field is
    normalised to the same text (the tokens of a name have lost their
    periods before the box is looked at, and a name in braces is
    returned without looking at it). *)
Theorem strict_normaliser_ignores_period_option (o1 o2 : options)
    (authorField : string) :
  normalizeAuthorsStrict o1 authorField
  = normalizeAuthorsStrict o2 authorField.
Proof.
  unfold normalizeAuthorsStrict. f_equal.
  apply map_ext. intros n. apply one_author_any_option.
Qed.

(** X3. A name whose first character, white space apart, is not an opening
    brace is normalised by the strict normaliser to a text without
    period and without comma, whatever the options. *)
Theorem strict_name_without_period (opts : options) (rawName : string) :
  Str.startsWith "{" (Str.trim rawName) = false →
  Str.all (fun c => negb (Char.just "." c || Char.just "," c))
    (normalizeOneAuthorStrict opts rawName) = true.
Proof.
  intros Hb. rewrite normalizeOneAuthorStrict_cases. cbv zeta.
  pose proof (tight_trim rawName) as Ht.
  destruct (Str.trim rawName) as [|a r] eqn:En; [done|].
  cbn [Str.truthy negb].
  assert (Hs : Str.startsWith "{"
                 (Regex.replace_all re_spaces (const " ") (String a r))
               = false).
  { unfold re_spaces. rewrite RegexFacts.replace_all_plus.
    unfold tight in Ht. simpl in Ht.
    apply andb_prop in Ht as [Ha _]. apply negb_true_iff in Ha.
    unfold squeeze. cbn [squeeze_go]. rewrite Ha.
    by rewrite (startsWith_head _ _ _ r). }
  rewrite Hs. cbn [andb]. apply initialed_plain.
Qed.

Lemma strict_name_without_period_witness :
  Str.all (fun c => negb (Char.just "." c || Char.just "," c))
    (normalizeOneAuthorStrict (Options false true true) "Einstein, A.")
  = true.
Proof.
  apply (strict_name_without_period (Options false true true)
           "Einstein, A.").
  reflexivity.
Defined.

(** ** Splitting a file into entries *)

(** The pieces [split] cuts a text into at the places where an entry
    starts; [cur] is the piece being gathered. *)
Fixpoint cut_go (cur : string) (s : string) : list string :=
  match s with
  | "" => [cur]
  | String a s' =>
      if at_entry s && Str.truthy cur
      then cur :: cut_go (String a "") s'
      else cut_go (cur +:+ String a "") s'
  end.

Section SplitFacts.
Import Regex RegexFacts.

Lemma split_by_go_rmatch (r : regex) (fuel : nat) :
  ∀ (cur : string) (pv : option ascii) (s : string),
    split_by_go fuel (rmatch r) cur pv s = split_go fuel r cur pv s.
Proof.
  induction fuel as [|fuel IH]; intros cur pv s; [done|].
  simpl. destruct s as [|a s]; [done|].
  destruct (rmatch r _ Some); [|by rewrite IH].
  destruct (_ || _); by rewrite IH.
Qed.

(** Splitting by the matcher of an expression is [split]. *)
Lemma split_by_rmatch (r : regex) (s : string) :
  split_by (rmatch r) s = split r s.
Proof. destruct s; [done|]. apply split_by_go_rmatch. Qed.

Lemma rmatch_plus_some (p : ascii -> bool) (pv : option ascii) (s : string) :
  rmatch (Plus (Chr p)) (start pv s) Some
  = match s with
    | String b _ =>
        if p b
        then Some (MState (last_or pv (takeWhile p s)) (Str.dropWhile p s) [])
        else None
    | "" => None
    end.
Proof.
  pose proof (match_here_plus p pv s) as H. unfold match_here in H.
  destruct (rmatch (Plus (Chr p)) (start pv s) Some) as [y|];
    destruct s as [|b s]; try done; destruct (p b); try done.
  by injection H as _ ->.
Qed.

Lemma ahead_at_word (pv : option ascii) (s : string) :
  ahead re_at_word (start pv s) Some
  = if at_entry s then Some (start pv s) else None.
Proof.
  unfold ahead, re_at_word. destruct s as [|a s]; [done|].
  cbn [rmatch rest start]. destruct (Char.just "@" a) eqn:Ha.
  2:{ destruct s; [done|]. cbn [at_entry]. by rewrite Ha. }
  change (advance a s (start pv (String a s))) with (start (Some a) s).
  rewrite rmatch_plus_some. destruct s as [|b s]; [done|].
  cbn [at_entry]. rewrite Ha. by destruct (Char.is_word b).
Qed.

Lemma split_by_go_cut (s : string) :
  ∀ (fuel : nat) (cur : string) (pv : option ascii),
    (2 * String.length s < fuel)%nat →
    split_by_go fuel (ahead re_at_word) cur pv s = cut_go cur s.
Proof.
  induction s as [|a s IH]; intros fuel cur pv Hfuel;
    (destruct fuel as [|fuel]; [lia|]); [done|].
  cbn [split_by_go cut_go]. rewrite ahead_at_word.
  simpl in Hfuel.
  destruct (at_entry (String a s)) eqn:He;
    [|by rewrite IH by lia].
  unfold same_pos. cbn [start rest prev]. rewrite Nat.eqb_refl.
  cbn [negb]. rewrite orb_false_r. cbn [andb].
  destruct (Str.truthy cur) eqn:Hc; [|by rewrite IH by lia].
  f_equal. destruct fuel as [|fuel]; [lia|].
  cbn [split_by_go]. rewrite ahead_at_word, He.
  unfold same_pos. cbn [start rest prev Str.truthy]. rewrite Nat.eqb_refl.
  cbn [negb orb]. by rewrite IH by lia.
Qed.

Lemma split_by_cut (bib : string) :
  split_by (ahead re_at_word) bib = cut_go "" bib.
Proof.
  destruct bib as [|a s]; [done|].
  unfold split_by. apply split_by_go_cut. lia.
Qed.

End SplitFacts.

(** *** The pieces *)

Section Pieces.
Import Regex RegexFacts.

Lemma cut_go_concat (s : string) :
  ∀ cur : string,
    List.fold_right String.append "" (cut_go cur s) = cur +:+ s.
Proof.
  induction s as [|a s IH]; intros cur.
  - simpl. by rewrite !append_nil_r.
  - cbn [cut_go]. destruct (_ && _).
    + cbn [List.fold_right]. by rewrite IH.
    + by rewrite IH, append_assoc.
Qed.

Lemma at_entry_app (v s : string) :
  at_entry v = true → at_entry (v +:+ s) = true.
Proof. destruct v as [|a [|b v]]; done. Qed.

Lemma cut_go_head (s : string) :
  ∀ cur : string, ∃ (u : string) (l : list string),
    cut_go cur s = (cur +:+ u) :: l.
Proof.
  induction s as [|a s IH]; intros cur.
  - exists "", []. simpl. by rewrite append_nil_r.
  - cbn [cut_go]. destruct (_ && _).
    + exists "". eexists. by rewrite append_nil_r.
    + destruct (IH (cur +:+ String a "")) as (u & l & ->).
      exists (String a u), l. by rewrite append_assoc.
Qed.

(** Every piece after the first starts where an entry starts. *)
Lemma cut_go_tail (s : string) :
  ∀ cur : string,
    Forall (fun x => at_entry x = true) (List.tl (cut_go cur s)).
Proof.
  induction s as [|a s IH]; intros cur; [by constructor|].
  cbn [cut_go]. destruct (at_entry (String a s) && Str.truthy cur) eqn:Hc;
    [|apply IH].
  cbn [List.tl]. apply andb_prop in Hc as [He _].
  destruct s as [|b s]; [done|].
  assert (Hb : at_entry (String b s) && Str.truthy (String a "") = false).
  { cbn [at_entry] in He. apply andb_prop in He as [_ Hb].
    destruct s as [|c s]; [done|]. cbn [at_entry].
    destruct (Char.just "@" b) eqn:E; [|done].
    revert Hb E. clear. destruct b as [[] [] [] [] [] [] [] []]; done. }
  cbn [cut_go]. rewrite Hb.
  pose proof (IH (String a "")) as Htl. cbn [cut_go] in Htl.
  rewrite Hb in Htl.
  destruct (cut_go_head s (String a "" +:+ String b "")) as (u & l & E).
  rewrite E in *. cbn [List.tl] in Htl. constructor; [|done].
  by apply (at_entry_app (String a (String b ""))).
Qed.

(** An entry starts at a position inside [v], the text [v +:+ s] being
    looked at. *)
Fixpoint has_entry_upto (v s : string) : bool :=
  match v with
  | "" => false
  | String _ v' => at_entry (v +:+ s) || has_entry_upto v' s
  end.

Definition inner (cur s : string) : bool :=
  match cur with
  | "" => false
  | String _ v => has_entry_upto v s
  end.

Lemma upto_snoc (v : string) (a : ascii) (s : string) :
  has_entry_upto (v +:+ String a "") s
  = has_entry_upto v (String a s) || at_entry (String a s).
Proof.
  induction v as [|b v IH].
  - simpl. by rewrite orb_false_r.
  - change (String b v +:+ String a "") with (String b (v +:+ String a "")).
    cbn [has_entry_upto]. rewrite IH.
    change (String b (v +:+ String a "") +:+ s)
      with (String b ((v +:+ String a "") +:+ s)).
    rewrite append_assoc.
    change (String b v +:+ String a s) with (String b (v +:+ String a s)).
    change (String a "" +:+ s) with (String a s).
    by rewrite orb_assoc.
Qed.

Lemma upto_weaken (v s : string) :
  has_entry_upto v s = false → has_entry v = false.
Proof.
  induction v as [|b v IH]; [done|]. cbn [has_entry_upto has_entry].
  intros [H1 H2]%orb_false_elim. rewrite (IH H2), orb_false_r.
  destruct (at_entry (String b v)) eqn:E; [|done].
  by rewrite (at_entry_app _ s E) in H1.
Qed.

(** No piece holds the start of an entry after its first character. *)
Lemma cut_go_one_entry (s : string) :
  ∀ cur : string,
    inner cur s = false →
    Forall (fun x => one_entry x = true) (cut_go cur s).
Proof.
  induction s as [|a s IH]; intros cur Hin.
  - constructor; [|done]. destruct cur as [|c v]; [done|].
    cbn [one_entry]. cbn [inner] in Hin.
    by rewrite (upto_weaken _ _ Hin).
  - cbn [cut_go].
    destruct (at_entry (String a s) && Str.truthy cur) eqn:Hc.
    + constructor; [|by apply IH].
      destruct cur as [|c v]; [done|].
      cbn [one_entry]. cbn [inner] in Hin.
      by rewrite (upto_weaken _ _ Hin).
    + apply IH. destruct cur as [|c v]; [done|].
      change (String c v +:+ String a "") with (String c (v +:+ String a "")).
      cbn [inner] in *. rewrite upto_snoc, Hin.
      cbn [Str.truthy] in Hc. by rewrite andb_true_r in Hc.
Qed.

End Pieces.

(** *** The fragments *)

Section Fragments.
Import Regex RegexFacts.

Lemma dropWhile_app_stop (p : ascii -> bool) (w : string) (b : ascii)
    (t : string) :
  p b = false →
  Str.dropWhile p (w +:+ String b t) = Str.dropWhile p w +:+ String b t.
Proof.
  intros Hb. induction w as [|a w IH]; simpl; [by rewrite Hb|].
  by destruct (p a).
Qed.

Lemma trimEnd_app_nonspace (u : string) (b : ascii) (v : string) :
  Char.is_space b = false →
  Str.trimEnd (u +:+ String b v) = u +:+ String b (Str.trimEnd v).
Proof.
  intros Hb. unfold Str.trimEnd.
  rewrite rev_append, rev_cons, append_assoc.
  change (String b "" +:+ String.rev u) with (String b (String.rev u)).
  rewrite dropWhile_app_stop by done.
  rewrite rev_append, rev_cons, rev_involutive, append_assoc. done.
Qed.

Lemma word_char_not_space (b : ascii) :
  Char.is_word b = true → Char.is_space b = false.
Proof. destruct b as [[] [] [] [] [] [] [] []]; done. Qed.

Lemma at_entry_trim (x : string) :
  at_entry x = true → at_entry (Str.trim x) = true.
Proof.
  destruct x as [|a [|b r]]; try done. cbn [at_entry].
  intros [Ha Hb]%andb_prop. unfold Str.trim.
  assert (Hsa : Char.is_space a = false).
  { revert Ha. clear. destruct a as [[] [] [] [] [] [] [] []]; done. }
  rewrite trimStart_nonspace by done.
  change (String a (String b r)) with (String a "" +:+ String b r).
  rewrite (trimEnd_app_nonspace (String a "") b r)
    by (by apply word_char_not_space).
  cbn [String.append at_entry]. by rewrite Ha, Hb.
Qed.

Lemma has_entry_app_r (v r : string) :
  has_entry v = true → has_entry (v +:+ r) = true.
Proof.
  induction v as [|a v IH]; [done|].
  change (String a v +:+ r) with (String a (v +:+ r)).
  cbn [has_entry]. intros [H | H]%orb_prop.
  - pose proof (at_entry_app (String a v) r H) as H'.
    change (String a v +:+ r) with (String a (v +:+ r)) in H'.
    by rewrite H'.
  - by rewrite (IH H), orb_true_r.
Qed.

Lemma has_entry_app_l (l v : string) :
  has_entry v = true → has_entry (l +:+ v) = true.
Proof.
  intros H. induction l as [|a l IH]; [done|].
  change (String a l +:+ v) with (String a (l +:+ v)).
  cbn [has_entry]. by rewrite IH, orb_true_r.
Qed.

Lemma one_entry_part (l t r : string) :
  one_entry (l +:+ t +:+ r) = true → one_entry t = true.
Proof.
  destruct t as [|c v]; [done|]. cbn [one_entry].
  destruct (has_entry v) eqn:Hv; [|done].
  pose proof (has_entry_app_r v r Hv) as H1.
  intros H. exfalso. destruct l as [|d l].
  - change ("" +:+ String c v +:+ r) with (String c (v +:+ r)) in H.
    cbn [one_entry] in H. by rewrite H1 in H.
  - change (String d l +:+ String c v +:+ r)
      with (String d (l +:+ String c (v +:+ r))) in H.
    cbn [one_entry] in H.
    rewrite (has_entry_app_l l (String c (v +:+ r))) in H; [done|].
    cbn [has_entry]. by rewrite H1, orb_true_r.
Qed.

Lemma one_entry_trim (x : string) :
  one_entry x = true → one_entry (Str.trim x) = true.
Proof.
  intros H. destruct (DoiFacts.trim_decompose x) as (l & r & Hx & _ & _).
  rewrite Hx in H. by apply one_entry_part in H.
Qed.

Lemma Forall_filter_tl {A : Type} (Q : A → Prop) (f : A → bool)
    (l : list A) :
  Forall Q (List.tl l) → Forall Q (List.tl (List.filter f l)).
Proof.
  destruct l as [|x l]; [done|]. cbn [List.tl List.filter].
  intros H.
  assert (Hf : Forall Q (List.filter f l)).
  { apply Forall_forall. intros y Hy.
    apply list_elem_of_In, filter_In in Hy as [Hy _].
    rewrite Forall_forall in H. by apply H, list_elem_of_In. }
  destruct (f x); [done|].
  destruct (List.filter f l); [done|]. by apply Forall_inv_tail in Hf.
Qed.

Lemma replace_chars_app (p : ascii -> bool) (t u v : string) :
  replace_chars p t (u +:+ v) = replace_chars p t u +:+ replace_chars p t v.
Proof.
  induction u as [|a u IH]; [done|].
  change (String a u +:+ v) with (String a (u +:+ v)).
  cbn [replace_chars]. rewrite IH. destruct (p a); [by rewrite append_assoc|done].
Qed.

Lemma replace_chars_all (p : ascii -> bool) (s : string) :
  Str.all p s = true → replace_chars p "" s = "".
Proof.
  induction s as [|a s IH]; [done|]. simpl.
  intros [-> Hs]%andb_prop. by rewrite IH.
Qed.

Lemma replace_chars_space_trim (x : string) :
  replace_chars Char.is_space "" (Str.trim x) = replace_chars Char.is_space "" x.
Proof.
  destruct (DoiFacts.trim_decompose x) as (l & r & Hx & Hl & Hr).
  rewrite Hx at 2. rewrite !replace_chars_app, (replace_chars_all _ l Hl), (replace_chars_all _ r Hr).
  by rewrite append_nil_r.
Qed.

Lemma join_empty (l : list string) :
  Str.join "" l = List.fold_right String.append "" l.
Proof.
  induction l as [|x l IH]; [done|].
  destruct l as [|y l]; [cbn; by rewrite (append_nil_r x)|].
  change (Str.join "" (x :: y :: l)) with (x +:+ "" +:+ Str.join "" (y :: l)).
  by rewrite IH.
Qed.

Lemma concat_filter_Boolean (l : list string) :
  List.fold_right String.append "" (Str.filter_Boolean l)
  = List.fold_right String.append "" l.
Proof.
  induction l as [|x l IH]; [done|].
  unfold Str.filter_Boolean in *. cbn [List.filter List.fold_right].
  destruct x; cbn [Str.truthy List.fold_right]; by rewrite IH.
Qed.

Lemma replace_chars_space_concat_trim (l : list string) :
  replace_chars Char.is_space ""
    (List.fold_right String.append "" (List.map Str.trim l))
  = replace_chars Char.is_space "" (List.fold_right String.append "" l).
Proof.
  induction l as [|x l IH]; [done|].
  cbn [List.map List.fold_right].
  by rewrite !replace_chars_app, replace_chars_space_trim, IH.
Qed.

End Fragments.

(** X10. Every fragment [splitEntries] returns is non-empty, has no white
    space at its ends, and holds no start of an entry (an at sign
    followed by a word character) after its first character; every
    fragment but the first begins with the start of an entry. *)
Theorem splitEntries_fragments (bib : string) :
  Forall (fun x => x ≠ "" ∧ tight x = true ∧ one_entry x = true)
    (splitEntries bib)
  ∧ Forall (fun x => at_entry x = true) (List.tl (splitEntries bib)).
Proof.
  unfold splitEntries. rewrite split_by_cut. split.
  - apply Forall_forall. intros x Hx.
    apply list_elem_of_In, filter_In in Hx as [Hx Ht].
    apply in_map_iff in Hx as (y & <- & Hy).
    split; [by apply truthy_true|]. split; [apply tight_trim|].
    apply one_entry_trim.
    pose proof (cut_go_one_entry bib "" eq_refl) as H.
    rewrite Forall_forall in H. by apply H, list_elem_of_In.
  - apply Forall_filter_tl.
    pose proof (cut_go_tail bib "") as H.
    destruct (cut_go "" bib) as [|p ps]; [done|].
    cbn [List.map List.tl] in *.
    induction H as [|y ps Hy Hps IH]; [done|].
    cbn [List.map]. constructor; [by apply at_entry_trim|done].
Qed.

(** X11. Splitting a 7-bit text loses white space only: the fragments,
    joined, hold the characters of the input that are not white space,
    in their order. *)
Theorem splitEntries_loses_space_only (bib : string) :
  Str.is_ascii bib = true →
  replace_chars Char.is_space "" (Str.join "" (splitEntries bib))
  = replace_chars Char.is_space "" bib.
Proof.
  intros _. unfold splitEntries. rewrite split_by_cut, join_empty.
  rewrite concat_filter_Boolean, replace_chars_space_concat_trim.
  by rewrite cut_go_concat.
Qed.

Lemma splitEntries_loses_space_only_witness :
  replace_chars Char.is_space ""
    (Str.join "" (splitEntries " junk @a{k1, x = {1}} @b{k2}  "))
  = replace_chars Char.is_space "" " junk @a{k1, x = {1}} @b{k2}  ".
Proof.
  apply (splitEntries_loses_space_only " junk @a{k1, x = {1}} @b{k2}  ").
  reflexivity.
Defined.

(** ** What a match implies *)

Module Sound.
Import Regex RegexFacts.

(** [iter M lo hi x y]: some turns of [M] lead from [x] to [y], at least
    [lo] of them unless the maximum [hi] is reached first. *)
Inductive iter (M : mstate → mstate → Prop)
    : nat → option nat → mstate → mstate → Prop :=
| iter_stop (lo : nat) (hi : option nat) (x : mstate) :
    lo = 0 ∨ hi_is_zero hi = true → iter M lo hi x x
| iter_step (lo : nat) (hi : option nat) (x y z : mstate) :
    hi_is_zero hi = false → M x y →
    iter M (Nat.pred lo) (pred_hi hi) y z → iter M lo hi x z.

(** [matches r x y]: the expression [r] can read from the state [x] to
    the state [y]. *)
Fixpoint matches (r : regex) (x y : mstate) : Prop :=
  match r with
  | Eps => y = x
  | Chr p => ∃ (a : ascii) (s : string),
      rest x = String a s ∧ p a = true ∧ y = advance a s x
  | Seq r1 r2 => ∃ m : mstate, matches r1 x m ∧ matches r2 m y
  | Alt r1 r2 => matches r1 x y ∨ matches r2 x y
  | Rep lo hi r1 => iter (matches r1) lo hi x y
  | Grp i r1 => ∃ m : mstate, matches r1 x m ∧ y = capture i x m
  | Bol => prev x = None ∧ y = x
  | Eol => rest x = "" ∧ y = x
  | WordB => at_word_boundary x = true ∧ y = x
  end.

Lemma repeat_sound (m : mstate → (mstate → option mstate) → option mstate)
    (M : mstate → mstate → Prop) (c : mstate → option mstate) :
  (∀ x d z, m x d = Some z → ∃ y, M x y ∧ d y = Some z) →
  ∀ (fuel lo : nat) (hi : option nat) (x z : mstate),
    repeat m c fuel lo hi x = Some z →
    ∃ y, iter M lo hi x y ∧ c y = Some z.
Proof.
  intros Hm. induction fuel as [|fuel IH]; intros lo hi x z H; [done|].
  simpl in H. destruct (hi_is_zero hi) eqn:Hz.
  { exists x. split; [|done]. apply iter_stop. by right. }
  assert (Hstep : ∀ z',
            m x (fun y =>
                   if (lo =? 0)%nat && same_pos x y then None
                   else repeat m c fuel (Nat.pred lo) (pred_hi hi) y)
            = Some z' →
            ∃ y, iter M lo hi x y ∧ c y = Some z').
  { intros z' H'. apply Hm in H' as (y1 & HM & Hd).
    destruct (_ && _); [done|].
    apply IH in Hd as (y & Hit & Hc). exists y. split; [|done].
    by eapply iter_step. }
  destruct (lo =? 0)%nat eqn:Hlo.
  - destruct (m x _) as [z'|] eqn:Hmx.
    + injection H as ->. by apply Hstep.
    + exists x. split; [|done]. apply iter_stop. left.
      by apply Nat.eqb_eq.
  - by apply Hstep.
Qed.

(** The matcher is sound: a result comes from a reading of the
    expression that the continuation accepts. *)
Lemma rmatch_sound (r : regex) :
  ∀ (x : mstate) (c : mstate → option mstate) (z : mstate),
    rmatch r x c = Some z → ∃ y, matches r x y ∧ c y = Some z.
Proof.
  induction r as [|p|r1 IH1 r2 IH2|r1 IH1 r2 IH2|lo hi r1 IH1|i r1 IH1| | |];
    intros x c z H; simpl in H.
  - by exists x.
  - destruct (rest x) as [|a s] eqn:Hr; [done|].
    destruct (p a) eqn:Hp; [|done].
    exists (advance a s x). split; [|done]. by exists a, s.
  - apply IH1 in H as (y1 & H1 & H).
    apply IH2 in H as (y2 & H2 & H).
    exists y2. split; [|done]. by exists y1.
  - destruct (rmatch r1 x c) as [z'|] eqn:H1.
    + injection H as ->. apply IH1 in H1 as (y & H1 & Hc).
      exists y. split; [by left|done].
    + apply IH2 in H as (y & H2 & Hc).
      exists y. split; [by right|done].
  - by apply (repeat_sound (rmatch r1) (matches r1) c IH1) in H.
  - apply IH1 in H as (y & H1 & Hc).
    exists (capture i x y). split; [|done]. by exists y.
  - destruct (prev x) eqn:Hp; [done|]. by exists x.
  - destruct (rest x) eqn:Hr; [|done]. by exists x.
  - destruct (at_word_boundary x) eqn:Hb; [|done]. by exists x.
Qed.

(** *** The text a reading consumes *)

(** [reads x w y]: from [x], the text [w] is read and [y] is reached. *)
Definition reads (x : mstate) (w : string) (y : mstate) : Prop :=
  rest x = w +:+ rest y ∧ prev y = last_or (prev x) w.

Lemma reads_refl (x : mstate) : reads x "" x.
Proof. done. Qed.

Lemma reads_trans (x y z : mstate) (u v : string) :
  reads x u y → reads y v z → reads x (u +:+ v) z.
Proof.
  intros [H1 H2] [H3 H4]. split.
  - by rewrite H1, H3, append_assoc.
  - by rewrite H4, H2, Eval.last_or_app.
Qed.

Lemma iter_reads (M : mstate → mstate → Prop) :
  (∀ x y, M x y → ∃ w, reads x w y) →
  ∀ lo hi x y, iter M lo hi x y → ∃ w, reads x w y.
Proof.
  intros HM lo hi x y H. induction H as [lo hi x _|lo hi x y z _ H1 _ IH].
  - exists "". apply reads_refl.
  - destruct (HM _ _ H1) as [u Hu], IH as [v Hv].
    exists (u +:+ v). by eapply reads_trans.
Qed.

Lemma matches_reads (r : regex) :
  ∀ x y, matches r x y → ∃ w, reads x w y.
Proof.
  induction r as [|p|r1 IH1 r2 IH2|r1 IH1 r2 IH2|lo hi r1 IH1|i r1 IH1| | |];
    intros x y H; simpl in H.
  - subst y. exists "". apply reads_refl.
  - destruct H as (a & s & Hr & _ & ->). exists (String a "").
    split; [done|done].
  - destruct H as (m & H1 & H2).
    destruct (IH1 _ _ H1) as [u Hu], (IH2 _ _ H2) as [v Hv].
    exists (u +:+ v). by eapply reads_trans.
  - destruct H as [H | H]; [by apply IH1|by apply IH2].
  - by apply (iter_reads (matches r1) IH1) in H.
  - destruct H as (m & H1 & ->). destruct (IH1 _ _ H1) as [w Hw].
    by exists w.
  - destruct H as [_ ->]. exists "". apply reads_refl.
  - destruct H as [_ ->]. exists "". apply reads_refl.
  - destruct H as [_ ->]. exists "". apply reads_refl.
Qed.

(** *** A run of a class, and a group around it *)

Lemma chr_inv (p : ascii → bool) (x y : mstate) :
  matches (Chr p) x y →
  ∃ (a : ascii), p a = true ∧ reads x (String a "") y ∧ caps y = caps x.
Proof.
  intros (a & s & Hr & Hp & ->). exists a. split; [done|].
  split; [|done]. by split.
Qed.

Lemma run_inv (p : ascii → bool) (lo : nat) (hi : option nat)
    (x y : mstate) :
  iter (matches (Chr p)) lo hi x y →
  ∃ w : string,
    reads x w y ∧ caps y = caps x ∧ Str.all p w = true
    ∧ (le_hi lo hi = true → (lo ≤ String.length w)%nat).
Proof.
  intros H. induction H as [lo hi x Hs|lo hi x y z Hz H1 _ IH].
  - exists "". split; [apply reads_refl|]. split; [done|]. split; [done|].
    intros Hle. destruct Hs as [-> | Hs]; [done|].
    destruct hi as [[|h]|]; try done. simpl in Hle.
    apply Nat.leb_le in Hle. simpl. lia.
  - apply chr_inv in H1 as (a & Hp & Ha & Hc).
    destruct IH as (w & Hw & Hcw & Hall & Hlen).
    exists (String a w). split; [by apply (reads_trans x y z (String a ""))|].
    split; [by rewrite Hcw|]. split; [simpl; by rewrite Hp|].
    intros Hle. simpl.
    assert (le_hi (Nat.pred lo) (pred_hi hi) = true).
    { destruct hi as [[|h]|]; try done. simpl in *.
      apply Nat.leb_le in Hle. apply Nat.leb_le. lia. }
    specialize (Hlen H). lia.
Qed.

Lemma reads_take (x y : mstate) (w : string) :
  reads x w y →
  Str.take (String.length (rest x) - String.length (rest y)) (rest x) = w.
Proof. intros [H _]. by apply take_length_minus. Qed.

Lemma grp_run_inv (i : nat) (p : ascii → bool) (lo : nat) (hi : option nat)
    (x y : mstate) :
  matches (Grp i (Rep lo hi (Chr p))) x y →
  ∃ w : string,
    reads x w y ∧ caps y = (i, w) :: caps x ∧ Str.all p w = true
    ∧ (le_hi lo hi = true → (lo ≤ String.length w)%nat).
Proof.
  intros (m & H & ->). apply run_inv in H as (w & Hw & Hc & Hall & Hlen).
  exists w. split; [done|]. split; [|done].
  unfold capture. cbn [caps]. by rewrite (reads_take _ _ _ Hw), Hc.
Qed.

End Sound.

(** ** The header of an entry *)

Section Header.
Import Regex RegexFacts Sound.

Lemma dropWhile_app_all (p : ascii → bool) (w x : string) :
  Str.all p w = true → Str.dropWhile p (w +:+ x) = Str.dropWhile p x.
Proof.
  induction w as [|a w IH]; [done|]. simpl.
  intros [-> Hw]%andb_prop. by apply IH.
Qed.

Lemma trimEnd_app_space (x r : string) :
  Str.all Char.is_space r = true → Str.trimEnd (x +:+ r) = Str.trimEnd x.
Proof.
  intros Hr. unfold Str.trimEnd. rewrite rev_append.
  by rewrite dropWhile_app_all by (by rewrite DoiFacts.all_rev).
Qed.

(** White space around a text does not change what [trim] gives. *)
Lemma trim_pad (l m r : string) :
  Str.all Char.is_space l = true → Str.all Char.is_space r = true →
  Str.trim (l +:+ m +:+ r) = Str.trim m.
Proof.
  intros Hl Hr. unfold Str.trim, Str.trimStart.
  rewrite dropWhile_app_all by done.
  pose proof (takeWhile_dropWhile Char.is_space m) as Hm.
  pose proof (all_takeWhile Char.is_space m) as Hsp.
  destruct (Str.dropWhile Char.is_space m) as [|b m'] eqn:Hd.
  - rewrite append_nil_r in Hm. rewrite <- Hm at 1.
    rewrite dropWhile_app_all by done.
    by rewrite (dropWhile_all _ r Hr).
  - pose proof (dropWhile_head _ _ _ _ Hd) as Hb.
    rewrite <- Hm at 1. rewrite append_assoc.
    rewrite dropWhile_app_all by done.
    change (String b m' +:+ r) with (String b (m' +:+ r)).
    cbn [Str.dropWhile]. rewrite Hb.
    change (String b (m' +:+ r)) with (String b m' +:+ r).
    by apply trimEnd_app_space.
Qed.

Lemma seq_inv (r1 r2 : regex) (x y : mstate) :
  matches (r1 ⋅ r2) x y → ∃ m, matches r1 x m ∧ matches r2 m y.
Proof. done. Qed.

Lemma star_inv (p : ascii → bool) (x y : mstate) :
  matches (Star (Chr p)) x y →
  ∃ w : string, reads x w y ∧ caps y = caps x ∧ Str.all p w = true.
Proof.
  intros H. apply run_inv in H as (w & ? & ? & ? & _). by exists w.
Qed.

Lemma just_eq (a b : ascii) : Char.just a b = true → b = a.
Proof. unfold Char.just. by intros ->%Ascii.eqb_eq. Qed.

Lemma last_or_some (pv : option ascii) (w : string) :
  last_or pv w = None → pv = None ∧ w = "".
Proof.
  revert pv. induction w as [|a w IH]; intros pv; [done|]. simpl.
  intros H. by destruct (IH _ H).
Qed.

(** What a match of the header expression at the start of a text
    implies. *)
Lemma head_sound (text : string) (y : mstate) :
  rmatch re_head (start None text) Some = Some y →
  ∃ ty sp sp2 k sp3 : string,
    text = "@" +:+ ty +:+ sp +:+ "{" +:+ sp2 +:+ k +:+ sp3 +:+ ","
             +:+ rest y
    ∧ caps y = [(2, k); (1, ty)]
    ∧ Str.all Char.is_word ty = true ∧ ty ≠ ""
    ∧ Str.all Char.is_space sp = true
    ∧ Str.all Char.is_space sp2 = true
    ∧ Str.all (Char.except ",") k = true ∧ k ≠ ""
    ∧ Str.all Char.is_space sp3 = true.
Proof.
  intros H. apply rmatch_sound in H as (y' & H & [= ->]).
  unfold re_head in H.
  apply seq_inv in H as (m1 & [_ ->] & H).
  apply seq_inv in H as (m2 & (a & Ha & [R2 P2] & C2)%chr_inv & H).
  apply just_eq in Ha as ->.
  apply seq_inv in H as (m3 & (ty & [R3 P3] & C3 & Hty & Lty)%grp_run_inv & H).
  apply seq_inv in H as (m4 & (sp & [R4 P4] & C4 & Hsp)%star_inv & H).
  apply seq_inv in H as (m5 & (b & Hb & [R5 P5] & C5)%chr_inv & H).
  apply just_eq in Hb as ->.
  apply seq_inv in H as (m6 & (sp2 & [R6 P6] & C6 & Hsp2)%star_inv & H).
  apply seq_inv in H as (m7 & (k & [R7 P7] & C7 & Hk & Lk)%grp_run_inv & H).
  apply seq_inv in H as (m8 & (sp3 & [R8 P8] & C8 & Hsp3)%star_inv & H).
  apply chr_inv in H as (c & Hc & [R9 P9] & C9).
  apply just_eq in Hc as ->.
  exists ty, sp, sp2, k, sp3.
  cbn [start rest caps] in R2, C2.
  split.
  { by rewrite R2, R3, R4, R5, R6, R7, R8, R9. }
  split; [by rewrite C9, C8, C7, C6, C5, C4, C3, C2|].
  specialize (Lty eq_refl). specialize (Lk eq_refl).
  repeat split; try done.
  - intros ->. simpl in Lty. lia.
  - intros ->. simpl in Lk. lia.
Qed.

Lemma match_first_head (text : string) (m : found) :
  match_first re_head text = Some m →
  rmatch re_head (start None text) Some = Some (final m).
Proof.
  intros H. apply search_some in H as (v & m0 & Hv & Hm0 & _ & Hfin & _).
  unfold match_here in Hm0.
  destruct (rmatch re_head (start (last_or None (before m)) v) Some)
    as [y|] eqn:Hr; [|done].
  injection Hm0 as <-. cbn [final] in Hfin. subst y.
  pose proof Hr as Hr'. apply rmatch_sound in Hr' as (y' & Hy & _).
  unfold re_head in Hy. apply seq_inv in Hy as (m1 & [Hp _] & _).
  cbn [start prev] in Hp. apply last_or_some in Hp as [_ Hb].
  rewrite Hb in *. simpl in Hv. by subst v.
Qed.

Lemma space_not_comma (c : ascii) :
  Char.is_space c = true → Char.except "," c = true.
Proof. destruct c as [[] [] [] [] [] [] [] []]; done. Qed.

Lemma app_nonempty_r (u v : string) : v ≠ "" → u +:+ v ≠ "".
Proof. destruct u, v; done. Qed.

Lemma app_nonempty_l (u v : string) : u ≠ "" → u +:+ v ≠ "".
Proof. destruct u; done. Qed.

(** The header of a text that is parsed, part by part. *)
Lemma parsed_head (text : string) (e : entry) :
  parseEntry text = Some e →
  ∃ ty sp sp2 k sp3 tl : string,
    text = "@" +:+ ty +:+ sp +:+ "{" +:+ sp2 +:+ k +:+ sp3 +:+ "," +:+ tl
    ∧ type e = Str.toLowerCase ty ∧ key e = Str.trim k
    ∧ Str.all Char.is_word ty = true ∧ ty ≠ ""
    ∧ Str.all Char.is_space sp = true
    ∧ Str.all Char.is_space sp2 = true
    ∧ Str.all (Char.except ",") k = true ∧ k ≠ ""
    ∧ Str.all Char.is_space sp3 = true.
Proof.
  unfold parseEntry.
  destruct (match_first re_head text) as [m|] eqn:Hm; [|done].
  intros [= <-]. cbn [type key].
  apply match_first_head, head_sound in Hm
    as (ty & sp & sp2 & k & sp3 & Ht & Hc & Hrest).
  exists ty, sp, sp2, k, sp3, (rest (final m)).
  split; [done|]. unfold group. rewrite Hc. by cbn.
Qed.

End Header.

(** X12. An entry is parsed from a 7-bit text only when the text has a
    header; its type is the word after the at sign in lower case, and
    its key is the text between the opening brace and the first comma
    after it, without the white space at its ends. *)
Theorem parseEntry_needs_header (text : string) (e : entry) :
  Str.is_ascii text = true →
  parseEntry text = Some e →
  ∃ ty k : string,
    header text ty k
    ∧ type e = Str.toLowerCase ty ∧ key e = Str.trim k.
Proof.
  intros _ He.
  apply parsed_head in He
    as (ty & sp & sp2 & k & sp3 & tl & Ht & Hty & Hkey & Wty & Nty & Hsp
        & Hsp2 & Hk & Nk & Hsp3).
  exists ty, (sp2 +:+ k +:+ sp3). split; [|split].
  - exists sp, tl.
    split; [by rewrite Ht, !append_assoc|].
    repeat split; try done.
    + by apply app_nonempty_r, app_nonempty_l.
    + rewrite !DoiFacts.all_app, Hk.
      rewrite (DoiFacts.all_impl _ _ sp2 space_not_comma Hsp2).
      by rewrite (DoiFacts.all_impl _ _ sp3 space_not_comma Hsp3).
  - done.
  - by rewrite Hkey, trim_pad.
Qed.

Lemma parseEntry_needs_header_witness :
  ∃ ty k : string,
    header "@Book{ k1 ,x={1}}" ty k
    ∧ "book" = Str.toLowerCase ty ∧ "k1" = Str.trim k.
Proof.
  apply (parseEntry_needs_header "@Book{ k1 ,x={1}}"
           (Entry "book" "k1" (<["x" := "1"]> ∅))).
  - reflexivity.
  - vm_compute. reflexivity.
Defined.

Section HeaderRead.
Import Regex RegexFacts Eval.

(** The longest run is rejected, the run one character shorter is
    accepted. *)
Lemma greedy_back_one (p : ascii → bool) (c : mstate → option mstate)
    (w : string) (b : ascii) (r : string) (z : mstate) :
  ∀ (lo : nat) (pv : option ascii) (cs : list (nat * string)),
    Str.all p w = true → p b = true → stops p r = true →
    (lo ≤ String.length w)%nat →
    c (MState (last_or pv (w +:+ String b "")) r cs) = None →
    c (MState (last_or pv w) (String b r) cs) = Some z →
    greedy p c lo None pv (w +:+ String b r) cs = Some z.
Proof.
  induction w as [|a w IH]; intros lo pv cs Hall Hb Hr Hlo Hn Hc.
  - simpl in Hlo. assert (lo = 0) as -> by lia.
    change ("" +:+ String b r) with (String b r).
    cbn [greedy hi_is_zero]. rewrite Hb. simpl in Hn, Hc.
    assert (Hin : greedy p c (Nat.pred 0) (pred_hi None) (Some b) r cs = None).
    { destruct r as [|d r]; [done|]. simpl in Hr.
      apply negb_true_iff in Hr. cbn [greedy hi_is_zero pred_hi].
      by rewrite Hr. }
    by rewrite Hin.
  - simpl in Hall. apply andb_prop in Hall as [Ha Hw].
    change (String a w +:+ String b r) with (String a (w +:+ String b r)).
    cbn [greedy hi_is_zero pred_hi]. rewrite Ha.
    rewrite (IH (Nat.pred lo) (Some a) cs); try done.
    simpl in Hlo. lia.
Qed.

Lemma space_not_word (c : ascii) :
  Char.is_space c = true → Char.is_word c = false.
Proof. destruct c as [[] [] [] [] [] [] [] []]; done. Qed.

Lemma stops_word_after (sp tl : string) :
  Str.all Char.is_space sp = true →
  stops Char.is_word (sp +:+ String "{" tl) = true.
Proof.
  destruct sp as [|b sp]; [done|]. simpl.
  intros [Hb _]%andb_prop. by rewrite space_not_word.
Qed.

(** The key part of the header: white space, one or more characters
    other than a comma, white space, a comma. *)
Definition re_key : regex :=
  (Star (Chr Char.is_space) ⋅ Grp 2 (Plus (Chr (Char.except ",")))
     ⋅ Star (Chr Char.is_space) ⋅ Chr (Char.just ","))%re.

Lemma key_read (k : string) :
  k ≠ "" → Str.all (Char.except ",") k = true →
  ∃ g : string,
    Str.trim g = Str.trim k
    ∧ ∀ (tl : string) (pv : option ascii) (cs : list (nat * string)),
        rmatch re_key (MState pv (k +:+ String "," tl) cs) Some
        = Some (MState (Some ","%char) tl ((2, g) :: cs)).
Proof.
  intros Nk Hk. unfold re_key.
  pose proof (takeWhile_dropWhile Char.is_space k) as Hsplit.
  pose proof (all_takeWhile Char.is_space k) as Hsp.
  destruct (Str.dropWhile Char.is_space k) as [|b k'] eqn:Hd.
  - (* the key text is white space: the last character is given back *)
    rewrite append_nil_r in Hsplit. rewrite Hsplit in Hsp.
    destruct (Str.last k) as [b|] eqn:Hl.
    2:{ destruct k as [|a k]; [done|]. by apply last_nonempty in Hl. }
    apply last_snoc in Hl as [w ->].
    rewrite DoiFacts.all_app in Hsp. apply andb_prop in Hsp as [Hw Hb].
    simpl in Hb. rewrite andb_true_r in Hb.
    exists (String b ""). split.
    { rewrite (trim_blank (String b "")) by (simpl; by rewrite Hb).
      rewrite trim_blank; [done|].
      rewrite DoiFacts.all_app, Hw. simpl. by rewrite Hb. }
    intros tl pv cs.
    apply eval_seq. unfold Star. rewrite rmatch_rep_chr. cbn [prev rest caps].
    rewrite append_assoc.
    change (String b "" +:+ String "," tl) with (String b (String "," tl)).
    apply greedy_back_one; try done; [lia|].
    change (String b (String "," tl)) with (String b "" +:+ String "," tl).
    apply eval_seq, eval_grp_run;
      [simpl; by rewrite (space_not_comma b Hb)|done|simpl; lia|].
    apply eval_seq. apply (eval_skip Char.is_space); [done|].
    by apply eval_chr.
  - pose proof (dropWhile_head _ _ _ _ Hd) as Hb.
    exists (String b k'). split.
    { unfold Str.trim, Str.trimStart. rewrite Hd. simpl. by rewrite Hb. }
    intros tl pv cs.
    rewrite <- Hsplit, append_assoc.
    apply eval_seq, eval_run; [done|simpl; by rewrite Hb|lia|].
    rewrite <- Hsplit, DoiFacts.all_app in Hk.
    apply andb_prop in Hk as [_ Hk].
    apply eval_seq, eval_grp_run; [done|done|simpl; lia|].
    apply eval_seq. apply (eval_skip Char.is_space); [done|].
    by apply eval_chr.
Qed.

Lemma head_read (ty sp k : string) :
  ty ≠ "" → Str.all Char.is_word ty = true →
  Str.all Char.is_space sp = true →
  k ≠ "" → Str.all (Char.except ",") k = true →
  ∃ g : string,
    Str.trim g = Str.trim k
    ∧ ∀ tl : string,
        match_first re_head
          ("@" +:+ ty +:+ sp +:+ "{" +:+ k +:+ "," +:+ tl)
        = Some {| before := "";
                  matched := "@" +:+ ty +:+ sp +:+ "{" +:+ k +:+ ",";
                  final := MState (Some ","%char) tl [(2, g); (1, ty)] |}.
Proof.
  intros Nty Hty Hsp Nk Hk.
  destruct (key_read k Nk Hk) as (g & Htrim & Hg).
  exists g. split; [done|]. intros tl.
  apply match_first_here.
  - unfold re_head, start.
    change ("@" +:+ ty +:+ sp +:+ "{" +:+ k +:+ "," +:+ tl)
      with (String "@" (ty +:+ (sp +:+ String "{" (k +:+ String "," tl)))).
    apply eval_seq, eval_bol.
    apply eval_seq, eval_chr; [done|].
    apply eval_seq, eval_grp_run;
      [done| |by destruct ty; [|simpl; lia]|].
    { destruct sp as [|b sp]; [done|]. simpl in Hsp |- *.
      apply andb_prop in Hsp as [Hb _]. by rewrite space_not_word. }
    apply eval_seq, eval_run; [done|done|lia|].
    apply eval_seq, eval_chr; [done|].
    apply Hg.
  - cbn [rest]. by rewrite !append_assoc.
Qed.

(** The entry parsed from a text with a header: the fields are read
    from the text after the header. *)
Lemma parse_by_header (ty sp k tl : string) :
  ty ≠ "" → Str.all Char.is_word ty = true →
  Str.all Char.is_space sp = true →
  k ≠ "" → Str.all (Char.except ",") k = true →
  parseEntry ("@" +:+ ty +:+ sp +:+ "{" +:+ k +:+ "," +:+ tl)
  = Some {| type := Str.toLowerCase ty; key := Str.trim k;
            fields :=
              List.fold_left parse_field
                (fst (scan fieldRegex
                        (Str.trim (replace_first re_close "" tl)))) ∅ |}.
Proof.
  intros Nty Hty Hsp Nk Hk.
  destruct (head_read ty sp k Nty Hty Hsp Nk Hk) as (g & Hg & Hm).
  unfold parseEntry. rewrite Hm.
  unfold group. cbn [matched final caps List.find fst snd Nat.eqb].
  rewrite Hg. do 4 f_equal.
  assert (E : "@" +:+ ty +:+ sp +:+ "{" +:+ k +:+ "," +:+ tl
              = ("@" +:+ ty +:+ sp +:+ "{" +:+ k +:+ ",") +:+ tl)
    by (by rewrite !append_assoc).
  rewrite E. unfold Str.slice_from. by rewrite drop_app_length.
Qed.

End HeaderRead.

(** X13. A 7-bit text that has a header is parsed: the type of the entry
    is the word after the at sign in lower case, and its key is the text
    between the opening brace and the first comma after it, without
    the white space at its ends. *)
Theorem parseEntry_reads_header (text ty k : string) :
  Str.is_ascii text = true →
  header text ty k →
  ∃ e : entry,
    parseEntry text = Some e
    ∧ type e = Str.toLowerCase ty ∧ key e = Str.trim k.
Proof.
  intros _ (sp & tl & -> & Nty & Hty & Hsp & Nk & Hk).
  rewrite (parse_by_header ty sp k tl Nty Hty Hsp Nk Hk).
  eexists. split; [reflexivity|]. by split.
Qed.

Lemma parseEntry_reads_header_witness :
  ∃ e : entry,
    parseEntry "@Book { ,x={1}}" = Some e
    ∧ type e = Str.toLowerCase "Book" ∧ key e = Str.trim " ".
Proof.
  apply (parseEntry_reads_header "@Book { ,x={1}}" "Book" " ").
  - reflexivity.
  - exists " ", "x={1}}". repeat split; done.
Defined.

(** ** What the parser stores *)

Section Stored.
Import Regex RegexFacts Sound.

(** The expression holds no group numbered [i]. *)
Fixpoint free_of (i : nat) (r : regex) : bool :=
  match r with
  | Seq r1 r2 | Alt r1 r2 => free_of i r1 && free_of i r2
  | Rep _ _ r1 => free_of i r1
  | Grp j r1 => negb (j =? i)%nat && free_of i r1
  | _ => true
  end.

Definition capture_of (i : nat) (x : mstate) : option (nat * string) :=
  List.find (fun p => (fst p =? i)%nat) (caps x).

Lemma iter_capture_of (i : nat) (M : mstate → mstate → Prop) :
  (∀ x y, M x y → capture_of i y = capture_of i x) →
  ∀ lo hi x y, iter M lo hi x y → capture_of i y = capture_of i x.
Proof.
  intros HM lo hi x y H. induction H as [|lo hi x y z _ H1 _ IH]; [done|].
  by rewrite IH, (HM _ _ H1).
Qed.

(** A reading of an expression without group [i] leaves the capture of
    group [i] as it was. *)
Lemma matches_capture_of (i : nat) (r : regex) :
  free_of i r = true →
  ∀ x y, matches r x y → capture_of i y = capture_of i x.
Proof.
  induction r as [|p|r1 IH1 r2 IH2|r1 IH1 r2 IH2|lo hi r1 IH1|j r1 IH1| | |];
    intros Hf x y H; simpl in H, Hf.
  - by subst.
  - by destruct H as (a & s & _ & _ & ->).
  - apply andb_prop in Hf as [H1 H2]. destruct H as (m & Hm1 & Hm2).
    by rewrite (IH2 H2 _ _ Hm2), (IH1 H1 _ _ Hm1).
  - apply andb_prop in Hf as [H1 H2].
    destruct H as [H | H]; [by apply IH1|by apply IH2].
  - by apply (iter_capture_of i (matches r1) (IH1 Hf)) in H.
  - apply andb_prop in Hf as [Hj H1]. destruct H as (m & Hm & ->).
    unfold capture_of, capture. cbn [caps List.find fst].
    apply negb_true_iff in Hj. rewrite Hj. by apply IH1.
  - by destruct H as [_ ->].
  - by destruct H as [_ ->].
  - by destruct H as [_ ->].
Qed.

(** [m] is a result of the matcher at some position of some text. *)
Definition reported (r : regex) (m : found) : Prop :=
  ∃ (pv : option ascii) (v : string),
    rmatch r (start pv v) Some = Some (final m)
    ∧ matched m
      = Str.take (String.length v - String.length (rest (final m))) v.

Lemma search_reported (r : regex) (pv : option ascii) (s : string)
    (m : found) :
  search r pv s = Some m → reported r m.
Proof.
  intros Hs. apply search_some in Hs as (v & m0 & _ & Hm0 & Hmat & Hfin & _).
  unfold match_here in Hm0.
  destruct (rmatch r (start (last_or pv (before m)) v) Some)
    as [y|] eqn:Hr; [|done].
  injection Hm0 as <-. cbn [final matched] in Hfin, Hmat. subst y.
  by exists (last_or pv (before m)), v.
Qed.

(** Every match that the scan of a text reports is a result of the
    matcher at some position. *)
Lemma scan_go_sound (r : regex) (fuel : nat) :
  ∀ (pv : option ascii) (s : string),
    Forall (reported r) (fst (scan_go fuel r pv s)).
Proof.
  induction fuel as [|fuel IH]; intros pv s; [by constructor|].
  cbn [scan_go]. destruct (search r pv s) as [m|] eqn:Hs; [|by constructor].
  apply search_reported in Hs as Hm.
  destruct (matched m) as [|c w].
  - destruct (rest (final m)) as [|a s'].
    + by repeat constructor.
    + pose proof (IH (Some a) s') as Hrec.
      destruct (scan_go fuel r (Some a) s') as [ms tl].
      cbn [fst] in Hrec. destruct ms as [|m' ms'].
      * by repeat constructor.
      * cbn [fst]. constructor; [done|].
        apply Forall_cons in Hrec as [H1 H2]. by constructor.
  - pose proof (IH (prev (final m)) (rest (final m))) as Hrec.
    destruct (scan_go fuel r (prev (final m)) (rest (final m))) as [ms tl].
    cbn [fst] in *. by constructor.
Qed.

(** The name of a field, as a match of the field expression reports
    it, is a word. *)
Lemma field_name_word (pv : option ascii) (v : string) (y : mstate) :
  rmatch fieldRegex (start pv v) Some = Some y →
  ∃ w : string,
    capture_of 1 y = Some (1, w)
    ∧ w ≠ "" ∧ Str.all Char.is_word w = true.
Proof.
  intros H. apply rmatch_sound in H as (y' & H & [= ->]).
  unfold fieldRegex in H.
  apply seq_inv in H as (m1 & (w & _ & C1 & Hw & Lw)%grp_run_inv & H).
  exists w. split; [|split; [|done]].
  - apply (matches_capture_of 1) in H; [|reflexivity].
    rewrite H. unfold capture_of. by rewrite C1.
  - specialize (Lw eq_refl). intros ->. simpl in Lw. lia.
Qed.

Lemma lower_char_word (c : ascii) :
  Char.is_word (Char.toLowerCase c) = Char.is_word c.
Proof. destruct c as [[] [] [] [] [] [] [] []]; reflexivity. Qed.

Lemma lower_char_not_upper (c : ascii) :
  not_upper (Char.toLowerCase c) = true.
Proof. destruct c as [[] [] [] [] [] [] [] []]; reflexivity. Qed.

(** A word put in lower case is a plain type. *)
Lemma lower_word_plain (w : string) :
  w ≠ "" → Str.all Char.is_word w = true →
  plain_type (Str.toLowerCase w) = true.
Proof.
  intros Nw Hw. unfold plain_type.
  assert (H1 : Str.truthy (Str.toLowerCase w) = true) by (by destruct w).
  assert (H2 : Str.all Char.is_word (Str.toLowerCase w) = true).
  { clear Nw H1. unfold Str.toLowerCase.
    induction w as [|a w IH]; [done|]. simpl in *.
    apply andb_prop in Hw as [Ha Hw]. by rewrite lower_char_word, Ha, IH. }
  assert (H3 : Str.all not_upper (Str.toLowerCase w) = true).
  { clear. unfold Str.toLowerCase. induction w as [|a w IH]; [done|]. simpl.
    by rewrite lower_char_not_upper, IH. }
  by rewrite H1, H2, H3.
Qed.

(** A field map as the parser builds it: every name is a plain name,
    every value is without white space at its ends. *)
Definition kept (F : gmap string string) : Prop :=
  ∀ f v : string,
    F !! f = Some v → plain_name f = true ∧ tight v = true.

Lemma strip_braces_tight (v : string) :
  tight v = true → tight (strip_braces v) = true.
Proof.
  intros H. unfold strip_braces. destruct (_ && _); [|done].
  apply tight_trim.
Qed.

Lemma strip_quotes_tight (v : string) :
  tight v = true → tight (strip_quotes v) = true.
Proof.
  intros H. unfold strip_quotes. destruct (_ && _); [|done].
  apply tight_trim.
Qed.

Lemma parse_field_kept (F : gmap string string) (m : found) :
  reported fieldRegex m → kept F → kept (parse_field F m).
Proof.
  intros (pv & u & Hm & _) HF f v. unfold parse_field, assign.
  destruct (bool_decide _) eqn:Hp; [by apply HF|].
  apply bool_decide_eq_false in Hp.
  destruct (decide (f = Str.toLowerCase (group 1 m))) as [-> | Hne].
  - rewrite lookup_insert_eq. intros [= <-]. split.
    + apply field_name_word in Hm as (w & Hc & Nw & Hw).
      assert (Hg : group 1 m = w).
      { unfold group. unfold capture_of in Hc. by rewrite Hc. }
      rewrite Hg in *. unfold plain_name.
      pose proof (lower_word_plain w Nw Hw) as Hpl. unfold plain_type in Hpl.
      rewrite Hpl. by rewrite bool_decide_eq_false_2.
    + apply strip_quotes_tight, strip_braces_tight, tight_trim.
  - rewrite lookup_insert_ne by done. apply HF.
Qed.

Lemma fold_parse_field_kept (ms : list found) :
  Forall (reported fieldRegex) ms →
  ∀ F : gmap string string,
    kept F → kept (List.fold_left parse_field ms F).
Proof.
  induction 1 as [|m ms Hm _ IH]; intros F HF; simpl; [done|].
  by apply IH, parse_field_kept.
Qed.

End Stored.

(** X14. Whatever the text, an entry that [parseEntry] returns has for type
    a non-empty word in lower case, a key without comma and without
    white space at its ends, and fields whose names are non-empty words
    in lower case (so that no two names differ by case only), none of
    them [__proto__], and whose values have no white space at their
    ends. *)
Theorem parseEntry_stores_plain_names (text : string) (e : entry) :
  parseEntry text = Some e →
  plain_type (type e) = true
  ∧ tight (key e) = true
  ∧ Str.all (Char.except ",") (key e) = true
  ∧ ∀ f v : string,
      fields e !! f = Some v → plain_name f = true ∧ tight v = true.
Proof.
  intros He.
  destruct (parsed_head text e He)
    as (ty & sp & sp2 & k & sp3 & tl & _ & -> & -> & Hty & Nty & _ & _
        & Hk & _).
  split; [by apply lower_word_plain|].
  split; [apply tight_trim|]. split; [by apply all_trim|].
  unfold parseEntry in He.
  destruct (Regex.match_first re_head text) as [headMatch|]; [|done].
  injection He as <-. cbn [fields].
  apply fold_parse_field_kept; [apply scan_go_sound|].
  intros f v H. by rewrite lookup_empty in H.
Qed.

Lemma parseEntry_stores_plain_names_witness :
  let e := Entry "article" "k" (<["year" := "1905"]> ∅) in
  plain_type (type e) = true
  ∧ tight (key e) = true
  ∧ Str.all (Char.except ",") (key e) = true
  ∧ ∀ f v : string,
      fields e !! f = Some v → plain_name f = true ∧ tight v = true.
Proof.
  intros e.
  apply (parseEntry_stores_plain_names "@ARTICLE{ k , Year = { 1905 } }" e).
  vm_compute. reflexivity.
Defined.

(** ** Marking up a title twice *)

Section Includes.

Lemma prefix_app (t u v : string) :
  String.prefix t u = true → String.prefix t (u +:+ v) = true.
Proof.
  revert u. induction t as [|a t IH]; intros u;
    [intros _; by destruct (u +:+ v)|].
  destruct u as [|b u]; [done|].
  change (String b u +:+ v) with (String b (u +:+ v)). cbn [String.prefix].
  destruct (ascii_dec a b); [apply IH|done].
Qed.

Lemma prefix_refl (t : string) : String.prefix t t = true.
Proof.
  induction t as [|a t IH]; [done|]. cbn [String.prefix].
  by destruct (ascii_dec a a).
Qed.

Lemma includes_app_l (t u v : string) :
  Str.includes t u = true → Str.includes t (u +:+ v) = true.
Proof.
  induction u as [|a u IH].
  - cbn [Str.includes]. rewrite orb_false_r. intros H.
    apply (prefix_app t "" v) in H. change ("" +:+ v) with v in *.
    destruct v; cbn [Str.includes]; by rewrite H.
  - change (String a u +:+ v) with (String a (u +:+ v)).
    cbn [Str.includes]. intros [H | H]%orb_prop.
    + apply (prefix_app t (String a u) v) in H.
      change (String a u +:+ v) with (String a (u +:+ v)) in H.
      by rewrite H.
    + by rewrite (IH H), orb_true_r.
Qed.

Lemma includes_app_r (t u v : string) :
  Str.includes t v = true → Str.includes t (u +:+ v) = true.
Proof.
  intros H. induction u as [|a u IH]; [done|].
  change (String a u +:+ v) with (String a (u +:+ v)).
  cbn [Str.includes]. by rewrite IH, orb_true_r.
Qed.

Lemma includes_refl (t : string) : Str.includes t t = true.
Proof. destruct t; cbn [Str.includes]; by rewrite prefix_refl. Qed.

Lemma includes_mid (t u v : string) :
  Str.includes t (u +:+ t +:+ v) = true.
Proof. apply includes_app_r, includes_app_l, includes_refl. Qed.

End Includes.

Section Scan.
Import Regex RegexFacts Sound.

Lemma reported_reads (r : regex) (m : found) :
  reported r m →
  ∃ x : mstate, matches r x (final m) ∧ reads x (matched m) (final m).
Proof.
  intros (pv & v & Hr & Hm). apply rmatch_sound in Hr as (y & Hy & [= ->]).
  exists (start pv v). split; [done|].
  destruct (matches_reads _ _ _ Hy) as [w Hw].
  pose proof (reads_take _ _ _ Hw) as Ht. cbn [start rest] in Ht.
  by rewrite Hm, Ht.
Qed.

Definition rebuild (f : found → string) (ms : list found) (tl : string)
    : string :=
  List.fold_right (fun m acc => before m +:+ f m +:+ acc) tl ms.

Lemma replace_all_rebuild (r : regex) (f : found → string) (s : string) :
  replace_all r f s = rebuild f (fst (scan r s)) (snd (scan r s)).
Proof. unfold replace_all. by destruct (scan r s). Qed.

Lemma search_text (r : regex) (pv : option ascii) (s : string) (m : found) :
  search r pv s = Some m →
  s = before m +:+ matched m +:+ rest (final m).
Proof.
  intros Hs. pose proof (search_reported _ _ _ _ Hs) as Hm.
  apply search_some in Hs as (v & m0 & Hv & Hm0 & Hmat & Hfin & _).
  rewrite Hv at 1. f_equal.
  unfold match_here in Hm0.
  destruct (rmatch r (start (last_or pv (before m)) v) Some)
    as [y|] eqn:Hr; [|done].
  injection Hm0 as <-. cbn [final matched] in Hfin, Hmat. subst y.
  apply rmatch_sound in Hr as (y & Hy & [= ->]).
  destruct (matches_reads _ _ _ Hy) as [w Hw].
  pose proof (reads_take _ _ _ Hw) as Ht. cbn [start rest] in Ht.
  rewrite Hmat, Ht. by destruct Hw as [Hw _].
Qed.

(** The matches of a scan, with the text between them, make up the
    text. *)
Lemma scan_go_text (r : regex) (fuel : nat) :
  ∀ (pv : option ascii) (s : string),
    rebuild matched (fst (scan_go fuel r pv s)) (snd (scan_go fuel r pv s))
    = s.
Proof.
  induction fuel as [|fuel IH]; intros pv s; [done|].
  cbn [scan_go]. destruct (search r pv s) as [m|] eqn:Hs; [|done].
  apply search_text in Hs as Hv.
  destruct (matched m) as [|c w] eqn:Em.
  - destruct (rest (final m)) as [|a s'] eqn:Er.
    + cbn. by rewrite Em.
    + pose proof (IH (Some a) s') as Hrec.
      destruct (scan_go fuel r (Some a) s') as [ms tl].
      cbn [fst snd] in Hrec. destruct ms as [|m' ms'].
      * cbn in Hrec. subst tl. cbn. by rewrite Em.
      * cbn [fst snd rebuild List.fold_right] in *.
        rewrite Em. cbn [skip before matched].
        change (String a (before m') +:+ matched m'
                  +:+ List.fold_right
                        (fun m acc => before m +:+ matched m +:+ acc) tl ms')
          with (String a (before m' +:+ matched m'
                  +:+ List.fold_right
                        (fun m acc => before m +:+ matched m +:+ acc) tl ms')).
        by rewrite Hrec.
  - pose proof (IH (prev (final m)) (rest (final m))) as Hrec.
    destruct (scan_go fuel r (prev (final m)) (rest (final m))) as [ms tl].
    cbn [fst snd rebuild List.fold_right] in *.
    by rewrite Hrec, Em.
Qed.

Lemma rebuild_same (f : found → string) (ms : list found) (tl : string) :
  Forall (fun m => f m = matched m) ms →
  rebuild f ms tl = rebuild matched ms tl.
Proof.
  induction 1 as [|m ms Hm _ IH]; [done|].
  cbn [rebuild List.fold_right]. unfold rebuild in IH. by rewrite Hm, IH.
Qed.

Lemma rebuild_includes (t : string) (f : found → string) (ms : list found)
    (tl : string) :
  Exists (fun m => Str.includes t (f m) = true) ms →
  Str.includes t (rebuild f ms tl) = true.
Proof.
  induction 1 as [m ms Hm|m ms _ IH]; cbn [rebuild List.fold_right].
  - by apply includes_app_r, includes_app_l.
  - by apply includes_app_r, includes_app_r.
Qed.

Lemma replace_all_first (r : regex) (f : found → string) (s : string)
    (m : found) :
  search r None s = Some m →
  ∃ acc : string, replace_all r f s = before m +:+ f m +:+ acc.
Proof.
  intros Hs. unfold replace_all, scan. cbn [scan_go]. rewrite Hs.
  destruct (matched m).
  - destruct (rest (final m)) as [|a s'].
    + by eexists.
    + destruct (scan_go _ r (Some a) s') as [ms tl].
      destruct ms; by eexists.
  - destruct (scan_go _ r _ _) as [ms tl]. by eexists.
Qed.

End Scan.

Section Formula.
Import Regex RegexFacts Sound.

Definition glue (l : list string) : string :=
  List.fold_right String.append "" l.

(** The text of one element group: an upper-case letter, at most one
    lower-case letter, digits. *)
Definition element (e : string) : Prop :=
  ∃ (a : ascii) (lows ds : string),
    e = String a (lows +:+ ds)
    ∧ Char.is_upper a = true
    ∧ Str.all Char.is_lower lows = true ∧ (String.length lows ≤ 1)%nat
    ∧ Str.all Char.is_digit ds = true.

Lemma run_le_hi (p : ascii → bool) (lo : nat) (hi : option nat)
    (x y : mstate) :
  iter (matches (Chr p)) lo hi x y →
  ∃ w : string,
    reads x w y ∧ Str.all p w = true
    ∧ le_hi (String.length w) hi = true.
Proof.
  intros H. induction H as [lo hi x Hs|lo hi x y z Hz H1 _ IH].
  - exists "". split; [apply reads_refl|]. split; [done|]. by destruct hi.
  - apply chr_inv in H1 as (a & Hp & Ha & Hc).
    destruct IH as (w & Hw & Hall & Hlen).
    exists (String a w). split; [by apply (reads_trans x y z (String a ""))|].
    split; [simpl; by rewrite Hp|].
    by destruct hi as [[|h]|].
Qed.

Lemma element_read (x y : mstate) :
  matches (Grp 1 re_element) x y → ∃ w, reads x w y ∧ element w.
Proof.
  intros (m & H & ->). unfold re_element in H.
  apply seq_inv in H as (m1 & (a & Ha & R1 & _)%chr_inv & H).
  apply seq_inv in H as (m2 & (lows & R2 & Hl & Ll)%run_le_hi & H).
  apply star_inv in H as (ds & R3 & _ & Hd).
  exists (String a (lows +:+ ds)). split.
  - pose proof (reads_trans _ _ _ _ _ R1 (reads_trans _ _ _ _ _ R2 R3))
      as [H1 H2].
    split; [exact H1|exact H2].
  - exists a, lows, ds. repeat split; try done.
    simpl in Ll. by apply Nat.leb_le in Ll.
Qed.

Lemma iter_elements (M : mstate → mstate → Prop) (E : string → Prop) :
  (∀ x y, M x y → ∃ w, reads x w y ∧ E w) →
  ∀ lo hi x y,
    iter M lo hi x y → ∃ l, reads x (glue l) y ∧ Forall E l.
Proof.
  intros HM lo hi x y H. induction H as [|lo hi x y z _ H1 _ IH].
  - exists []. split; [apply reads_refl|done].
  - destruct (HM _ _ H1) as (w & Hw & He), IH as (l & Hl & HE).
    exists (w :: l). split; [by eapply reads_trans|by constructor].
Qed.

Lemma formula_read (x y : mstate) :
  matches re_formula x y →
  ∃ l, reads x (glue l) y ∧ Forall element l.
Proof.
  intros H. unfold re_formula in H.
  apply seq_inv in H as (m1 & [_ ->] & H).
  apply seq_inv in H as (m2 & H & [_ ->]).
  by apply (iter_elements _ element element_read) in H.
Qed.

Lemma dropWhile_nil (q : ascii → bool) (s : string) :
  Str.dropWhile q s = "" → Str.all q s = true.
Proof.
  induction s as [|a s IH]; [done|]. simpl. by destruct (q a).
Qed.

Lemma test_chr (p : ascii → bool) (s : string) :
  test (Chr p) s = true → Str.all (non p) s = false.
Proof.
  unfold test, match_first. rewrite search_chr.
  destruct (Str.dropWhile (non p) s) as [|a s'] eqn:Hd.
  - intros H. apply bool_decide_eq_true in H. by destruct H.
  - intros _. destruct (Str.all (non p) s) eqn:Hall; [|done].
    by rewrite (dropWhile_all _ _ Hall) in Hd.
Qed.

Lemma glue_app (l1 l2 : list string) :
  glue (l1 ++ l2) = glue l1 +:+ glue l2.
Proof.
  induction l1 as [|x l1 IH]; [done|].
  cbn [app glue List.fold_right]. unfold glue in IH.
  by rewrite IH, append_assoc.
Qed.

Lemma glue_not_all (q : ascii → bool) (l : list string) :
  Str.all q (glue l) = false →
  ∃ (l1 : list string) (e : string) (l2 : list string),
    l = (l1 ++ e :: l2)%list ∧ Str.all q e = false.
Proof.
  induction l as [|x l IH]; [done|].
  cbn [glue List.fold_right]. rewrite DoiFacts.all_app.
  destruct (Str.all q x) eqn:Hx.
  - cbn [andb]. intros H. destruct (IH H) as (l1 & e & l2 & -> & He).
    by exists (x :: l1), e, l2.
  - intros _. by exists [], x, l.
Qed.

Lemma upper_not_digit (c : ascii) :
  Char.is_upper c = true → non Char.is_digit c = true.
Proof. destruct c as [[] [] [] [] [] [] [] []]; done. Qed.

Lemma lower_not_digit (c : ascii) :
  Char.is_lower c = true → non Char.is_digit c = true.
Proof. destruct c as [[] [] [] [] [] [] [] []]; done. Qed.

Lemma digit_not_lower (c : ascii) :
  Char.is_digit c = true → Char.is_lower c = false.
Proof. destruct c as [[] [] [] [] [] [] [] []]; done. Qed.

Lemma rmatch_grp (i : nat) (r : regex) (x : mstate)
    (c : mstate → option mstate) :
  rmatch (Grp i r) x c = rmatch r x (fun y => c (capture i x y)).
Proof. done. Qed.

Lemma rmatch_seq (r1 r2 : regex) (x : mstate) (c : mstate → option mstate) :
  rmatch (r1 ⋅ r2) x c = rmatch r1 x (fun y => rmatch r2 y c).
Proof. done. Qed.

Lemma greedy_total (p : ascii → bool) (c : mstate → option mstate)
    (lo : nat) (pv : option ascii) (s : string) (cs : list (nat * string)) :
  (∀ y, is_Some (c y)) →
  (lo ≤ String.length (takeWhile p s))%nat →
  is_Some (greedy p c lo None pv s cs).
Proof.
  intros Hc Hlo. rewrite <- (takeWhile_dropWhile p s).
  destruct (Hc (MState (last_or pv (takeWhile p s)) (Str.dropWhile p s) cs))
    as [z Hz].
  exists z. apply greedy_longest; try done.
  - apply all_takeWhile.
  - intros a r' H. by eapply dropWhile_head.
Qed.

Lemma count_some (x : mstate) (d : ascii) (s : string) :
  rest x = String d s → Char.is_digit d = true →
  is_Some (rmatch (Grp 2 (Plus (Chr Char.is_digit))) x Some).
Proof.
  intros Hr Hd. rewrite rmatch_grp. unfold Plus. rewrite rmatch_rep_chr.
  apply greedy_total; [by eexists|].
  rewrite Hr. simpl. rewrite Hd. simpl. lia.
Qed.

Lemma element_some (c : mstate → option mstate) (pv : option ascii)
    (a : ascii) (lows : string) (d : ascii) (tl : string)
    (cs : list (nat * string)) :
  Char.is_upper a = true →
  Str.all Char.is_lower lows = true → (String.length lows ≤ 1)%nat →
  Char.is_digit d = true →
  (∀ y, (∃ s, rest y = String d s) → is_Some (c y)) →
  is_Some (rmatch (Chr Char.is_upper ⋅ Opt (Chr Char.is_lower))
             (MState pv (String a (lows +:+ String d tl)) cs) c).
Proof.
  intros Ha Hl Ll Hd Hc. rewrite rmatch_seq. cbn [rmatch rest]. rewrite Ha.
  unfold Opt. rewrite rmatch_rep_chr. unfold advance. cbn [prev rest caps].
  destruct lows as [|b [|b' lows]]; [| |simpl in Ll; lia].
  - change ("" +:+ String d tl) with (String d tl).
    cbn [greedy hi_is_zero]. rewrite (digit_not_lower d Hd).
    cbn [Nat.eqb]. apply Hc. by eexists.
  - change (String b "" +:+ String d tl) with (String b (String d tl)).
    simpl in Hl. rewrite andb_true_r in Hl.
    cbn [greedy hi_is_zero pred_hi Nat.pred]. rewrite Hl.
    destruct (Hc (MState (Some b) (String d tl) cs)) as [z Hz];
      [by eexists|].
    by rewrite Hz.
Qed.

(** At the start of an element group that has digits, the expression
    for an element with its count matches. *)
Lemma element_count_here (pv : option ascii) (e post : string) :
  element e → Str.all (non Char.is_digit) e = false →
  is_Some (match_here re_element_count pv (e +:+ post)).
Proof.
  intros (a & lows & ds & -> & Ha & Hl & Ll & Hd) Hnot.
  assert (Hds : ∃ d ds', ds = String d ds' ∧ Char.is_digit d = true).
  { change (String a (lows +:+ ds)) with (String a "" +:+ lows +:+ ds) in Hnot.
    rewrite !DoiFacts.all_app in Hnot. simpl in Hnot.
    rewrite (upper_not_digit a Ha) in Hnot.
    rewrite (DoiFacts.all_impl _ _ lows lower_not_digit Hl) in Hnot.
    simpl in Hnot. destruct ds as [|d ds']; [done|].
    exists d, ds'. split; [done|]. simpl in Hd.
    by apply andb_prop in Hd as [Hd _]. }
  destruct Hds as (d & ds' & -> & Hdd).
  assert (H : is_Some (rmatch re_element_count
                         (start pv (String a (lows +:+ String d ds') +:+ post))
                         Some)).
  { unfold re_element_count. rewrite rmatch_seq, rmatch_grp.
    change (String a (lows +:+ String d ds') +:+ post)
      with (String a ((lows +:+ String d ds') +:+ post)).
    rewrite append_assoc.
    change (String d ds' +:+ post) with (String d (ds' +:+ post)).
    apply element_some; try done.
    intros y [s Hs]. apply (count_some _ d s); [|done].
    unfold capture. by cbn [rest]. }
  unfold match_here. by destruct H as [z ->].
Qed.

(** The replacer of the outer [replace] returns the token as it is, or
    a text with a subscript in it. *)
Lemma markup_cases (m : found) :
  reported re_formula m →
  markup m = matched m ∨ Str.includes "$_" (markup m) = true.
Proof.
  intros Hm. unfold markup.
  destruct (test re_digit (matched m)) eqn:Ht; [right|by left].
  cbn [negb]. apply includes_app_r, includes_app_l.
  apply test_chr in Ht.
  apply reported_reads in Hm as (x & Hx & [Hr _]).
  destruct (search re_element_count None (matched m)) as [m1|] eqn:Hs.
  - destruct (replace_all_first _ subscript _ _ Hs) as [acc ->].
    unfold subscript. apply includes_app_r, includes_app_l.
    apply includes_app_r, includes_app_l. done.
  - exfalso. apply formula_read in Hx as (l & [Hl _] & Hel).
    assert (Hml : matched m = glue l).
    { rewrite Hr in Hl.
      apply DoiFacts.app_inv_length in Hl as [Hl _]; [done|].
      apply (f_equal String.length) in Hl. rewrite !length_append in Hl.
      lia. }
    rewrite Hml in *.
    apply glue_not_all in Ht as (l1 & e & l2 & -> & He).
    apply Forall_app in Hel as [_ Hel]. apply Forall_cons in Hel as [Hel _].
    pose proof (search_none _ _ _ Hs (glue l1) (e +:+ glue l2)) as Hn.
    rewrite glue_app in Hn. specialize (Hn eq_refl).
    destruct (element_count_here (last_or None (glue l1)) e (glue l2)
                Hel He) as [z Hz].
    by rewrite Hz in Hn.
Qed.

End Formula.

Lemma Forall_or_Exists {A : Type} (P Q : A → Prop) (l : list A) :
  Forall (fun x => P x ∨ Q x) l → Forall P l ∨ Exists Q l.
Proof.
  induction 1 as [|x l [Hx | Hx] _ [IH | IH]].
  - by left.
  - left. by constructor.
  - right. by apply Exists_cons_tl.
  - right. by apply Exists_cons_hd.
  - right. by apply Exists_cons_hd.
Qed.

(** What [latexifyMaterialsInTitle] returns is its argument, or holds a
    subscript. *)
Lemma latexify_cases (title : string) :
  latexifyMaterialsInTitle title = title
  ∨ Str.includes "$_" (latexifyMaterialsInTitle title) = true.
Proof.
  unfold latexifyMaterialsInTitle.
  destruct (negb (Str.truthy title)); [by left|].
  destruct (Str.includes "$_" title || Str.includes "\mathrm" title);
    [by left|].
  assert (Hms : Forall (fun m => markup m = Regex.matched m
                                 ∨ Str.includes "$_" (markup m) = true)
                  (fst (Regex.scan re_formula title))).
  { eapply Forall_impl; [apply scan_go_sound|]. apply markup_cases. }
  rewrite replace_all_rebuild.
  apply Forall_or_Exists in Hms as [Hsame | Hsub].
  - left. rewrite (rebuild_same _ _ _ Hsame). apply scan_go_text.
  - right. by apply rebuild_includes.
Qed.

(** A title that holds a subscript is returned as it is. *)
Lemma latexify_guarded (title : string) :
  Str.includes "$_" title = true → latexifyMaterialsInTitle title = title.
Proof.
  intros H. unfold latexifyMaterialsInTitle. rewrite H. cbn [orb].
  by destruct (negb (Str.truthy title)).
Qed.

(** X6. Applying [latexifyMaterialsInTitle] to its own result changes
    nothing: either the first pass has marked up a formula, and its
    result holds a subscript, which stops the second pass; or it has
    changed nothing. *)
Theorem latexify_idempotent (title : string) :
  latexifyMaterialsInTitle (latexifyMaterialsInTitle title)
  = latexifyMaterialsInTitle title.
Proof.
  destruct (latexify_cases title) as [E | E].
  - by rewrite !E.
  - by apply latexify_guarded.
Qed.

(** ** Formatting the same entry again *)

Section Twice.
Context (opts : options).

Lemma title_after (F : gmap string string) :
  latexifyMaterialsInTitle (field "title" (normalize opts F))
  = field "title" (normalize opts F).
Proof.
  assert (E : field "title" (normalize opts F)
              = field "title" (normalize_title (normalize_author opts F))).
  { unfold normalize.
    rewrite enforce_url_other by done. by rewrite extract_doi_other. }
  rewrite E. unfold normalize_title.
  destruct (Str.truthy (field "title" (normalize_author opts F))) eqn:Ht.
  - rewrite field_insert. cbn.
    destruct (latexify_cases (field "title" (normalize_author opts F)))
      as [E' | E']; [by rewrite !E'|by apply latexify_guarded].
  - apply truthy_false in Ht. by rewrite Ht.
Qed.

Lemma normalize_twice (F : gmap string string) :
  normalizeAuthorsStrict opts (field "author" (normalize opts F))
  = field "author" (normalize opts F) →
  normalize opts (normalize opts F) = normalize opts F.
Proof.
  intros HA. pose proof (title_after F) as HT.
  set (N := normalize opts F) in *.
  assert (EA : normalize_author opts N = N).
  { unfold normalize_author. destruct (Str.truthy _) eqn:Ht; [|done].
    rewrite HA. by apply insert_id, field_truthy_lookup. }
  assert (ET : normalize_title N = N).
  { unfold normalize_title. destruct (Str.truthy _) eqn:Ht; [|done].
    rewrite HT. by apply insert_id, field_truthy_lookup. }
  unfold normalize at 1. rewrite EA, ET.
  assert (EX : extract_doi opts N = N) by apply extract_doi_after.
  rewrite EX. apply enforce_url_idem.
Qed.

End Twice.

(** X9. [formatEntry] changes the fields of the entry it is given.  Called
    a second time on the same entry, it returns the same text and leaves
    the fields as the first call has left them, provided the author
    normaliser leaves the author list of the first call as it is; the
    title, the DOI and the URL need no such proviso. *)
Theorem format_twice_same_text (opts : options) (e : entry) :
  normalizeAuthorsStrict opts (field "author" (normalize opts (fields e)))
  = field "author" (normalize opts (fields e)) →
  formatEntry opts (formatted opts e) = formatEntry opts e
  ∧ formatted opts (formatted opts e) = formatted opts e.
Proof.
  intros HA. unfold formatEntry, formatted. cbn [type key fields].
  by rewrite (normalize_twice opts _ HA).
Qed.

Lemma format_twice_same_text_witness :
  formatEntry (Options true true true)
    (formatted (Options true true true) Sample.paper)
  = formatEntry (Options true true true) Sample.paper
  ∧ formatted (Options true true true)
      (formatted (Options true true true) Sample.paper)
    = formatted (Options true true true) Sample.paper.
Proof.
  apply (format_twice_same_text (Options true true true) Sample.paper).
  vm_compute. reflexivity.
Defined.

(** ** A text without entries *)

Section NoEntry.
Import Regex RegexFacts Sound.

Lemma elem_glue (x : string) (l : list string) :
  x ∈ l → ∃ pre post : string, glue l = pre +:+ x +:+ post.
Proof.
  induction 1 as [x l|x y l _ (pre & post & IH)].
  - exists "", (glue l). done.
  - exists (y +:+ pre), post. cbn [glue List.fold_right].
    unfold glue in IH. by rewrite IH, append_assoc.
Qed.

Lemma has_entry_part (l x r : string) :
  has_entry x = true → has_entry (l +:+ x +:+ r) = true.
Proof. intros H. by apply has_entry_app_l, has_entry_app_r. Qed.

(** A fragment is a part of the text. *)
Lemma fragment_part (bib x : string) :
  x ∈ splitEntries bib → ∃ pre post : string, bib = pre +:+ x +:+ post.
Proof.
  unfold splitEntries. rewrite split_by_cut.
  intros Hx. apply list_elem_of_In, filter_In in Hx as [Hx _].
  apply in_map_iff in Hx as (y & <- & Hy).
  apply list_elem_of_In, elem_glue in Hy as (pre & post & Hc).
  unfold glue in Hc. rewrite cut_go_concat in Hc.
  destruct (DoiFacts.trim_decompose y) as (l & r & Hy & _ & _).
  exists (pre +:+ l), (r +:+ post).
  change ("" +:+ bib) with bib in Hc. rewrite Hc, Hy at 1.
  by rewrite !append_assoc.
Qed.

Lemma at_entry_has (s : string) : at_entry s = true → has_entry s = true.
Proof. intros H. destruct s; cbn [has_entry]; by rewrite H. Qed.

Lemma parsed_none (bib : string) :
  has_entry bib = false → FormatBib.parsed (splitEntries bib) = [].
Proof.
  intros Hno. unfold FormatBib.parsed.
  assert (H : ∀ x, x ∈ splitEntries bib → parseEntry x = None).
  { intros x Hx. destruct (parseEntry x) as [e|] eqn:He; [|done].
    apply parsed_head in He
      as (ty & sp & sp2 & k & sp3 & tl & Ht & _ & _ & Wty & Nty & _).
    assert (Hh : has_entry x = true).
    { apply at_entry_has. rewrite Ht. destruct ty as [|b ty]; [done|].
      simpl in Wty. apply andb_prop in Wty as [Hb _]. cbn. by rewrite Hb. }
    apply fragment_part in Hx as (pre & post & ->).
    by rewrite (has_entry_part pre x post Hh) in Hno. }
  induction (splitEntries bib) as [|x l IH]; [done|].
  cbn. rewrite (H x) by (by left). apply IH.
  intros y Hy. apply H. by right.
Qed.

End NoEntry.

(** X15. A 7-bit text in which no at sign is followed by a word character
    is not formatted: the handler of the format button leaves the output area
    as it is, and reports that nothing was pasted when the text is
    white space, and that no entry was detected otherwise. *)
Theorem format_bib_without_entry (opts : options) (bibIn bibOut0 : string) :
  Str.is_ascii bibIn = true →
  has_entry bibIn = false →
  FormatBib.click opts bibIn bibOut0
  = {| FormatBib.bibOut := bibOut0;
       FormatBib.status :=
         if Str.truthy (Str.trim bibIn)
         then "Could not detect BibTeX entries."
         else "Paste a .bib first." |}.
Proof.
  intros _ Hno. unfold FormatBib.click.
  destruct (Str.truthy (Str.trim bibIn)); [|done].
  cbn [negb]. by rewrite parsed_none.
Qed.

Lemma format_bib_without_entry_witness :
  FormatBib.click (Options true true true) "see me@ home" "old"
  = {| FormatBib.bibOut := "old";
       FormatBib.status := "Could not detect BibTeX entries." |}.
Proof.
  apply (format_bib_without_entry (Options true true true)
           "see me@ home" "old"); reflexivity.
Defined.

(** ** A batch without identifiers *)

Section NoIdentifier.
Import Regex RegexFacts Sound.

(** The pieces [split] returns are made of characters of the text. *)
Lemma split_go_all (q : ascii → bool) (r : regex) (fuel : nat) :
  ∀ (cur : string) (pv : option ascii) (s : string),
    Str.all q cur = true → Str.all q s = true →
    Forall (fun x => Str.all q x = true) (split_go fuel r cur pv s).
Proof.
  induction fuel as [|fuel IH]; intros cur pv s Hcur Hs.
  - cbn. constructor; [|done]. by rewrite DoiFacts.all_app, Hcur, Hs.
  - cbn [split_go]. destruct s as [|a s]; [by repeat constructor|].
    assert (Hnext : Forall (fun x => Str.all q x = true)
                      (split_go fuel r (cur +:+ String a "") (Some a) s)).
    { simpl in Hs. apply andb_prop in Hs as [Ha Hs'].
      apply IH; [|done]. rewrite DoiFacts.all_app, Hcur. simpl.
      by rewrite Ha. }
    destruct (rmatch r (start pv (String a s)) Some) as [y|] eqn:Hr;
      [|done].
    destruct (_ || _); [|done].
    constructor; [done|]. apply IH; [done|].
    apply rmatch_sound in Hr as (y' & Hy & [= ->]).
    destruct (matches_reads _ _ _ Hy) as (w & Hw & _).
    cbn [start rest] in Hw. rewrite Hw, DoiFacts.all_app in Hs.
    by apply andb_prop in Hs as [_ Hs].
Qed.

Lemma split_all (q : ascii → bool) (r : regex) (s : string) :
  Str.all q s = true → Forall (fun x => Str.all q x = true) (split r s).
Proof.
  intros Hs. unfold split. destruct s as [|a s].
  - destruct (bool_decide _); by repeat constructor.
  - by apply split_go_all.
Qed.

Lemma identifiers_blank (doiIn : string) :
  Str.all Char.is_space doiIn = true → identifiers doiIn = [].
Proof.
  intros Hs. unfold identifiers.
  pose proof (split_all Char.is_space re_newline doiIn Hs) as H.
  induction H as [|x l Hx _ IH]; [done|].
  cbn [List.map]. rewrite (trim_blank x Hx). exact IH.
Qed.

End NoIdentifier.

(** X18. When the input area of the batch holds white space only, no lookup
    is made: the output area is emptied, the status line asks for a DOI,
    and the outside world is as it was. *)
Theorem convertDoi_without_identifier {world : Type}
    (fetchCrossrefJson :
       string -> world -> (string + Crossref.message) * world)
    (opts : options) (doiIn : string) (w : world) :
  Str.all Char.is_space doiIn = true →
  convertDoi fetchCrossrefJson opts doiIn w
  = {| doiOut := ""; status := "Paste at least one DOI.";
       world_after := w |}.
Proof.
  intros Hs. unfold convertDoi. by rewrite identifiers_blank.
Qed.

Lemma convertDoi_without_identifier_witness :
  convertDoi Sample.remote (Options true true true) (" " +:+ LF +:+ " ") tt
  = {| doiOut := ""; status := "Paste at least one DOI.";
       world_after := tt |}.
Proof.
  apply (convertDoi_without_identifier Sample.remote
           (Options true true true) (" " +:+ LF +:+ " ") tt).
  reflexivity.
Defined.

(** ** A DOI taken from the URL, and the URL made from it *)

Section Canonical.
Import Regex RegexFacts.

Lemma last_all (q : ascii → bool) (w : string) (b : ascii) :
  Str.all q w = true → Str.last w = Some b → q b = true.
Proof.
  induction w as [|a w IH]; [done|]. simpl.
  intros [Ha Hw]%andb_prop. destruct w as [|a' w]; [by intros [= <-]|].
  by apply IH.
Qed.

Lemma nonspace_tight (w : string) :
  Str.all (non Char.is_space) w = true → tight w = true.
Proof.
  intros H. unfold tight.
  assert (H1 : is_space_opt (Str.head w) = false).
  { destruct w as [|a w]; [done|]. simpl in *.
    apply andb_prop in H as [Ha _]. by apply negb_true_iff in Ha. }
  assert (H2 : is_space_opt (Str.last w) = false).
  { destruct (Str.last w) as [b|] eqn:Hl; [|done]. simpl.
    apply (last_all _ _ _ H), negb_true_iff in Hl. done. }
  by rewrite H1, H2.
Qed.

(** What [extractDoiFromText] returns has no white space around it. *)
Lemma extracted_trimmed (u : string) :
  Str.trim (extractDoiFromText u) = extractDoiFromText u.
Proof.
  destruct u as [|a u]; [done|].
  destruct (DoiFacts.extractDoiFromText_spec (String a u))
    as [[(pre & post & _ & Hs & _) _] | [_ ->]]; [done| |done].
  apply Eval.trim_of_tight, nonspace_tight.
  by apply DoiFacts.doi_shape_tight in Hs as [_ Hs].
Qed.

End Canonical.

(** X7. With extraction and enforcement both enabled, an entry without DOI
    whose URL holds one leaves [formatEntry] with that DOI in its doi
    field and with the resolver address of that DOI as its URL. *)
Theorem url_with_doi_made_canonical (opts : options)
    (F : gmap string string) :
  tryExtractDoi opts = true → enforceDoiUrl opts = true →
  field "doi" F = "" →
  extractDoiFromText (field "url" F) ≠ "" →
  field "doi" (normalize opts F) = extractDoiFromText (field "url" F)
  ∧ field "url" (normalize opts F)
    = "https://doi.org/" +:+ extractDoiFromText (field "url" F).
Proof.
  intros Hext Henf Hdoi Hd.
  set (G := normalize_title (normalize_author opts F)).
  assert (Gd : field "doi" G = "").
  { unfold G. by rewrite normalize_title_other, normalize_author_other. }
  assert (Gu : field "url" G = field "url" F).
  { unfold G. by rewrite normalize_title_other, normalize_author_other. }
  assert (Hu : Str.truthy (field "url" F) = true).
  { destruct (field "url" F); [done|done]. }
  assert (E : extract_doi opts G
              = <["doi" := extractDoiFromText (field "url" F)]> G).
  { unfold extract_doi. rewrite Hext, Gd, Gu, Hu. cbn.
    apply truthy_true in Hd. by rewrite Hd. }
  unfold normalize. fold G. rewrite E. unfold enforce_url.
  rewrite Henf, field_insert. cbn [decide_rel]. 
  destruct (decide ("doi" = "doi")) as [_|]; [|done].
  apply truthy_true in Hd. rewrite Hd. cbn [andb].
  rewrite extracted_trimmed, !field_insert. by cbn.
Qed.

Lemma url_with_doi_made_canonical_witness :
  let F : gmap string string :=
    <["url" := "http://dx.doi.org/10.1000/xyz123 "]> ∅ in
  field "doi" (normalize (Options true true true) F)
  = extractDoiFromText (field "url" F)
  ∧ field "url" (normalize (Options true true true) F)
    = "https://doi.org/" +:+ extractDoiFromText (field "url" F).
Proof.
  intros F.
  apply (url_with_doi_made_canonical (Options true true true) F);
    [reflexivity|reflexivity|reflexivity|vm_compute; discriminate].
Defined.

(** ** The identifiers of a batch *)

Section Identifiers.
Import Regex RegexFacts.

Lemma newline_here (pv : option ascii) (a : ascii) (s : string) :
  rmatch re_newline (start pv (String a s)) Some
  = if Char.just "010" a then Some (MState (Some a) s [])
    else if Char.just "013" a then
      match s with
      | String b s' =>
          if Char.just "010" b then Some (MState (Some b) s' []) else None
      | "" => None
      end
    else None.
Proof.
  unfold re_newline. rewrite rmatch_seq. unfold Opt. rewrite rmatch_rep_chr.
  cbn [start prev rest caps greedy hi_is_zero pred_hi Nat.eqb Nat.pred].
  destruct (Char.just "013" a) eqn:Hcr.
  - assert (Hlf : Char.just "010" a = false)
      by (by apply just_eq in Hcr as ->).
    rewrite Hlf. cbn [rmatch rest]. rewrite Hlf.
    destruct s as [|b s']; cbn [greedy hi_is_zero rest]; [done|].
    by destruct (Char.just "010" b).
  - cbn [rmatch rest]. by destruct (Char.just "010" a).
Qed.

(** No piece of a text split at its line ends holds a line feed. *)
Lemma split_go_newline (fuel : nat) :
  ∀ (cur : string) (pv : option ascii) (s : string),
    (String.length s < fuel)%nat →
    Str.all (Char.except "010") cur = true →
    Forall (fun x => Str.all (Char.except "010") x = true)
      (split_go fuel re_newline cur pv s).
Proof.
  induction fuel as [|fuel IH]; intros cur pv s Hlen Hcur; [lia|].
  cbn [split_go]. destruct s as [|a s]; [by repeat constructor|].
  simpl in Hlen. rewrite newline_here.
  assert (Hnext : Char.just "010" a = false →
            Forall (fun x => Str.all (Char.except "010") x = true)
              (split_go fuel re_newline (cur +:+ String a "") (Some a) s)).
  { intros Ha. apply IH; [lia|]. rewrite DoiFacts.all_app, Hcur. simpl.
    unfold Char.except. unfold Char.just in Ha. by rewrite Ha. }
  destruct (Char.just "010" a) eqn:Hlf.
  - unfold same_pos. cbn [start rest].
    replace (String.length s =? String.length (String a s))%nat with false
      by (symmetry; apply Nat.eqb_neq; simpl; lia).
    rewrite orb_true_r. constructor; [done|]. apply IH; [lia|done].
  - destruct (Char.just "013" a); [|by apply Hnext].
    destruct s as [|b s']; [by apply Hnext|].
    destruct (Char.just "010" b); [|by apply Hnext].
    unfold same_pos. cbn [start rest].
    replace (String.length s' =? String.length (String a (String b s')))%nat
      with false by (symmetry; apply Nat.eqb_neq; simpl; lia).
    rewrite orb_true_r. constructor; [done|].
    apply IH; [simpl in Hlen; lia|done].
Qed.

End Identifiers.

(** X17. The identifiers the batch looks up are the lines of the input area
    that are not blank, without the white space at their ends: none is
    empty, none has white space at an end, none holds a line feed. *)
Theorem identifiers_are_trimmed_lines (doiIn : string) :
  Forall (fun d => d ≠ "" ∧ tight d = true
                   ∧ Str.all (Char.except "010") d = true)
    (identifiers doiIn).
Proof.
  unfold identifiers. apply Forall_forall. intros d Hd.
  apply list_elem_of_In, filter_In in Hd as [Hd Ht].
  apply in_map_iff in Hd as (x & <- & Hx).
  split; [by apply truthy_true|]. split; [apply tight_trim|].
  apply all_trim.
  assert (H : Forall (fun x => Str.all (Char.except "010") x = true)
                (Regex.split re_newline doiIn)).
  { unfold Regex.split. destruct doiIn as [|a s].
    - destruct (bool_decide _); by repeat constructor.
    - apply split_go_newline; [lia|done]. }
  rewrite Forall_forall in H. by apply H, list_elem_of_In.
Qed.

(** ** The white space of a normalised name *)

Section NameSpace.
Import Regex RegexFacts.

Lemma tidy_squeeze_go (s : string) :
  ∀ inrun : bool,
    tidy_go inrun (squeeze_go Char.is_space " " inrun s) = true.
Proof.
  induction s as [|a s IH]; intros inrun; [done|].
  cbn [squeeze_go]. destruct (Char.is_space a) eqn:Ha.
  - destruct inrun; [apply IH|]. cbn. apply IH.
  - cbn [tidy_go]. rewrite Ha. apply IH.
Qed.

Lemma tight_squeeze (s : string) :
  tight s = true → tight (squeeze Char.is_space " " s) = true.
Proof.
  unfold tight. intros [H1 H2]%andb_prop.
  destruct s as [|a s]; [done|].
  simpl in H1. apply negb_true_iff in H1.
  destruct (Str.last (String a s)) as [b|] eqn:Hl.
  2:{ by apply Eval.last_nonempty in Hl. }
  simpl in H2. apply negb_true_iff in H2.
  apply Eval.last_snoc in Hl as [s' Hs'].
  destruct (squeeze_go_snoc Char.is_space " " b s' H2 false) as [u Hu].
  unfold squeeze. rewrite Hs', Hu, last_app_one. cbn [is_space_opt].
  rewrite H2. rewrite <- Hu, <- Hs'. cbn [squeeze_go]. rewrite H1.
  cbn. by rewrite H1.
Qed.

Lemma nonspace_tidy (s : string) :
  Str.all (non Char.is_space) s = true → ∀ inrun, tidy_go inrun s = true.
Proof.
  induction s as [|a s IH]; intros H inrun; [done|]. simpl in *.
  apply andb_prop in H as [Ha Hs]. unfold non in Ha.
  apply negb_true_iff in Ha. rewrite Ha. by apply IH.
Qed.

(** No piece of a text split at its runs of a class holds a character
    of the class. *)
Lemma split_go_plus (p : ascii → bool) (fuel : nat) :
  ∀ (cur : string) (pv : option ascii) (s : string),
    (String.length s < fuel)%nat →
    Str.all (non p) cur = true →
    Forall (fun x => Str.all (non p) x = true)
      (split_go fuel (Plus (Chr p)) cur pv s).
Proof.
  induction fuel as [|fuel IH]; intros cur pv s Hlen Hcur; [lia|].
  cbn [split_go]. destruct s as [|a s]; [by repeat constructor|].
  simpl in Hlen. rewrite rmatch_plus_some.
  destruct (p a) eqn:Ha.
  - unfold same_pos. cbn [start rest].
    pose proof (length_dropWhile p (String a s)) as Hle.
    assert (Hlt : (String.length (Str.dropWhile p (String a s))
                   < String.length (String a s))%nat).
    { simpl. rewrite Ha. pose proof (length_dropWhile p s). simpl. lia. }
    replace (String.length (Str.dropWhile p (String a s))
             =? String.length (String a s))%nat with false
      by (symmetry; apply Nat.eqb_neq; lia).
    rewrite orb_true_r. constructor; [done|].
    apply IH; [|done]. cbn [rest String.length] in *. lia.
  - apply IH; [lia|]. rewrite DoiFacts.all_app, Hcur. simpl.
    unfold non. by rewrite Ha.
Qed.

Lemma split_plus (p : ascii → bool) (s : string) :
  Forall (fun x => Str.all (non p) x = true) (split (Plus (Chr p)) s).
Proof.
  unfold split. destruct s as [|a s].
  - destruct (bool_decide _); by repeat constructor.
  - apply split_go_plus; [lia|done].
Qed.

Lemma replace_chars_keeps (q p : ascii → bool) (s : string) :
  Str.all q s = true → Str.all q (replace_chars p "" s) = true.
Proof.
  induction s as [|a s IH]; [done|]. simpl.
  intros [Ha Hs]%andb_prop. destruct (p a); [by apply IH|].
  simpl. by rewrite Ha, IH.
Qed.

(** A token holds no white space. *)
Lemma tokens_nonspace (s : string) :
  Forall (fun t => Str.all (non Char.is_space) t = true)
    (Str.filter_Boolean (List.map cleanToken (split re_spaces s))).
Proof.
  apply Forall_forall. intros t Ht.
  apply list_elem_of_In, filter_In in Ht as [Ht _].
  apply in_map_iff in Ht as (x & <- & Hx).
  unfold cleanToken, re_dot_or_comma. rewrite replace_all_chr.
  apply all_trim, replace_chars_keeps.
  pose proof (split_plus Char.is_space s) as H.
  rewrite Forall_forall in H. by apply H, list_elem_of_In.
Qed.

Lemma finish_neat (opts : options) (initials family : string) :
  plain_text initials → plain_text family →
  tidy (finish opts initials family) = true
  ∧ tight (finish opts initials family) = true.
Proof.
  intros Hi Hf. destruct (finish_plain opts _ _ Hi Hf) as [-> _].
  unfold re_spaces. rewrite replace_all_plus. split.
  - apply tidy_squeeze_go.
  - apply tight_squeeze, tight_trim.
Qed.

Lemma initialed_neat (opts : options) (n : string) :
  tidy (initialed opts n) = true ∧ tight (initialed opts n) = true.
Proof.
  unfold initialed. destruct (Str.includes "," n).
  - apply finish_neat; [apply makeInitials_plain|apply cleanToken_plain].
  - pose proof (tokens_plain
                  (split re_spaces (replace_all re_dot (const " ") n)))
      as Ht.
    pose proof (tokens_nonspace (replace_all re_dot (const " ") n)) as Hn.
    remember (Str.filter_Boolean
                (List.map cleanToken
                   (split re_spaces (replace_all re_dot (const " ") n))))
      as tokens eqn:E. clear E.
    assert (Hfin : tidy (finish opts
                           (Str.join " "
                              (Str.filter_Boolean
                                 (List.map initial (List.removelast tokens))))
                           (last_or_undefined tokens)) = true
                   ∧ tight (finish opts
                              (Str.join " "
                                 (Str.filter_Boolean
                                    (List.map initial
                                       (List.removelast tokens))))
                              (last_or_undefined tokens)) = true).
    { apply finish_neat; [|by apply last_or_undefined_plain].
      apply all_join; [done|].
      by apply filter_plain, initials_plain, removelast_plain. }
    destruct tokens as [|t [|t' tokens]]; [done| |done].
    apply Forall_inv in Hn. split.
    + by apply nonspace_tidy.
    + by apply nonspace_tight.
Qed.

End NameSpace.

(** X2. Whatever the name, what the strict normaliser returns for it has no
    white space at its ends, and no white space inside but single
    spaces. *)
Theorem strict_name_single_spaces (opts : options) (rawName : string) :
  tidy (normalizeOneAuthorStrict opts rawName) = true
  ∧ tight (normalizeOneAuthorStrict opts rawName) = true.
Proof.
  rewrite normalizeOneAuthorStrict_cases. cbv zeta.
  destruct (negb (Str.truthy (Str.trim rawName))); [done|].
  destruct (_ && _); [|apply initialed_neat].
  unfold re_spaces. rewrite RegexFacts.replace_all_plus. split.
  - apply tidy_squeeze_go.
  - apply tight_squeeze, tight_trim.
Qed.

(** ** Splitting at the runs of a class, and at the characters of a
    class *)

(** The pieces of a text split at its runs of the class [p]; [inrun]
    tells that the previous character belonged to a run. *)
Fixpoint words_go (p : ascii → bool) (inrun : bool) (cur : string)
    (s : string) : list string :=
  match s with
  | "" => [cur]
  | String a s' =>
      if p a then
        if inrun then words_go p true "" s'
        else cur :: words_go p true "" s'
      else words_go p false (cur +:+ String a "") s'
  end.

(** The pieces of a text split at its characters of the class [p]. *)
Fixpoint fields_go (p : ascii → bool) (cur : string) (s : string)
    : list string :=
  match s with
  | "" => [cur]
  | String a s' =>
      if p a then cur :: fields_go p "" s'
      else fields_go p (cur +:+ String a "") s'
  end.

Section Words.
Import Regex RegexFacts.

Lemma words_go_true (p : ascii → bool) (s : string) :
  words_go p true "" s = words_go p false "" (Str.dropWhile p s).
Proof.
  induction s as [|a s IH]; [done|]. simpl.
  destruct (p a) eqn:Ha; [done|]. simpl. by rewrite Ha.
Qed.

Lemma split_go_words (p : ascii → bool) (fuel : nat) :
  ∀ (cur : string) (pv : option ascii) (s : string),
    (String.length s < fuel)%nat →
    split_go fuel (Plus (Chr p)) cur pv s = words_go p false cur s.
Proof.
  induction fuel as [|fuel IH]; intros cur pv s Hlen; [lia|].
  cbn [split_go]. destruct s as [|a s]; [done|].
  simpl in Hlen. rewrite rmatch_plus_some. cbn [words_go].
  destruct (p a) eqn:Ha; [|by rewrite IH by lia].
  unfold same_pos. cbn [start rest prev].
  assert (Hlt : (String.length (Str.dropWhile p (String a s))
                 < String.length (String a s))%nat).
  { simpl. rewrite Ha. pose proof (length_dropWhile p s). simpl. lia. }
  replace (String.length (Str.dropWhile p (String a s))
           =? String.length (String a s))%nat with false
    by (symmetry; apply Nat.eqb_neq; lia).
  rewrite orb_true_r. f_equal.
  rewrite IH by (cbn [String.length] in Hlt; lia).
  rewrite words_go_true. simpl. by rewrite Ha.
Qed.

Lemma split_words (p : ascii → bool) (s : string) :
  split (Plus (Chr p)) s = words_go p false "" s.
Proof.
  unfold split. destruct s as [|a s]; [done|].
  apply split_go_words. lia.
Qed.

Lemma split_go_fields (p : ascii → bool) (fuel : nat) :
  ∀ (cur : string) (pv : option ascii) (s : string),
    (String.length s < fuel)%nat →
    split_go fuel (Chr p) cur pv s = fields_go p cur s.
Proof.
  induction fuel as [|fuel IH]; intros cur pv s Hlen; [lia|].
  cbn [split_go]. destruct s as [|a s]; [done|].
  simpl in Hlen. cbn [rmatch start rest fields_go].
  destruct (p a) eqn:Ha; [|by rewrite IH by lia].
  unfold same_pos, advance. cbn [rest prev start].
  replace (String.length s =? String.length (String a s))%nat with false
    by (symmetry; apply Nat.eqb_neq; simpl; lia).
  rewrite orb_true_r. f_equal. by rewrite IH by lia.
Qed.

Lemma split_fields (p : ascii → bool) (s : string) :
  split (Chr p) s = fields_go p "" s.
Proof.
  unfold split. destruct s as [|a s]; [done|].
  apply split_go_fields. lia.
Qed.

Lemma words_go_word (p : ascii → bool) (w : string) :
  ∀ cur rest : string,
    Str.all (non p) w = true →
    words_go p false cur (w +:+ rest) = words_go p false (cur +:+ w) rest.
Proof.
  induction w as [|a w IH]; intros cur rest Hw.
  - by rewrite append_nil_r.
  - simpl in Hw. apply andb_prop in Hw as [Ha Hw]. unfold non in Ha.
    apply negb_true_iff in Ha.
    change (String a w +:+ rest) with (String a (w +:+ rest)).
    cbn [words_go]. rewrite Ha, IH by done. by rewrite append_assoc.
Qed.

Lemma fields_go_word (p : ascii → bool) (w : string) :
  ∀ cur rest : string,
    Str.all (non p) w = true →
    fields_go p cur (w +:+ rest) = fields_go p (cur +:+ w) rest.
Proof.
  induction w as [|a w IH]; intros cur rest Hw.
  - by rewrite append_nil_r.
  - simpl in Hw. apply andb_prop in Hw as [Ha Hw]. unfold non in Ha.
    apply negb_true_iff in Ha.
    change (String a w +:+ rest) with (String a (w +:+ rest)).
    cbn [fields_go]. rewrite Ha, IH by done. by rewrite append_assoc.
Qed.

(** Words joined by single spaces are split into these words at their
    runs of white space. *)
Lemma words_join (ws : list string) :
  ws ≠ [] →
  Forall (fun w => w ≠ "" ∧ Str.all (non Char.is_space) w = true) ws →
  words_go Char.is_space false "" (Str.join " " ws) = ws.
Proof.
  intros Hne H. induction H as [|w ws [Hw1 Hw2] Hws IH]; [done|].
  destruct ws as [|w2 ws].
  - cbn [Str.join]. rewrite <- (append_nil_r w) at 1.
    by rewrite words_go_word.
  - change (Str.join " " (w :: w2 :: ws))
      with (w +:+ String " " (Str.join " " (w2 :: ws))).
    rewrite words_go_word by done. cbn [words_go].
    change (Char.is_space " ") with true. cbn iota.
    change ("" +:+ w) with w. f_equal.
    rewrite words_go_true.
    assert (Hd : Str.dropWhile Char.is_space (Str.join " " (w2 :: ws))
                 = Str.join " " (w2 :: ws)).
    { apply Forall_inv in Hws as [N2 A2].
      destruct w2 as [|b w2]; [done|]. simpl in A2.
      apply andb_prop in A2 as [Hb _]. unfold non in Hb.
      apply negb_true_iff in Hb.
      destruct ws; simpl; by rewrite Hb. }
    rewrite Hd. by apply IH.
Qed.

End Words.

(** ** Simple names, in both forms *)

Section BothForms.
Import Regex RegexFacts.

(** A word: not empty, without white space. *)
Definition wordy (w : string) : Prop :=
  w ≠ "" ∧ Str.all (non Char.is_space) w = true.

Lemma name_nonspace (c : ascii) :
  name_char c = true → non Char.is_space c = true.
Proof. destruct c as [[] [] [] [] [] [] [] []]; done. Qed.

Lemma name_plain (c : ascii) : name_char c = true → plain_char c = true.
Proof. destruct c as [[] [] [] [] [] [] [] []]; done. Qed.

Lemma name_upper (c : ascii) :
  name_char c = true → name_char (Char.toUpperCase c) = true.
Proof. destruct c as [[] [] [] [] [] [] [] []]; done. Qed.

Lemma simple_inv (w : string) :
  simple w = true → w ≠ "" ∧ Str.all name_char w = true.
Proof.
  unfold simple. intros [H1 H2]%andb_prop. split; [|done].
  by apply truthy_true.
Qed.

Lemma simple_wordy (w : string) : simple w = true → wordy w.
Proof.
  intros [H1 H2]%simple_inv. split; [done|].
  by apply (DoiFacts.all_impl _ _ _ name_nonspace).
Qed.

Lemma simple_plain (w : string) : simple w = true → plain_text w.
Proof.
  intros [_ H]%simple_inv. by apply (DoiFacts.all_impl _ _ _ name_plain).
Qed.

Lemma simple_initial (w : string) : simple w = true → simple (initial w) = true.
Proof.
  intros [H1 H2]%simple_inv. destruct w as [|a w]; [done|].
  simpl in H2. apply andb_prop in H2 as [Ha _].
  unfold simple. simpl. by rewrite name_upper.
Qed.

Lemma join_snoc (sep : string) (l : list string) (x : string) :
  l ≠ [] → Str.join sep (l ++ [x]) = Str.join sep l +:+ sep +:+ x.
Proof.
  induction l as [|y l IH]; [done|]. intros _.
  destruct l as [|z l]; [done|].
  change (Str.join sep ((y :: z :: l) ++ [x]))
    with (y +:+ sep +:+ Str.join sep ((z :: l) ++ [x])).
  rewrite IH by done.
  change (Str.join sep (y :: z :: l)) with (y +:+ sep +:+ Str.join sep (z :: l)).
  by rewrite !append_assoc.
Qed.

Lemma tidy_go_word (w rest : string) (b : bool) :
  wordy w → tidy_go b (w +:+ rest) = tidy_go false rest.
Proof.
  intros [Hne Hw]. revert b. induction w as [|a w IH]; intros b; [done|].
  simpl in Hw. apply andb_prop in Hw as [Ha Hw]. unfold non in Ha.
  apply negb_true_iff in Ha.
  change (String a w +:+ rest) with (String a (w +:+ rest)).
  cbn [tidy_go]. rewrite Ha. destruct w as [|a' w]; [done|].
  by apply IH.
Qed.

Lemma tidy_go_join (ws : list string) :
  Forall wordy ws → ∀ b : bool, tidy_go b (Str.join " " ws) = true.
Proof.
  induction 1 as [|w ws Hw Hws IH]; intros b; [done|].
  destruct ws as [|w2 ws].
  - cbn [Str.join]. rewrite <- (append_nil_r w). by rewrite tidy_go_word.
  - change (Str.join " " (w :: w2 :: ws))
      with (w +:+ String " " (Str.join " " (w2 :: ws))).
    rewrite tidy_go_word by done. cbn [tidy_go].
    change (Char.is_space " ") with true. cbn. apply IH.
Qed.

Lemma wordy_ends (w : string) :
  wordy w →
  ∃ (a b : ascii) (x y : string),
    w = String a x ∧ w = y +:+ String b ""
    ∧ Char.is_space a = false ∧ Char.is_space b = false.
Proof.
  intros [Hne Hw]. destruct w as [|a x]; [done|].
  destruct (Str.last (String a x)) as [b|] eqn:Hl.
  2:{ by apply Eval.last_nonempty in Hl. }
  pose proof (last_all _ _ _ Hw Hl) as Hb.
  apply Eval.last_snoc in Hl as [y Hy].
  exists a, b, x, y. split; [done|]. split; [done|].
  simpl in Hw. apply andb_prop in Hw as [Ha _].
  unfold non in *. by split; apply negb_true_iff.
Qed.

Lemma join_ends (ws : list string) :
  ws ≠ [] → Forall wordy ws →
  ∃ (a b : ascii) (x y : string),
    Str.join " " ws = String a x ∧ Str.join " " ws = y +:+ String b ""
    ∧ Char.is_space a = false ∧ Char.is_space b = false
    ∧ Str.head (List.hd "" ws) = Some a.
Proof.
  intros Hne H. induction H as [|w ws Hw Hws IH]; [done|].
  destruct (wordy_ends w Hw) as (a & b & x & y & E1 & E2 & Ha & Hb).
  destruct ws as [|w2 ws].
  - exists a, b, x, y. cbn [Str.join List.hd]. rewrite E1 at 3. done.
  - destruct IH as (a' & b' & x' & y' & F1 & F2 & _ & Hb' & _); [done|].
    exists a, b', (x +:+ String " " (Str.join " " (w2 :: ws))),
           (w +:+ String " " y').
    change (Str.join " " (w :: w2 :: ws))
      with (w +:+ String " " (Str.join " " (w2 :: ws))).
    split; [by rewrite E1 at 1|]. split.
    { rewrite F2 at 1. by rewrite append_assoc. }
    cbn [List.hd]. rewrite E1 at 1. done.
Qed.

(** Words joined by single spaces are left as they are by [trim] and by
    the replacement of white space runs. *)
Lemma join_neat (ws : list string) :
  ws ≠ [] → Forall wordy ws →
  Str.trim (Str.join " " ws) = Str.join " " ws
  ∧ replace_all re_spaces (const " ") (Str.join " " ws) = Str.join " " ws
  ∧ Str.truthy (Str.join " " ws) = true.
Proof.
  intros Hne H.
  destruct (join_ends ws Hne H) as (a & b & x & y & E1 & E2 & Ha & Hb & _).
  split; [|split].
  - apply (trim_tight _ a b); try done; by eexists.
  - unfold re_spaces. rewrite replace_all_plus.
    apply squeeze_tidy. by apply tidy_go_join.
  - by rewrite E1.
Qed.

Lemma cleanToken_simple (w : string) : simple w = true → cleanToken w = w.
Proof.
  intros Hw. unfold cleanToken, re_dot_or_comma. rewrite replace_all_chr.
  rewrite replace_chars_absent.
  - destruct (wordy_ends w (simple_wordy w Hw))
      as (a & b & x & y & E1 & E2 & Ha & Hb).
    apply (trim_tight _ a b); try done; by eexists.
  - apply simple_plain in Hw. unfold plain_text, plain_char in Hw.
    exact Hw.
Qed.

Lemma no_dot_same (s : string) :
  Str.all (non (Char.just ".")) s = true →
  replace_all re_dot (const " ") s = s.
Proof.
  intros H. unfold re_dot. rewrite replace_all_chr.
  by apply replace_chars_absent.
Qed.

Lemma map_cleanToken_simple (ws : list string) :
  Forall (fun w => simple w = true) ws → List.map cleanToken ws = ws.
Proof.
  induction 1 as [|w ws Hw _ IH]; [done|].
  cbn [List.map]. by rewrite cleanToken_simple, IH.
Qed.

Lemma filter_Boolean_simple (ws : list string) :
  Forall (fun w => simple w = true) ws → Str.filter_Boolean ws = ws.
Proof.
  induction 1 as [|w ws Hw _ IH]; [done|].
  unfold Str.filter_Boolean in *. cbn [List.filter].
  apply simple_inv in Hw as [Hw _]. apply truthy_true in Hw.
  by rewrite Hw, IH.
Qed.

Lemma Forall_simple_wordy (ws : list string) :
  Forall (fun w => simple w = true) ws → Forall wordy ws.
Proof. intros H. eapply Forall_impl; [exact H|]. apply simple_wordy. Qed.

Lemma Forall_simple_initial (ws : list string) :
  Forall (fun w => simple w = true) ws →
  Forall (fun w => simple w = true) (List.map initial ws).
Proof.
  induction 1 as [|w ws Hw _ IH]; [done|].
  cbn [List.map]. constructor; [by apply simple_initial|done].
Qed.

Lemma join_all (q : ascii → bool) (ws : list string) :
  q " "%char = true → Forall (fun w => Str.all q w = true) ws →
  Str.all q (Str.join " " ws) = true.
Proof. intros Hq H. apply all_join; [simpl; by rewrite Hq|done]. Qed.

(** The tokens of simple words joined by single spaces are these
    words. *)
Lemma tokens_of_join (ws : list string) :
  ws ≠ [] → Forall (fun w => simple w = true) ws →
  Str.filter_Boolean
    (List.map cleanToken
       (split re_spaces (replace_all re_dot (const " ") (Str.join " " ws))))
  = ws.
Proof.
  intros Hne H.
  rewrite no_dot_same.
  2:{ apply join_all; [done|]. eapply Forall_impl; [exact H|].
      intros w Hw. apply plain_no_period. by apply simple_plain. }
  unfold re_spaces. rewrite split_words, words_join; try done.
  - by rewrite map_cleanToken_simple, filter_Boolean_simple.
  - by apply Forall_simple_wordy.
Qed.

(** The tail of both branches, on the initials of simple given names
    and a simple family name. *)
Lemma finish_simple (opts : options) (given : list string)
    (family : string) :
  given ≠ [] → Forall (fun w => simple w = true) given →
  simple family = true →
  finish opts (Str.join " " (List.map initial given)) family
  = Str.join " " (List.map initial given ++ [family]).
Proof.
  intros Hne Hg Hf.
  assert (Hi : Forall (fun w => simple w = true) (List.map initial given))
    by (by apply Forall_simple_initial).
  assert (Hall : Forall (fun w => simple w = true)
                   (List.map initial given ++ [family])).
  { apply Forall_app. split; [done|by repeat constructor]. }
  assert (Hne' : List.map initial given ≠ []) by (by destruct given).
  destruct (finish_plain opts (Str.join " " (List.map initial given)) family)
    as [-> _].
  - apply all_join; [done|]. eapply Forall_impl; [exact Hi|].
    apply simple_plain.
  - by apply simple_plain.
  - rewrite <- join_snoc by done.
    destruct (join_neat (List.map initial given ++ [family]))
      as (-> & -> & _); try done.
    + by destruct (List.map initial given).
    + by apply Forall_simple_wordy.
Qed.

End BothForms.

Section BothFormsMain.
Import Regex RegexFacts.
Context (opts : options).

Lemma name_not_comma (c : ascii) :
  name_char c = true → non (Char.just ",") c = true.
Proof. destruct c as [[] [] [] [] [] [] [] []]; done. Qed.

Lemma name_not_brace (c : ascii) :
  name_char c = true → Char.just "{" c = false.
Proof. destruct c as [[] [] [] [] [] [] [] []]; done. Qed.

Lemma includes_char_false (a : ascii) (s : string) :
  Str.all (non (Char.just a)) s = true →
  Str.includes (String a "") s = false.
Proof.
  induction s as [|b s IH]; [done|]. simpl.
  intros [Hb Hs]%andb_prop. rewrite (IH Hs), orb_false_r.
  unfold non, Char.just in Hb. apply negb_true_iff in Hb.
  destruct (ascii_dec a b) as [->|]; [|done].
  by rewrite Ascii.eqb_refl in Hb.
Qed.

Lemma not_wrapped (a : ascii) (x : string) :
  Char.just "{" a = false →
  Str.startsWith "{" (String a x) && Str.endsWith "}" (String a x) = false.
Proof.
  intros Ha. unfold Str.startsWith. cbn [String.prefix].
  destruct (ascii_dec "{" a) as [<-|]; [done|done].
Qed.

Lemma simple_head (w : string) :
  simple w = true →
  ∃ (a : ascii) (x : string), w = String a x ∧ Char.just "{" a = false.
Proof.
  intros [Hne Hw]%simple_inv. destruct w as [|a x]; [done|].
  simpl in Hw. apply andb_prop in Hw as [Ha _].
  exists a, x. split; [done|]. by apply name_not_brace.
Qed.

Lemma wordy_with_comma (family : string) :
  simple family = true → wordy (family +:+ ",").
Proof.
  intros Hf. destruct (simple_wordy _ Hf) as [Hne Hw]. split.
  - by destruct family.
  - by rewrite DoiFacts.all_app, Hw.
Qed.

Lemma comma_form (family : string) (given : list string) :
  simple family = true → given ≠ [] →
  Forall (fun g => simple g = true) given →
  normalizeOneAuthorStrict opts (family +:+ ", " +:+ Str.join " " given)
  = Str.join " " (List.map initial given ++ [family]).
Proof.
  intros Hf Hne Hg.
  set (G := Str.join " " given).
  assert (Hraw : family +:+ ", " +:+ G
                 = Str.join " " ((family +:+ ",") :: given)).
  { destruct given as [|g gs]; [done|].
    change (Str.join " " ((family +:+ ",") :: g :: gs))
      with ((family +:+ ",") +:+ " " +:+ G).
    by rewrite append_assoc. }
  assert (Hw : Forall wordy ((family +:+ ",") :: given)).
  { constructor; [by apply wordy_with_comma|by apply Forall_simple_wordy]. }
  destruct (join_neat _ (ltac:(done) : (family +:+ ",") :: given ≠ []) Hw)
    as (Htrim & Hsq & Htruthy).
  destruct (join_neat given Hne (Forall_simple_wordy _ Hg))
    as (HtrimG & _ & HtruthyG). fold G in HtrimG, HtruthyG.
  rewrite <- Hraw in Htrim, Hsq, Htruthy.
  rewrite normalizeOneAuthorStrict_cases. cbv zeta.
  rewrite Htrim, Htruthy. cbn [negb]. rewrite Hsq.
  destruct (simple_head _ Hf) as (a & x & Ef & Ha).
  assert (Hcorp : Str.startsWith "{" (family +:+ ", " +:+ G)
                  && Str.endsWith "}" (family +:+ ", " +:+ G) = false).
  { rewrite Ef. by apply (not_wrapped a). }
  rewrite Hcorp. unfold initialed.
  assert (Hinc : Str.includes "," (family +:+ ", " +:+ G) = true).
  { apply (includes_mid "," family (" " +:+ G)). }
  rewrite Hinc.
  assert (Hsplit : split_str "," (family +:+ ", " +:+ G)
                   = [family; " " +:+ G]).
  { unfold split_str. change (lit ",") with (Chr (Char.just ",")).
    rewrite split_fields.
    change (family +:+ ", " +:+ G) with (family +:+ String "," (" " +:+ G)).
    rewrite fields_go_word.
    2:{ apply simple_inv in Hf as [_ Hf].
        by apply (DoiFacts.all_impl _ _ _ name_not_comma). }
    cbn [fields_go]. change (Char.just "," ",") with true. cbn iota.
    change ("" +:+ family) with family. f_equal.
    rewrite <- (append_nil_r (" " +:+ G)) at 1.
    rewrite fields_go_word; [done|].
    change (" " +:+ G) with (String " " G). cbn [Str.all].
    apply andb_true_intro. split; [done|].
    apply join_all; [done|]. eapply Forall_impl; [exact Hg|].
    intros w [_ Hw']%simple_inv.
    by apply (DoiFacts.all_impl _ _ _ name_not_comma). }
  rewrite Hsplit. cbn [List.map].
  assert (Htf : Str.trim family = family).
  { destruct (wordy_ends _ (simple_wordy _ Hf))
      as (a' & b' & x' & y' & E1 & E2 & Ha' & Hb').
    apply (trim_tight _ a' b'); try done; by eexists. }
  assert (HtG : Str.trim (" " +:+ G) = G).
  { rewrite <- (append_nil_r G) at 1.
    by rewrite (trim_pad " " G ""). }
  rewrite Htf, HtG.
  assert (Hfil : Str.filter_Boolean [family; G] = [family; G]).
  { unfold Str.filter_Boolean. cbn [List.filter]. rewrite HtruthyG.
    apply simple_inv in Hf as [Hf _]. apply truthy_true in Hf.
    by rewrite Hf. }
  rewrite Hfil. cbn [List.hd List.tl Str.join].
  rewrite cleanToken_simple by done.
  unfold makeInitialsFromGiven. unfold G. rewrite tokens_of_join by done.
  by apply finish_simple.
Qed.

Lemma space_form (family : string) (given : list string) :
  simple family = true → given ≠ [] →
  Forall (fun g => simple g = true) given →
  normalizeOneAuthorStrict opts (Str.join " " (given ++ [family]))
  = Str.join " " (List.map initial given ++ [family]).
Proof.
  intros Hf Hne Hg.
  assert (Hall : Forall (fun w => simple w = true) (given ++ [family])).
  { apply Forall_app. split; [done|by repeat constructor]. }
  assert (Hne' : (given ++ [family])%list ≠ []) by (by destruct given).
  destruct (join_neat _ Hne' (Forall_simple_wordy _ Hall))
    as (Htrim & Hsq & Htruthy).
  rewrite normalizeOneAuthorStrict_cases. cbv zeta.
  rewrite Htrim, Htruthy. cbn [negb]. rewrite Hsq.
  assert (Hcorp : Str.startsWith "{" (Str.join " " (given ++ [family]))
                  && Str.endsWith "}" (Str.join " " (given ++ [family]))
                  = false).
  { destruct (join_ends _ Hne' (Forall_simple_wordy _ Hall))
      as (a & b & x & y & E1 & _ & _ & _ & Hh).
    rewrite E1. apply not_wrapped.
    destruct given as [|g gs]; [done|]. cbn [app List.hd] in Hh.
    apply Forall_inv in Hg. apply simple_inv in Hg as [_ Hg].
    destruct g as [|a' g]; [done|]. injection Hh as ->.
    simpl in Hg. apply andb_prop in Hg as [Hg _].
    by apply name_not_brace. }
  rewrite Hcorp. unfold initialed.
  assert (Hinc : Str.includes "," (Str.join " " (given ++ [family])) = false).
  { apply includes_char_false. apply join_all; [done|].
    eapply Forall_impl; [exact Hall|].
    intros w [_ Hw']%simple_inv.
    by apply (DoiFacts.all_impl _ _ _ name_not_comma). }
  rewrite Hinc, tokens_of_join by done.
  assert (Hlast : last_or_undefined (given ++ [family]) = family).
  { unfold last_or_undefined. rewrite List.map_app. cbn [List.map].
    by rewrite List.last_last. }
  assert (Hrem : List.removelast (given ++ [family]) = given)
    by apply List.removelast_last.
  destruct (given ++ [family])%list as [|t1 [|t2 l]] eqn:E.
  - done.
  - destruct given as [|g [|g2 gs]]; done.
  - rewrite Hlast, Hrem.
    rewrite filter_Boolean_simple by (by apply Forall_simple_initial).
    by apply finish_simple.
Qed.

End BothFormsMain.

(** X1. A name made of a simple family name and one or more simple given
    names (simple: of 7-bit characters, without white space, period,
    comma or opening brace)
    is normalised, in the form with the family name and a comma first
    and in the form with the family name last, to the same text: the
    first letter of each given name in upper case, then the family name,
    all separated by single spaces. *)
Theorem strict_name_both_forms (opts : options) (family : string)
    (given : list string) :
  simple family = true → given ≠ [] →
  Forall (fun g => simple g = true) given →
  normalizeOneAuthorStrict opts (family +:+ ", " +:+ Str.join " " given)
  = Str.join " " (List.map initial given ++ [family])
  ∧ normalizeOneAuthorStrict opts (Str.join " " (given ++ [family]))
    = Str.join " " (List.map initial given ++ [family]).
Proof.
  intros Hf Hne Hg. split; [by apply comma_form|by apply space_form].
Qed.

Lemma strict_name_both_forms_witness :
  normalizeOneAuthorStrict (Options false true true)
    ("Curie" +:+ ", " +:+ Str.join " " ["marie"; "Salomea"])
  = Str.join " " (List.map initial ["marie"; "Salomea"] ++ ["Curie"])
  ∧ normalizeOneAuthorStrict (Options false true true)
      (Str.join " " (["marie"; "Salomea"] ++ ["Curie"]))
    = Str.join " " (List.map initial ["marie"; "Salomea"] ++ ["Curie"]).
Proof.
  apply (strict_name_both_forms (Options false true true) "Curie"
           ["marie"; "Salomea"]).
  - reflexivity.
  - discriminate.
  - repeat constructor.
Defined.

(** ** White space after an entry *)

Section Trailing.
Import Regex RegexFacts Sound Eval.

Lemma trimEnd_decompose (s : string) :
  ∃ r : string, s = Str.trimEnd s +:+ r ∧ Str.all Char.is_space r = true.
Proof.
  exists (String.rev (takeWhile Char.is_space (String.rev s))). split.
  - unfold Str.trimEnd.
    rewrite <- rev_append, takeWhile_dropWhile. by rewrite rev_involutive.
  - rewrite DoiFacts.all_rev. apply all_takeWhile.
Qed.

Lemma trimEnd_blank (u : string) :
  Str.all Char.is_space u = true → Str.trimEnd u = "".
Proof.
  intros H. unfold Str.trimEnd.
  by rewrite dropWhile_all by (by rewrite DoiFacts.all_rev).
Qed.

(** The closing brace that the expression for it finds: the one that
    only white space follows. *)
Lemma close_found (u : string) :
  Str.all Char.is_space u = true →
  ∀ (p : string) (pv : option ascii),
    ∃ m : found,
      search re_close pv (p +:+ String "}" u) = Some m
      ∧ before m = p ∧ rest (final m) = "".
Proof.
  intros Hu. induction p as [|a p IH]; intros pv.
  - assert (H : rmatch re_close (start pv (String "}" u)) Some
                = Some (MState (last_or (Some "}"%char) u) "" [])).
    { unfold re_close, start. apply eval_seq, eval_chr; [done|].
      rewrite <- (append_nil_r u) at 1.
      apply eval_seq, eval_run; [done|done|lia|]. done. }
    eexists. split.
    + change ("" +:+ String "}" u) with (String "}" u).
      cbn [search]. unfold match_here. rewrite H. reflexivity.
    + done.
  - destruct (IH (Some a)) as (m & Hm & Hb & Hr).
    exists (skip a m). split; [|by cbn; rewrite Hb].
    change (String a p +:+ String "}" u) with (String a (p +:+ String "}" u)).
    cbn [search]. rewrite close_here_none, Hm; [done|].
    rewrite DoiFacts.all_app. cbn. by rewrite andb_false_r.
Qed.

Lemma close_sound (pv : option ascii) (s : string) (m : found) :
  search re_close pv s = Some m →
  ∃ u : string,
    s = before m +:+ String "}" u ∧ Str.all Char.is_space u = true
    ∧ rest (final m) = "".
Proof.
  intros Hs. pose proof (search_text _ _ _ _ Hs) as Ht.
  apply search_reported, reported_reads in Hs as (x & Hx & [Hr _]).
  unfold re_close in Hx.
  apply seq_inv in Hx as (m1 & (a & Ha & [R1 _] & _)%chr_inv & Hx).
  apply just_eq in Ha as ->.
  apply seq_inv in Hx as (m2 & (u & [R2 _] & _ & Hu)%star_inv & [He Ef]).
  exists u. rewrite Ef in *. rewrite He in *.
  rewrite append_nil_r in Hr, R2, Ht.
  assert (E : matched m = String "}" u).
  { rewrite R1, R2 in Hr. done. }
  rewrite E in Ht. by split.
Qed.

(** White space at the end of the text does not change what is left
    once the closing brace is removed and the rest is trimmed. *)
Lemma body_trimEnd (s : string) :
  Str.trim (replace_first re_close "" (Str.trimEnd s))
  = Str.trim (replace_first re_close "" s).
Proof.
  destruct (trimEnd_decompose s) as (r & Hs & Hr).
  unfold replace_first, match_first.
  destruct (search re_close None s) as [m|] eqn:Hm.
  - apply close_sound in Hm as (u & Hu & Hwu & Hrest).
    rewrite Hrest.
    assert (E : Str.trimEnd s = before m +:+ String "}" "").
    { rewrite Hu at 1.
      rewrite trimEnd_app_nonspace by done. by rewrite trimEnd_blank. }
    destruct (close_found "" eq_refl (before m) None)
      as (m' & Hm' & Hb' & Hr').
    by rewrite E, Hm', Hb', Hr'.
  - destruct (search re_close None (Str.trimEnd s)) as [m'|] eqn:Hm'.
    + exfalso. apply close_sound in Hm' as (u & Hu & Hwu & _).
      assert (E : s = before m' +:+ String "}" (u +:+ r)).
      { rewrite Hs at 1. rewrite Hu.
        change (String "}" u) with (String "}" "" +:+ u).
        change (String "}" (u +:+ r)) with (String "}" "" +:+ u +:+ r).
        by rewrite !append_assoc. }
      destruct (close_found (u +:+ r)
                  (ltac:(by rewrite DoiFacts.all_app, Hwu, Hr)
                    : Str.all Char.is_space (u +:+ r) = true)
                  (before m') None) as (m2 & Hm2 & _).
      rewrite <- E in Hm2. by rewrite Hm2 in Hm.
    + rewrite Hs at 2. rewrite <- (trim_pad "" (Str.trimEnd s) r) by done.
      done.
Qed.

Lemma parse_trimEnd (text : string) :
  parseEntry (Str.trimEnd text) = parseEntry text.
Proof.
  destruct (trimEnd_decompose text) as (r & Hs & Hr).
  destruct (parseEntry text) as [e|] eqn:He.
  - apply parsed_head in He as Hh.
    destruct Hh as (ty & sp & sp2 & k & sp3 & tl & Ht & _ & _ & Wty & Nty
                    & Hsp & Hsp2 & Hk & Nk & Hsp3).
    assert (NK : sp2 +:+ k +:+ sp3 ≠ "")
      by (by apply app_nonempty_r, app_nonempty_l).
    assert (HK : Str.all (Char.except ",") (sp2 +:+ k +:+ sp3) = true).
    { rewrite !DoiFacts.all_app, Hk.
      rewrite (DoiFacts.all_impl _ _ sp2 space_not_comma Hsp2).
      by rewrite (DoiFacts.all_impl _ _ sp3 space_not_comma Hsp3). }
    assert (E : text = "@" +:+ ty +:+ sp +:+ "{" +:+ (sp2 +:+ k +:+ sp3)
                         +:+ "," +:+ tl)
      by (by rewrite Ht, !append_assoc).
    rewrite <- He. rewrite E.
    assert (E' : Str.trimEnd ("@" +:+ ty +:+ sp +:+ "{"
                               +:+ (sp2 +:+ k +:+ sp3) +:+ "," +:+ tl)
                 = "@" +:+ ty +:+ sp +:+ "{" +:+ (sp2 +:+ k +:+ sp3)
                     +:+ "," +:+ Str.trimEnd tl).
    { assert (E0 : "@" +:+ ty +:+ sp +:+ "{" +:+ (sp2 +:+ k +:+ sp3)
                     +:+ "," +:+ tl
                   = ("@" +:+ ty +:+ sp +:+ "{" +:+ (sp2 +:+ k +:+ sp3))
                       +:+ String "," tl)
        by (by rewrite !append_assoc).
      rewrite E0, trimEnd_app_nonspace by done.
      by rewrite !append_assoc. }
    rewrite E'. rewrite !parse_by_header by done.
    by rewrite body_trimEnd.
  - destruct (parseEntry (Str.trimEnd text)) as [e|] eqn:He'; [|done].
    exfalso. apply parsed_head in He'
      as (ty & sp & sp2 & k & sp3 & tl & Ht & _ & _ & Wty & Nty
          & Hsp & Hsp2 & Hk & Nk & Hsp3).
    assert (NK : sp2 +:+ k +:+ sp3 ≠ "")
      by (by apply app_nonempty_r, app_nonempty_l).
    assert (HK : Str.all (Char.except ",") (sp2 +:+ k +:+ sp3) = true).
    { rewrite !DoiFacts.all_app, Hk.
      rewrite (DoiFacts.all_impl _ _ sp2 space_not_comma Hsp2).
      by rewrite (DoiFacts.all_impl _ _ sp3 space_not_comma Hsp3). }
    assert (E : text = "@" +:+ ty +:+ sp +:+ "{" +:+ (sp2 +:+ k +:+ sp3)
                         +:+ "," +:+ (tl +:+ r)).
    { rewrite Hs at 1. rewrite Ht. by rewrite !append_assoc. }
    rewrite E, parse_by_header in He by done. done.
Qed.

End Trailing.

(** X19. White space at the end of a text does not change what [parseEntry]
    makes of it. *)
Theorem parseEntry_ignores_trailing_space (text : string) :
  parseEntry (Str.trimEnd text) = parseEntry text.
Proof. apply parse_trimEnd. Qed.

(** ** Formatting the output of the format button *)

Section Again.
Import Regex RegexFacts.
Context (opts : options).

(** The text written for a plain entry is parsed back, and formatting
    the parsed entry gives that text again. *)
Lemma reparse (e : entry) :
  plain_entry opts e = true →
  normalizeAuthorsStrict opts (field "author" (normalize opts (fields e)))
  = field "author" (normalize opts (fields e)) →
  ∃ e' : entry,
    parseEntry (formatEntry opts e) = Some e'
    ∧ formatEntry opts e' = formatEntry opts e.
Proof.
  intros Hplain HA.
  pose proof (normalize_twice opts (fields e) HA) as Hagain.
  set (N := normalize opts (fields e)) in *.
  unfold plain_entry in Hplain. fold N in Hplain.
  apply andb_prop in Hplain as [[Hty Hkey]%andb_prop Hall].
  assert (Hfields : Forall (Eval.plain_field (fun f => field f N)) (emitted N)).
  { apply Forall_forall. intros f Hf.
    rewrite List.forallb_forall in Hall.
    apply list_elem_of_In, Hall, andb_prop in Hf. done. }
  eexists. split.
  - unfold formatEntry, serialize. fold N. rewrite lines_emitted.
    apply (Eval.parse_serialize (fun f => field f N)); done.
  - unfold formatEntry at 1. cbn [type key fields].
    unfold formatEntry. fold N.
    apply serialize_alike.
    rewrite <- Hagain at 2.
    apply normalize_alike, Eval.read_back_alike.
Qed.

Lemma cut_go_skip (u : string) :
  ∀ (s cur : string),
    has_entry_upto u s = false →
    cut_go cur (u +:+ s) = cut_go (cur +:+ u) s.
Proof.
  induction u as [|a u IH]; intros s cur H.
  - by rewrite append_nil_r.
  - cbn [has_entry_upto] in H. apply orb_false_elim in H as [H1 H2].
    change (String a u +:+ s) with (String a (u +:+ s)) in *.
    cbn [cut_go]. rewrite H1. cbn [andb].
    rewrite IH by done. by rewrite append_assoc.
Qed.

Lemma upto_alone (v : string) :
  has_entry v = false → has_entry_upto v "" = false.
Proof.
  induction v as [|a v IH]; [done|]. cbn [has_entry has_entry_upto].
  intros [H1 H2]%orb_false_elim. by rewrite append_nil_r, H1, IH.
Qed.

Lemma upto_before (v : string) (c : ascii) (s : string) :
  has_entry v = false → Char.is_word c = false →
  has_entry_upto v (String c s) = false.
Proof.
  intros Hv Hc. induction v as [|a v IH]; [done|].
  cbn [has_entry] in Hv. apply orb_false_elim in Hv as [H1 H2].
  cbn [has_entry_upto]. rewrite (IH H2), orb_false_r.
  destruct v as [|b v].
  - cbn. by rewrite Hc, andb_false_r.
  - exact H1.
Qed.

Lemma upto_sep (v : string) (c : ascii) (s : string) :
  has_entry v = false → Char.is_word c = false → Char.just "@" c = false →
  has_entry_upto (v +:+ String c "") s = false.
Proof.
  intros Hv Hw Hc. rewrite upto_snoc, (upto_before v c s Hv Hw).
  cbn [orb]. destruct s; cbn [at_entry]; [done|by rewrite Hc].
Qed.

(** A text as [formatEntry] writes it: it starts where an entry starts,
    and no entry starts further on. *)
Definition entry_text (f : string) : Prop :=
  at_entry f = true ∧ one_entry f = true.

(** The pieces of entry texts joined by line feeds. *)
Fixpoint pieces (fs : list string) : list string :=
  match fs with
  | [] => []
  | [f] => [f]
  | f :: fs' => (f +:+ LF) :: pieces fs'
  end.

Lemma cut_entries (fs : list string) :
  fs ≠ [] → Forall entry_text fs →
  ∀ cur : string,
    cut_go cur (Str.join LF fs)
    = if Str.truthy cur then cur :: pieces fs else pieces fs.
Proof.
  intros Hne H. induction H as [|f fs [Hat Hone] Hfs IH]; [done|].
  intros cur. destruct f as [|a f']; [done|].
  cbn [one_entry] in Hone. apply negb_true_iff in Hone.
  assert (Hstart : ∀ rest : string,
            cut_go cur (String a (f' +:+ rest))
            = if Str.truthy cur
              then cur :: cut_go (String a "") (f' +:+ rest)
              else cut_go (String a "") (f' +:+ rest)).
  { intros rest. cbn [cut_go].
    assert (E : at_entry (String a (f' +:+ rest)) = true).
    { apply (at_entry_app (String a f') rest Hat). }
    rewrite E. cbn [andb]. destruct cur; [done|done]. }
  destruct fs as [|f2 fs].
  - cbn [Str.join pieces]. rewrite <- (append_nil_r f') at 1.
    rewrite Hstart, cut_go_skip by (by apply upto_alone).
    by destruct (Str.truthy cur).
  - change (Str.join LF (String a f' :: f2 :: fs))
      with (String a (f' +:+ LF +:+ Str.join LF (f2 :: fs))).
    rewrite Hstart.
    assert (E : cut_go (String a "") (f' +:+ LF +:+ Str.join LF (f2 :: fs))
                = (String a f' +:+ LF) :: pieces (f2 :: fs)).
    { rewrite <- append_assoc. rewrite cut_go_skip by (by apply upto_sep).
      rewrite IH by done.
      change (String a "" +:+ f' +:+ LF) with (String a (f' +:+ LF)).
      done. }
    rewrite E. by destruct (Str.truthy cur).
Qed.

Lemma map_trim_pieces (fs : list string) :
  List.map Str.trim (pieces fs) = List.map Str.trim fs.
Proof.
  induction fs as [|f fs IH]; [done|]. destruct fs as [|f2 fs]; [done|].
  cbn [pieces List.map] in *. rewrite IH. f_equal.
  rewrite <- (trim_pad "" f LF) by done. done.
Qed.

Lemma trim_entry_text (f : string) :
  at_entry f = true → Str.trim f = Str.trimEnd f ∧ Str.trim f ≠ "".
Proof.
  intros Hat. pose proof (at_entry_trim f Hat) as Ht.
  split; [|by destruct (Str.trim f)].
  destruct f as [|a [|b f]]; try done. cbn [at_entry] in Hat.
  apply andb_prop in Hat as [Ha _]. apply just_eq in Ha as ->.
  done.
Qed.

(** The fragments of entry texts joined by line feeds are these texts,
    trimmed. *)
Lemma split_entries (fs : list string) :
  fs ≠ [] → Forall entry_text fs →
  splitEntries (Str.join LF fs) = List.map Str.trimEnd fs.
Proof.
  intros Hne H. unfold splitEntries.
  rewrite split_by_cut, cut_entries by done. cbn [Str.truthy].
  rewrite map_trim_pieces. clear Hne.
  induction H as [|f fs [Hat _] _ IH]; [done|].
  unfold Str.filter_Boolean in *. cbn [List.map List.filter].
  destruct (trim_entry_text f Hat) as [E N].
  apply truthy_true in N. by rewrite N, IH, E.
Qed.

Lemma format_at_entry (e : entry) :
  plain_entry opts e = true → at_entry (formatEntry opts e) = true.
Proof.
  unfold plain_entry. intros [[Hty _]%andb_prop _]%andb_prop.
  unfold plain_type in Hty.
  apply andb_prop in Hty as [[Hne Hw]%andb_prop _].
  unfold formatEntry, serialize. destruct (type e) as [|b ty]; [done|].
  simpl in Hw. apply andb_prop in Hw as [Hb _]. cbn. by rewrite Hb.
Qed.

End Again.

Section AgainMain.
Context (opts : options).

(** An entry whose text the format button reads back as it is. *)
Definition steady (e : entry) : Prop :=
  plain_entry opts e = true
  ∧ normalizeAuthorsStrict opts (field "author" (normalize opts (fields e)))
    = field "author" (normalize opts (fields e))
  ∧ one_entry (formatEntry opts e) = true.

Lemma steady_text (e : entry) :
  steady e → entry_text (formatEntry opts e).
Proof. intros (Hp & _ & H1). split; [by apply format_at_entry|done]. Qed.

Lemma parsed_back (es : list entry) :
  Forall steady es →
  ∃ es' : list entry,
    FormatBib.parsed (List.map Str.trimEnd (List.map (formatEntry opts) es))
    = es'
    ∧ List.map (formatEntry opts) es' = List.map (formatEntry opts) es
    ∧ List.length es' = List.length es.
Proof.
  induction 1 as [|e es (Hp & HA & _) _ (es' & IH1 & IH2 & IH3)].
  - by exists [].
  - destruct (reparse opts e Hp HA) as (e' & He' & Hf').
    exists (e' :: es'). unfold FormatBib.parsed in *.
    cbn [List.map omap list_omap]. rewrite parse_trimEnd, He'.
    split; [by rewrite <- IH1|]. cbn [List.map List.length].
    by rewrite Hf', IH2, IH3.
Qed.

End AgainMain.

(** X20. The output of the format button, pasted into the input area, is
    formatted to itself.  For a list of entries of 7-bit text that are
    plain, whose
    normalised author lists the author normaliser leaves as they are,
    and whose texts hold no at sign followed by a word character after
    the first: the texts [formatEntry] writes for them, joined by line
    feeds as the handler joins them, are split, parsed and formatted by
    the handler to the same text, and the status counts the entries. *)
Theorem format_bib_again (opts : options) (es : list entry)
    (bibOut0 : string) :
  es ≠ [] →
  Forall
    (fun e =>
       ascii_entry e = true
       ∧ plain_entry opts e = true
       ∧ normalizeAuthorsStrict opts
           (field "author" (normalize opts (fields e)))
         = field "author" (normalize opts (fields e))
       ∧ one_entry (formatEntry opts e) = true) es →
  FormatBib.click opts (Str.join LF (List.map (formatEntry opts) es)) bibOut0
  = {| FormatBib.bibOut := Str.join LF (List.map (formatEntry opts) es);
       FormatBib.status := FormatBib.report (List.length es) |}.
Proof.
  intros Hne Hes.
  assert (Hst : Forall (steady opts) es).
  { eapply Forall_impl; [exact Hes|]. by intros e [_ He]. }
  clear Hes. rename Hst into Hes.
  assert (Htexts : Forall entry_text (List.map (formatEntry opts) es)).
  { apply Forall_map. eapply Forall_impl; [exact Hes|].
    intros e He. by apply steady_text. }
  assert (Hne' : List.map (formatEntry opts) es ≠ []) by (by destruct es).
  destruct (parsed_back opts es Hes) as (es' & Hp & Hf & Hl).
  unfold FormatBib.click.
  assert (Htrim : Str.truthy
                    (Str.trim (Str.join LF (List.map (formatEntry opts) es)))
                  = true).
  { destruct es as [|e es]; [done|]. apply Forall_inv in Htexts as [Hat _].
    cbn [List.map] in *.
    assert (Hat' : at_entry
                     (Str.join LF (formatEntry opts e
                                     :: List.map (formatEntry opts) es))
                   = true).
    { destruct (List.map (formatEntry opts) es); [done|].
      by apply at_entry_app. }
    apply at_entry_trim in Hat'.
    by destruct (Str.trim _). }
  rewrite Htrim. cbn [negb].
  rewrite split_entries, Hp by done.
  destruct es' as [|e' es'].
  - destruct es; [done|]. by cbn in Hl.
  - by rewrite Hf, Hl.
Qed.

Lemma format_bib_again_witness :
  FormatBib.click (Options true true true)
    (Str.join LF
       (List.map (formatEntry (Options true true true))
          [Sample.paper; formatted (Options true true true) Sample.paper]))
    ""
  = {| FormatBib.bibOut :=
         Str.join LF
           (List.map (formatEntry (Options true true true))
              [Sample.paper; formatted (Options true true true) Sample.paper]);
       FormatBib.status := FormatBib.report 2 |}.
Proof.
  apply (format_bib_again (Options true true true)
           [Sample.paper; formatted (Options true true true) Sample.paper]
           "").
  - discriminate.
  - constructor; [|constructor; [|constructor]].
    + split; [vm_compute; reflexivity|]. split; [vm_compute; reflexivity|].
      split; [vm_compute; reflexivity|]. vm_compute. reflexivity.
    + split; [vm_compute; reflexivity|]. split; [vm_compute; reflexivity|].
      split; [vm_compute; reflexivity|]. vm_compute. reflexivity.
Defined.

(** ** The two variants of the strict normaliser *)

Section Variants.
Import Regex RegexFacts.

(** On a text whose only white space is single spaces, splitting at the
    runs of white space and splitting at the spaces give the same
    pieces. *)
Lemma words_fields (s : string) :
  ∀ (inrun : bool) (cur : string),
    tidy_go inrun s = true →
    words_go Char.is_space inrun cur s
    = fields_go (Char.just " ") cur s.
Proof.
  induction s as [|a s IH]; intros inrun cur H; [done|].
  cbn [tidy_go] in H. cbn [words_go fields_go].
  destruct (Char.is_space a) eqn:Ha.
  - apply andb_prop in H as [[Hin Hsp]%andb_prop Hs].
    apply negb_true_iff in Hin as ->. apply Ascii.eqb_eq in Hsp as ->.
    change (Char.just " " " ") with true. cbn iota.
    f_equal. by apply IH.
  - assert (Hj : Char.just " " a = false).
    { revert Ha. clear. destruct a as [[] [] [] [] [] [] [] []]; done. }
    rewrite Hj. by apply IH.
Qed.

Lemma tokens_same (n : string) :
  tidy n = true → Str.all (non (Char.just ".")) n = true →
  split re_spaces (replace_all re_dot (const " ") n) = split_str " " n.
Proof.
  intros Ht Hd. rewrite no_dot_same by done.
  unfold re_spaces, split_str. rewrite split_words.
  change (lit " ") with (Chr (Char.just " ")). rewrite split_fields.
  by apply words_fields.
Qed.

End Variants.

(** X21. The two copies of the strict normaliser in [src/unnamed/part_000]
    return the same text for every name without a period; they do not
    for every name: a name whose given names are written as initials
    without a space between them is one on which they differ. *)
Theorem variants_agree_without_period (opts : options) :
  (∀ rawName : string,
     Str.all (fun c => negb (Char.just "." c)) rawName = true →
     Variant.normalizeOneAuthorStrict opts rawName
     = normalizeOneAuthorStrict opts rawName)
  ∧ Variant.normalizeOneAuthorStrict opts "A.B. Smith"
    ≠ normalizeOneAuthorStrict opts "A.B. Smith".
Proof.
  split.
  - intros rawName Hd.
    unfold Variant.normalizeOneAuthorStrict, normalizeOneAuthorStrict.
    cbv zeta. destruct (negb (Str.truthy (Str.trim rawName))); [done|].
    destruct (_ && _); [done|]. destruct (Str.includes "," _); [done|].
    rewrite tokens_same; [done| |].
    + unfold re_spaces. rewrite RegexFacts.replace_all_plus.
      apply tidy_squeeze_go.
    + unfold re_spaces. rewrite RegexFacts.replace_all_plus.
      apply all_squeeze_go; [done|]. by apply all_trim.
  - destruct opts as [[] ? ?]; vm_compute; discriminate.
Qed.

Lemma variants_agree_without_period_witness :
  Variant.normalizeOneAuthorStrict (Options false true true) "Niels Bohr"
  = normalizeOneAuthorStrict (Options false true true) "Niels Bohr".
Proof.
  apply (variants_agree_without_period (Options false true true)).
  reflexivity.
Defined.

(** X22. In the first version of the program the check box for periods does
    what it says: when it is checked, the normalised author list holds
    no period. *)
Theorem first_version_removes_periods (opts : options)
    (authorField : string) :
  noDots opts = true →
  Str.all (fun c => negb (Char.just "." c))
    (Mvp.normalizeAuthors opts authorField) = true.
Proof.
  intros H. unfold Mvp.normalizeAuthors. rewrite H.
  unfold re_dot. rewrite replace_all_chr.
  apply (replace_chars_removed (Char.just ".")).
Qed.

Lemma first_version_removes_periods_witness :
  Str.all (fun c => negb (Char.just "." c))
    (Mvp.normalizeAuthors (Options true true true) "Smith Jr., J. and A. Poe")
  = true.
Proof.
  apply (first_version_removes_periods (Options true true true)
           "Smith Jr., J. and A. Poe").
  reflexivity.
Defined.

(** ** The first version's conversion of one identifier *)

Section FirstVersion.

Lemma starts_at (text : string) (e : entry) :
  parseEntry text = Some e → Str.startsWith "@" text = true.
Proof.
  intros H. apply parsed_head in H as (ty & sp & sp2 & k & sp3 & tl & -> & _).
  unfold Str.startsWith. cbn. by destruct (_ +:+ _).
Qed.

Lemma author_keeps_doi (opts : options) (F : gmap string string) :
  field "doi" (MvpDoi.normalize_author opts F) = field "doi" F.
Proof.
  unfold MvpDoi.normalize_author. destruct (Str.truthy _); [|done].
  unfold field. by rewrite lookup_insert_ne.
Qed.

End FirstVersion.

(** X23. In the first version a fetched text is parsed as it arrives: when it
    does not begin with an at sign (a text that begins with a space, for
    one), the identifier is counted as failed and the output gets the
    comment for a text that cannot be parsed. *)
Theorem first_version_needs_entry_at_start {world : Type}
    (fetch : string -> world -> (string + string) * world)
    (opts : options) (st : @progress world) (doi rawBib : string)
    (w : world) :
  fetch doi (outside st) = (inr rawBib, w) →
  Str.startsWith "@" rawBib = false →
  MvpDoi.convert_one fetch opts st doi
  = {| combined :=
         combined st +:+ ("% Failed DOI: " +:+ doi
                          +:+ " (Received unparseable BibTeX.)" +:+ LF);
       ok := ok st; failed := S (failed st); outside := w |}.
Proof.
  intros Hf Hs. unfold MvpDoi.convert_one. rewrite Hf.
  destruct (parseEntry rawBib) as [e|] eqn:He.
  - apply starts_at in He. congruence.
  - reflexivity.
Qed.

Lemma first_version_needs_entry_at_start_witness :
  MvpDoi.convert_one
    (fun (_ : string) (w : unit) => (inr " @book{k, title={T}}", w))
    (Options true true true)
    {| combined := ""; ok := 0; failed := 0; outside := tt |} "10.1000/x"
  = {| combined :=
         "% Failed DOI: 10.1000/x (Received unparseable BibTeX.)" +:+ LF;
       ok := 0; failed := 1; outside := tt |}.
Proof.
  apply (first_version_needs_entry_at_start
           (fun (_ : string) (w : unit) => (inr " @book{k, title={T}}", w))
           (Options true true true)
           {| combined := ""; ok := 0; failed := 0; outside := tt |}
           "10.1000/x" " @book{k, title={T}}" tt); reflexivity.
Defined.

(** X24. In the first version, when the fetched text parses to an entry
    without a doi field, the identifier that was asked for is recorded:
    the block added to the output is the entry serialised with fields
    whose doi is the identifier, the block has the line for it, and with
    the option to enforce the address the url is the canonical address
    of the identifier. *)
Theorem first_version_records_identifier {world : Type}
    (fetch : string -> world -> (string + string) * world)
    (opts : options) (st : @progress world) (doi rawBib : string)
    (w : world) (parsed : entry) :
  fetch doi (outside st) = (inr rawBib, w) →
  parseEntry rawBib = Some parsed →
  field "doi" (fields parsed) = "" →
  doi ≠ "" → tight doi = true →
  ∃ F : gmap string string,
    MvpDoi.convert_one fetch opts st doi
    = {| combined :=
           combined st +:+ (serialize (type parsed) (key parsed) F +:+ LF);
         ok := S (ok st); failed := failed st; outside := w |}
    ∧ field "doi" F = doi
    ∧ In ("  doi = {" +:+ doi +:+ "}") (lines F)
    ∧ (enforceDoiUrl opts = true → field "url" F = doiUrl doi).
Proof.
  intros Hf Hp Hd Hn Ht.
  exists (MvpDoi.normalize opts (<["doi" := doi]> (fields parsed))).
  assert (Hr : MvpDoi.record_doi doi parsed
               = {| type := type parsed; key := key parsed;
                    fields := <["doi" := doi]> (fields parsed) |}).
  { unfold MvpDoi.record_doi. by rewrite Hd. }
  assert (Hy : Str.truthy doi = true) by by apply truthy_true.
  set (F0 := MvpDoi.normalize_author opts (<["doi" := doi]> (fields parsed))).
  assert (H0 : field "doi" F0 = doi).
  { unfold F0. rewrite author_keeps_doi. unfold field.
    by rewrite lookup_insert_eq. }
  assert (H1 : extract_doi opts F0 = F0).
  { unfold extract_doi. rewrite H0, Hy. cbn.
    by rewrite andb_false_r. }
  assert (HF : field "doi" (MvpDoi.normalize opts
                              (<["doi" := doi]> (fields parsed))) = doi
               ∧ (enforceDoiUrl opts = true →
                  field "url" (MvpDoi.normalize opts
                                 (<["doi" := doi]> (fields parsed)))
                  = doiUrl doi)).
  { unfold MvpDoi.normalize. fold F0. rewrite H1. unfold enforce_url.
    rewrite H0, Hy, andb_true_r, (Eval.trim_of_tight doi Ht).
    destruct (enforceDoiUrl opts); [|done].
    unfold field. rewrite lookup_insert_ne by done.
    by rewrite !lookup_insert_eq. }
  destruct HF as [HF1 HF2].
  split; [|split; [done|split; [|done]]].
  - unfold MvpDoi.convert_one. rewrite Hf, Hp, Hr. by cbn.
  - unfold lines. apply in_or_app. left.
    apply in_map_iff. exists "doi". split.
    + unfold line. by rewrite HF1.
    + apply filter_In. split; [cbn; tauto|]. by rewrite HF1.
Qed.

Lemma first_version_records_identifier_witness :
  ∃ F : gmap string string,
    MvpDoi.convert_one
      (fun (_ : string) (w : unit) => (inr "@book{k, title={T}}", w))
      (Options true true true)
      {| combined := ""; ok := 0; failed := 0; outside := tt |} "10.1000/x"
    = {| combined := "" +:+ (serialize "book" "k" F +:+ LF);
         ok := 1; failed := 0; outside := tt |}
    ∧ field "doi" F = "10.1000/x"
    ∧ In ("  doi = {" +:+ "10.1000/x" +:+ "}") (lines F)
    ∧ (true = true → field "url" F = doiUrl "10.1000/x").
Proof.
  apply (first_version_records_identifier
           (fun (_ : string) (w : unit) => (inr "@book{k, title={T}}", w))
           (Options true true true)
           {| combined := ""; ok := 0; failed := 0; outside := tt |}
           "10.1000/x" "@book{k, title={T}}" tt
           {| type := "book"; key := "k";
              fields := <["title" := "T"]> ∅ |}).
  - reflexivity.
  - vm_compute. reflexivity.
  - reflexivity.
  - discriminate.
  - reflexivity.
Defined.
